(** * TaskManagerPRO: the recurring-task generation engine

    A shallow embedding of
    [backend/src/services/recurringTaskService.ts] (with the pieces of
    [backend/src/models/Task.ts] and [backend/src/index.ts] it relies on)
    and the properties of the engine.

    Modelling conventions.

    - A JavaScript [Date] is a mutable object holding a time value, the
      number of milliseconds since 1970-01-01T00:00:00Z.  Time values are
      integers ([Z]); the "Invalid Date" value and the clipping of time
      values beyond +-8.64e15 ms are outside the model, which is exact
      where the dates computed stay in that range ([in_range] below; the
      properties that need it assume it).  [Date] objects
      live in a heap ([list Z], a reference is an index), so that the
      in-place methods [setDate], [setMonth], [setFullYear] and [setHours]
      and the aliasing between a task's [dueDate] and the dates computed
      from it are explicit.
    - The local time zone of the server is UTC, so that local time and UTC
      coincide (the ECMAScript [LocalTime] and [UTC] are the identity).
    - Numbers stored in a task (interval, weekdays, day of month) are
      integers.
    - The Task collection is a list of documents in insertion order.  A
      document the service reads and the stored document are one value,
      and a date field is a reference into the heap: a mutation of the
      date of a document that was read would show in the store.
    - Every storage call (find, countDocuments, save) and the socket emit
      may throw, which is decided by a script of faults that the calls
      consume.  The validation of the schema that [save] runs before it
      writes is not part of the storage of the model; [instance_valid]
      below says which parents have instances that pass it, and the
      properties that need it assume it. *)

From Stdlib Require Import ZArith Lia List String Bool Sorted DecimalString.
From stdpp Require Import base list.
Import ListNotations.

Local Open Scope Z_scope.

(** ** ECMAScript date arithmetic (ECMA-262, "Date Objects") *)

Module JSDate.

Definition msPerDay : Z := 86400000.

Definition Day (t : Z) : Z := t / msPerDay.
Definition TimeWithinDay (t : Z) : Z := t mod msPerDay.

(** 1970-01-01 was a Thursday; 0 is Sunday. *)
Definition WeekDay (t : Z) : Z := (Day t + 4) mod 7.

(** Day number (days since the epoch) of day [d] of month [m] (1..12) of
    year [y] in the proleptic Gregorian calendar, by 400-year eras that
    start on March 1st. *)
Definition days_from_civil (y m d : Z) : Z :=
  let y' := if m <=? 2 then y - 1 else y in
  let era := y' / 400 in
  let yoe := y' mod 400 in
  let mp := if 2 <? m then m - 3 else m + 9 in
  let doy := (153 * mp + 2) / 5 + d - 1 in
  let doe := yoe * 365 + yoe / 4 - yoe / 100 + doy in
  era * 146097 + doe - 719468.

(** Year, month (1..12) and day of the month of a day number. *)
Definition civil_from_days (z : Z) : Z * Z * Z :=
  let z' := z + 719468 in
  let era := z' / 146097 in
  let doe := z' mod 146097 in
  let yoe := (doe - doe / 1460 + doe / 36524 - doe / 146096) / 365 in
  let doy := doe - (365 * yoe + yoe / 4 - yoe / 100) in
  let mp := (5 * doy + 2) / 153 in
  let d := doy - (153 * mp + 2) / 5 + 1 in
  let m := if mp <? 10 then mp + 3 else mp - 9 in
  let y := yoe + era * 400 in
  (if m <=? 2 then y + 1 else y, m, d).

Definition YearFromTime (t : Z) : Z := fst (fst (civil_from_days (Day t))).
(** Months are numbered from 0 (January) in ECMAScript. *)
Definition MonthFromTime (t : Z) : Z := snd (fst (civil_from_days (Day t))) - 1.
Definition DateFromTime (t : Z) : Z := snd (civil_from_days (Day t)).

(** [MakeDay(year, month, date)]: the month may lie outside 0..11 and the
    date outside the month; both carry over. *)
Definition MakeDay (year month date : Z) : Z :=
  let ym := year + month / 12 in
  let mn := month mod 12 in
  days_from_civil ym (mn + 1) 1 + date - 1.

Definition MakeDate (day time : Z) : Z := day * msPerDay + time.

(** The methods of [Date.prototype] the service calls, on time values. *)
Definition getDate (t : Z) : Z := DateFromTime t.
Definition getDay (t : Z) : Z := WeekDay t.
Definition getMonth (t : Z) : Z := MonthFromTime t.
Definition getFullYear (t : Z) : Z := YearFromTime t.

Definition setDate (t dt : Z) : Z :=
  MakeDate (MakeDay (YearFromTime t) (MonthFromTime t) dt) (TimeWithinDay t).

Definition setMonth (t m : Z) : Z :=
  MakeDate (MakeDay (YearFromTime t) m (DateFromTime t)) (TimeWithinDay t).

Definition setFullYear (t y m dt : Z) : Z :=
  MakeDate (MakeDay y m dt) (TimeWithinDay t).

(** [setHours(0, 0, 0, 0)]. *)
Definition setHours0 (t : Z) : Z := MakeDate (Day t) 0.

(** [new Date(year, month, date)]: a year in 0..99 stands for 1900 + year
    (ECMA-262, the Date constructor). *)
Definition fromYMD (year month date : Z) : Z :=
  let yr := if (0 <=? year) && (year <=? 99) then 1900 + year else year in
  MakeDate (MakeDay yr month date) 0.

(** Calendar facts used to state the properties. *)
Definition is_leap (y : Z) : bool :=
  (y mod 4 =? 0) && (negb (y mod 100 =? 0) || (y mod 400 =? 0)).

(** Number of days of month [m] (1..12) of year [y]. *)
Definition days_in_month (y m : Z) : Z :=
  if m =? 2 then (if is_leap y then 29 else 28)
  else if (m =? 4) || (m =? 6) || (m =? 9) || (m =? 11) then 30
  else 31.

(** Time value of midnight (UTC) of a calendar day, [m] in 1..12. *)
Definition utc (y m d : Z) : Z := days_from_civil y m d * msPerDay.

End JSDate.

Import JSDate.

(** ** The data model ([models/Task.ts]) *)

(** A reference to a [Date] object: an index in the heap of dates. *)
Abbreviation loc := nat (only parsing).

(** An [ObjectId]; [toString] on ids is left implicit. *)
Definition ObjectId := nat.

Inductive Priority := low | medium | high.
Inductive Status := todo | in_progress | completed.

Definition Status_eqb (a b : Status) : bool :=
  match a, b with
  | todo, todo | in_progress, in_progress | completed, completed => true
  | _, _ => false
  end.

(** [ITask].  Optional fields are [option]s; [recurringType] is kept as the
    string the [switch] of [calculateNextDueDate] inspects. *)
Record ITask := mkTask {
  _id : ObjectId;
  title : string;
  description : string;
  dueDate : loc;
  priority : Priority;
  status : Status;
  assignedTo : ObjectId;
  createdBy : ObjectId;
  isRecurring : bool;
  recurringType : option string;
  recurringInterval : option Z;
  recurringDays : option (list Z);
  recurringDate : option Z;
  recurringEndDate : option loc;
  parentTaskId : option ObjectId
}.

(** [INotification], as [createNotification] fills it. *)
Record Notification := mkNotification {
  n_id : ObjectId;
  n_user : ObjectId;
  n_message : string;
  n_type : string;
  n_entityId : option ObjectId
}.

Inductive Exn := StorageError | DanglingDate.

(** What the service writes to the console. *)
Inductive LogLine :=
| Log_running
| Log_processed (n : nat)
| Log_created (n : Z)
| Log_error (context : string) (e : Exn).

(** ** The world the service runs in *)

Record World := mkWorld {
  dates : list Z;
  tasks : list ITask;
  notifications : list Notification;
  emitted : list (ObjectId * Notification);
  console : list LogLine;
  faults : list bool;
  next_oid : ObjectId
}.

Definition set_dates (ds : list Z) (w : World) : World :=
  mkWorld ds (tasks w) (notifications w) (emitted w) (console w) (faults w) (next_oid w).
Definition set_tasks (ts : list ITask) (w : World) : World :=
  mkWorld (dates w) ts (notifications w) (emitted w) (console w) (faults w) (next_oid w).
Definition set_notifications (ns : list Notification) (w : World) : World :=
  mkWorld (dates w) (tasks w) ns (emitted w) (console w) (faults w) (next_oid w).
Definition set_emitted (es : list (ObjectId * Notification)) (w : World) : World :=
  mkWorld (dates w) (tasks w) (notifications w) es (console w) (faults w) (next_oid w).
Definition set_console (c : list LogLine) (w : World) : World :=
  mkWorld (dates w) (tasks w) (notifications w) (emitted w) c (faults w) (next_oid w).
Definition set_faults (fs : list bool) (w : World) : World :=
  mkWorld (dates w) (tasks w) (notifications w) (emitted w) (console w) fs (next_oid w).
Definition set_next_oid (n : ObjectId) (w : World) : World :=
  mkWorld (dates w) (tasks w) (notifications w) (emitted w) (console w) (faults w) n.

(** ** A state and exception monad for the asynchronous code

    [await] is sequencing: a single scheduler runs the sweep item by item. *)

Inductive Outcome (A : Type) :=
| Ok (a : A)
| Thrown (e : Exn).
Arguments Ok {A} a.
Arguments Thrown {A} e.

Definition M (A : Type) : Type := World -> Outcome A * World.

Definition ret {A} (a : A) : M A := fun w => (Ok a, w).

Definition bind {A B} (m : M A) (k : A -> M B) : M B :=
  fun w => match m w with
           | (Ok a, w') => k a w'
           | (Thrown e, w') => (Thrown e, w')
           end.

(** [try { m } catch (e) { h e }] *)
Definition try_catch {A} (m : M A) (h : Exn -> M A) : M A :=
  fun w => match m w with
           | (Ok a, w') => (Ok a, w')
           | (Thrown e, w') => h e w'
           end.

Declare Scope js_scope.
Delimit Scope js_scope with js.
Notation "x <- m ;; k" := (bind m (fun x => k))
  (at level 100, m at next level, right associativity) : js_scope.
Notation "m ;; k" := (bind m (fun _ => k))
  (at level 100, right associativity) : js_scope.
Local Open Scope js_scope.

(** [for (const x of l) { s = body x s }] *)
Fixpoint for_of {A S} (l : list A) (body : A -> S -> M S) (s : S) : M S :=
  match l with
  | [] => ret s
  | x :: l' => s' <- body x s ;; for_of l' body s'
  end.

(** *** Primitive effects *)

(** A storage or transport call: the next entry of the fault script says
    whether it throws; an exhausted script means no fault. *)
Definition fault_point : M unit :=
  fun w => let w' := set_faults (tail (faults w)) w in
           if head (faults w) is Some true then (Thrown StorageError, w')
           else (Ok tt, w').

Definition console_log (l : LogLine) : M unit :=
  fun w => (Ok tt, set_console (console w ++ [l]) w).

Definition console_error (context : string) (e : Exn) : M unit :=
  console_log (Log_error context e).

Definition fresh_oid : M ObjectId :=
  fun w => (Ok (next_oid w), set_next_oid (S (next_oid w)) w).

(** *** [Date] objects *)

Definition readDate (r : loc) : M Z :=
  fun w => match dates w !! r with
           | Some v => (Ok v, w)
           | None => (Thrown DanglingDate, w)
           end.

Definition writeDate (r : loc) (v : Z) : M unit :=
  fun w => if (r <? length (dates w))%nat
           then (Ok tt, set_dates (<[r := v]> (dates w)) w)
           else (Thrown DanglingDate, w).

(** [new Date(timeValue)] *)
Definition Date_new (v : Z) : M loc :=
  fun w => (Ok (length (dates w)), set_dates (dates w ++ [v]) w).

(** [new Date(dateObject)] *)
Definition Date_copy (r : loc) : M loc := v <- readDate r ;; Date_new v.

(** [new Date(year, month, date)] *)
Definition Date_ymd (year month date : Z) : M loc := Date_new (fromYMD year month date).

Definition Date_getDate (r : loc) : M Z := v <- readDate r ;; ret (getDate v).
Definition Date_getDay (r : loc) : M Z := v <- readDate r ;; ret (getDay v).
Definition Date_getMonth (r : loc) : M Z := v <- readDate r ;; ret (getMonth v).
Definition Date_getFullYear (r : loc) : M Z := v <- readDate r ;; ret (getFullYear v).

(** The setters update the object in place and return the new time value. *)
Definition Date_setDate (r : loc) (dt : Z) : M Z :=
  v <- readDate r ;; writeDate r (setDate v dt) ;; ret (setDate v dt).
Definition Date_setMonth (r : loc) (m : Z) : M Z :=
  v <- readDate r ;; writeDate r (setMonth v m) ;; ret (setMonth v m).
Definition Date_setFullYear (r : loc) (y m dt : Z) : M Z :=
  v <- readDate r ;; writeDate r (setFullYear v y m dt) ;; ret (setFullYear v y m dt).
Definition Date_setHours0 (r : loc) : M Z :=
  v <- readDate r ;; writeDate r (setHours0 v) ;; ret (setHours0 v).

(** *** The Task collection and the notification channel *)

(** [Task.find(query)] *)
Definition Task_find (query : ITask -> bool) : M (list ITask) :=
  fault_point ;; fun w => (Ok (List.filter query (tasks w)), w).

(** The query [{ parentTaskId: id, dueDate: { $gte: lo, $lt: hi } }]. *)
Definition instance_on_day (ds : list Z) (id : ObjectId) (lo hi : Z) (t : ITask) : bool :=
  match parentTaskId t, ds !! dueDate t with
  | Some p, Some v => (p =? id)%nat && (lo <=? v) && (v <? hi)
  | _, _ => false
  end.

(** [Task.countDocuments({ parentTaskId, dueDate: { $gte, $lt } })] *)
Definition Task_countDocuments (id : ObjectId) (gte lt : loc) : M nat :=
  fault_point ;;
  lo <- readDate gte ;;
  hi <- readDate lt ;;
  fun w => (Ok (length (List.filter (instance_on_day (dates w) id lo hi) (tasks w))), w).

(** [doc.save()] of a new document *)
Definition Task_save (t : ITask) : M unit :=
  fault_point ;; fun w => (Ok tt, set_tasks (tasks w ++ [t]) w).

Definition Notification_save (n : Notification) : M unit :=
  fault_point ;; fun w => (Ok tt, set_notifications (notifications w ++ [n]) w).

(** [io.to(userId).emit('notification', n)] *)
Definition io_emit (userId : ObjectId) (n : Notification) : M unit :=
  fault_point ;; fun w => (Ok tt, set_emitted (emitted w ++ [(userId, n)]) w).

(** ** [index.ts]: createNotification *)

Definition createNotification (userId : ObjectId) (message type : string)
    (entityId : option ObjectId) : M (option Notification) :=
  try_catch
    (oid <- fresh_oid ;;
     let notification := mkNotification oid userId message type entityId in
     Notification_save notification ;;
     io_emit userId notification ;;
     ret (Some notification))
    (fun error =>
       console_error "Error creating notification:" error ;;
       ret None).

(** ** [services/recurringTaskService.ts] *)

(** The value of an optional number when it is truthy: an absent value
    and 0 are falsy. *)
Definition truthy (x : option Z) : option Z :=
  match x with
  | Some n => if n =? 0 then None else Some n
  | None => None
  end.

(** [x || 1] *)
Definition or_1 (x : option Z) : Z := default 1 (truthy x).

(** Calculate the next due date based on recurring settings. *)
Definition calculateNextDueDate (task : ITask) : M loc :=
  currentDueDate <- Date_copy (dueDate task) ;;
  newDueDate <- Date_copy currentDueDate ;;
  match recurringType task with
  | Some ty =>
    if (ty =? "daily")%string then
      d <- Date_getDate currentDueDate ;;
      Date_setDate newDueDate (d + or_1 (recurringInterval task)) ;;
      ret tt
    else if (ty =? "weekly")%string then
      match recurringDays task with
      | Some (firstDay :: otherDays) =>
        currentDayOfWeek <- Date_getDay currentDueDate ;;
        let nextDays :=
          List.filter (fun day => currentDayOfWeek <? day) (firstDay :: otherDays) in
        match nextDays with
        | nextDay :: _ =>
          let daysToAdd := nextDay - currentDayOfWeek in
          d <- Date_getDate currentDueDate ;;
          Date_setDate newDueDate (d + daysToAdd) ;;
          ret tt
        | [] =>
          let daysToAdd := 7 - currentDayOfWeek + firstDay in
          d <- Date_getDate currentDueDate ;;
          Date_setDate newDueDate (d + daysToAdd) ;;
          ret tt
        end
      | _ =>
        d <- Date_getDate currentDueDate ;;
        Date_setDate newDueDate (d + or_1 (recurringInterval task) * 7) ;;
        ret tt
      end
    else if (ty =? "monthly")%string then
      match truthy (recurringDate task) with
      | Some recurringDate_ =>
        m <- Date_getMonth currentDueDate ;;
        let targetMonth := m + 1 in
        y <- Date_getFullYear currentDueDate ;;
        let targetYear := y + (if 11 <? targetMonth then 1 else 0) in
        let normalizedMonth := Z.rem targetMonth 12 in
        Date_setFullYear newDueDate targetYear normalizedMonth 1 ;;
        lastOfMonth <- Date_ymd targetYear (normalizedMonth + 1) 0 ;;
        daysInMonth <- Date_getDate lastOfMonth ;;
        let day := Z.min recurringDate_ daysInMonth in
        Date_setDate newDueDate day ;;
        ret tt
      | None =>
        m <- Date_getMonth currentDueDate ;;
        Date_setMonth newDueDate (m + or_1 (recurringInterval task)) ;;
        ret tt
      end
    else if (ty =? "custom")%string then
      d <- Date_getDate currentDueDate ;;
      Date_setDate newDueDate (d + or_1 (recurringInterval task)) ;;
      ret tt
    else ret tt
  | None => ret tt
  end ;;
  ret newDueDate.

(** [a > b] on two [Date] objects compares their time values. *)
Definition Date_gt (a b : loc) : M bool :=
  x <- readDate a ;; y <- readDate b ;; ret (y <? x).

(** [new Task({...})] in [createRecurringTaskInstance].  The document gets
    a fresh [_id]; the fields the constructor is not given are absent,
    except the array [recurringDays], which a mongoose schema defaults to
    the empty array. *)
Definition new_instance (parentTask : ITask) (oid : ObjectId) (newDueDate : loc) : ITask :=
  {| _id := oid;
     title := title parentTask;
     description := description parentTask;
     dueDate := newDueDate;
     priority := priority parentTask;
     status := todo;
     assignedTo := assignedTo parentTask;
     createdBy := createdBy parentTask;
     isRecurring := false;
     recurringType := None;
     recurringInterval := None;
     recurringDays := Some [];
     recurringDate := None;
     recurringEndDate := None;
     parentTaskId := Some (_id parentTask) |}.

(** Creates a new instance of a recurring task. *)
Definition createRecurringTaskInstance (parentTask : ITask) : M (option ITask) :=
  try_catch
    (newDueDate <- calculateNextDueDate parentTask ;;
     pastEnd <- match recurringEndDate parentTask with
                | Some endDate => Date_gt newDueDate endDate
                | None => ret false
                end ;;
     if (pastEnd : bool) then ret None
     else
       oid <- fresh_oid ;;
       let newTaskInstance := new_instance parentTask oid newDueDate in
       Task_save newTaskInstance ;;
       (if negb (assignedTo newTaskInstance =? createdBy newTaskInstance)%nat then
          createNotification (assignedTo newTaskInstance)
            ("New recurring task: " ++ title newTaskInstance)%string
            "task_assigned"
            (Some (_id newTaskInstance)) ;;
          ret tt
        else ret tt) ;;
       ret (Some newTaskInstance))
    (fun error =>
       console_error "Error creating recurring task instance:" error ;;
       ret None).

(** Process all completed recurring tasks and generate next instances. *)
Definition processCompletedRecurringTasks : M unit :=
  try_catch
    (completedRecurringTasks <-
       Task_find (fun t => isRecurring t && Status_eqb (status t) completed) ;;
     for_of completedRecurringTasks
       (fun task (_ : unit) => createRecurringTaskInstance task ;; ret tt) tt ;;
     console_log (Log_processed (length completedRecurringTasks)))
    (fun error => console_error "Error processing recurring tasks:" error).

(** The body of the loop of [generateUpcomingRecurringTasks]. *)
Definition upcoming_body (task : ITask) (createdCount : Z) : M Z :=
  nextDueDate <- calculateNextDueDate task ;;
  midnight <- Date_setHours0 nextDueDate ;;
  nextDueDateDay <- Date_new midnight ;;
  startOfDay <- Date_copy nextDueDateDay ;;
  endOfDay <- Date_copy nextDueDateDay ;;
  d <- Date_getDate endOfDay ;;
  Date_setDate endOfDay (d + 1) ;;
  existingInstances <- Task_countDocuments (_id task) startOfDay endOfDay ;;
  if (existingInstances =? 0)%nat then
    newInstance <- createRecurringTaskInstance task ;;
    ret (if newInstance is Some _ then createdCount + 1 else createdCount)
  else ret createdCount.

(** Find all tasks that need to be created based on their recurring
    pattern. *)
Definition generateUpcomingRecurringTasks : M unit :=
  try_catch
    (recurringTasks <-
       Task_find (fun t => isRecurring t && negb (bool_decide (is_Some (parentTaskId t)))) ;;
     createdCount <- for_of recurringTasks upcoming_body 0 ;;
     console_log (Log_created createdCount))
    (fun error => console_error "Error generating upcoming recurring tasks:" error).

(** ** [index.ts]: the daily cron job, the generation sweep *)

Definition cron_job : M unit :=
  console_log Log_running ;;
  try_catch
    (processCompletedRecurringTasks ;;
     generateUpcomingRecurringTasks)
    (fun error => console_error "Error in recurring tasks cron job:" error).

(** The state a run leaves, and its result. *)
Definition exec {A} (m : M A) (w : World) : World := snd (m w).
Definition result {A} (m : M A) (w : World) : Outcome A := fst (m w).

(** [Task.findByIdAndUpdate(id, { $set: { status } })], the part of the
    task update route that changes a status. *)
Definition Task_setStatus (id : ObjectId) (s : Status) (w : World) : World :=
  set_tasks
    (map (fun t =>
            if (_id t =? id)%nat
            then mkTask (_id t) (title t) (description t) (dueDate t) (priority t) s
                   (assignedTo t) (createdBy t) (isRecurring t) (recurringType t)
                   (recurringInterval t) (recurringDays t) (recurringDate t)
                   (recurringEndDate t) (parentTaskId t)
            else t)
         (tasks w))
    w.

(** ** The time value [calculateNextDueDate] computes

    The effect of [calculateNextDueDate] on time values: [nextDueTime task t]
    is the time value of the date the function returns when the task is due
    at time value [t] (lemma [calculateNextDueDate_run] below). *)

Definition weekly_on_days (t firstDay : Z) (otherDays : list Z) : Z :=
  let currentDayOfWeek := getDay t in
  match List.filter (fun day => currentDayOfWeek <? day) (firstDay :: otherDays) with
  | nextDay :: _ => setDate t (getDate t + (nextDay - currentDayOfWeek))
  | [] => setDate t (getDate t + (7 - currentDayOfWeek + firstDay))
  end.

Definition monthly_on_day (t recurringDate_ : Z) : Z :=
  let targetMonth := getMonth t + 1 in
  let targetYear := getFullYear t + (if 11 <? targetMonth then 1 else 0) in
  let normalizedMonth := Z.rem targetMonth 12 in
  let daysInMonth := getDate (fromYMD targetYear (normalizedMonth + 1) 0) in
  setDate (setFullYear t targetYear normalizedMonth 1) (Z.min recurringDate_ daysInMonth).

Definition nextDueTime (task : ITask) (t : Z) : Z :=
  match recurringType task with
  | Some ty =>
    if (ty =? "daily")%string then setDate t (getDate t + or_1 (recurringInterval task))
    else if (ty =? "weekly")%string then
      match recurringDays task with
      | Some (firstDay :: otherDays) => weekly_on_days t firstDay otherDays
      | _ => setDate t (getDate t + or_1 (recurringInterval task) * 7)
      end
    else if (ty =? "monthly")%string then
      match truthy (recurringDate task) with
      | Some recurringDate_ => monthly_on_day t recurringDate_
      | None => setMonth t (getMonth t + or_1 (recurringInterval task))
      end
    else if (ty =? "custom")%string then setDate t (getDate t + or_1 (recurringInterval task))
    else t
  | None => t
  end.

(** ** Well-formed worlds and what the engine generates *)

(** The time value of the due date of a task. *)
Definition due_time (w : World) (task : ITask) : option Z := dates w !! dueDate task.

(** The dates a task refers to exist. *)
Definition wf_task (ds : list Z) (task : ITask) : Prop :=
  is_Some (ds !! dueDate task)
  /\ forall e, recurringEndDate task = Some e -> is_Some (ds !! e).

Definition wf_world (w : World) : Prop :=
  Forall (wf_task (dates w)) (tasks w).

(** The time value of the end date of a task, when it has one. *)
Definition end_time (ds : list Z) (task : ITask) : option Z :=
  match recurringEndDate task with
  | Some e => ds !! e
  | None => None
  end.

(** [inst] is an instance generated from [parent]: the document
    [createRecurringTaskInstance] builds, due at the next due date of the
    parent, which does not lie after the end date of the parent. *)
Definition generated_from (ds : list Z) (parent inst : ITask) : Prop :=
  (exists oid, inst = new_instance parent oid (dueDate inst))
  /\ exists t,
       ds !! dueDate parent = Some t
       /\ ds !! dueDate inst = Some (nextDueTime parent t)
       /\ forall ev, end_time ds parent = Some ev -> nextDueTime parent t <= ev.

(** [w] comes from [w0] by generation only: the dates and the tasks of [w0]
    are still there, unchanged, and every further task is an instance
    generated from a task of [w0]. *)
Definition grows (w0 w : World) : Prop :=
  dates w0 `prefix_of` dates w
  /\ exists ts,
       tasks w = tasks w0 ++ ts
       /\ Forall (fun inst => exists parent,
                    In parent (tasks w0) /\ generated_from (dates w) parent inst) ts.

(** What a generation step may do to the world [w]: the tasks of [w] are
    all still there, as they were, in front of what was added, and every
    date of [w] still holds its time value. *)
Definition preserves (w w' : World) : Prop :=
  (exists ts, tasks w' = tasks w ++ ts)
  /\ forall r v, dates w !! r = Some v -> dates w' !! r = Some v.

(** The tasks a step added to [w] are instances of tasks of [w], none due
    after the end date of its parent. *)
Definition within_end_dates (w w' : World) : Prop :=
  exists ts,
    tasks w' = tasks w ++ ts
    /\ Forall (fun inst => exists parent v,
                 In parent (tasks w)
                 /\ parentTaskId inst = Some (_id parent)
                 /\ dates w' !! dueDate inst = Some v
                 /\ forall ev, end_time (dates w) parent = Some ev -> v <= ev) ts.

(** The number of instances the upcoming-root pass counts for a task due
    at [t]: those of the task due on the calendar day of its next due
    date. *)
Definition existing_instances (ds : list Z) (ts : list ITask) (task : ITask) (t : Z) : nat :=
  let lo := setHours0 (nextDueTime task t) in
  length (List.filter (instance_on_day ds (_id task) lo (lo + 1 * msPerDay)) ts).

(** The next due date of a task due at [t] lies after its end date. *)
Definition past_end (ds : list Z) (task : ITask) (t : Z) : bool :=
  match end_time ds task with
  | Some ev => ev <? nextDueTime task t
  | None => false
  end.

(** The next occurrence of a task needs no instance any more: it has one,
    or it lies after the end date. *)
Definition covered (w : World) (task : ITask) : Prop :=
  exists t,
    due_time w task = Some t
    /\ (existing_instances (dates w) (tasks w) task t <> 0%nat
        \/ past_end (dates w) task t = true).

(** The task with another interval. *)
Definition with_interval (i : option Z) (task : ITask) : ITask :=
  mkTask (_id task) (title task) (description task) (dueDate task) (priority task)
    (status task) (assignedTo task) (createdBy task) (isRecurring task)
    (recurringType task) i (recurringDays task) (recurringDate task)
    (recurringEndDate task) (parentTaskId task).

(** The instances of the task [id] due on the calendar day [day] (a day
    number). *)
Definition instances_on (w : World) (id : ObjectId) (day : Z) : list ITask :=
  List.filter
    (fun t => match parentTaskId t, dates w !! dueDate t with
              | Some p, Some v => (p =? id)%nat && (Day v =? day)
              | _, _ => false
              end)
    (tasks w).

(** ** Sample tasks and worlds *)

(** A recurring root task, assigned by user 8 to user 7. *)
Definition root_task (id : ObjectId) (due : loc) (st : Status) (ty : string)
    (interval : option Z) (days : option (list Z)) (dayOfMonth : option Z)
    (endDate : option loc) : ITask :=
  mkTask id "Review the backlog" "Go through the open items" due medium st 7%nat 8%nat
    true (Some ty) interval days dayOfMonth endDate None.

(** The root of the end-to-end scenario: weekly on Mondays and Thursdays,
    due on Monday 2024-01-01. *)
Definition weekly_root : ITask :=
  root_task 0%nat 0%nat todo "weekly" None (Some [1; 4]) None None.

Definition weekly_world : World :=
  mkWorld [utc 2024 1 1] [weekly_root] [] [] [] [] 1%nat.

(** A daily root that is completed, due on 2024-01-01. *)
Definition completed_root : ITask :=
  root_task 0%nat 0%nat completed "daily" (Some 1) (Some []) None None.

Definition completed_world : World :=
  mkWorld [utc 2024 1 1] [completed_root] [] [] [] [] 1%nat.

(** A weekly root whose days are not listed in ascending order. *)
Definition unsorted_root : ITask :=
  root_task 0%nat 0%nat todo "weekly" None (Some [5; 3; 1]) None None.

(** A monthly root on the 31st. *)
Definition monthly_root : ITask :=
  root_task 0%nat 0%nat todo "monthly" None (Some []) (Some 31) None.

(** A daily root with the interval [-3]. *)
Definition backwards_root : ITask :=
  root_task 0%nat 0%nat todo "daily" (Some (-3)) (Some []) None None.

(** A daily root due on 2024-01-01 that ends on 2024-01-01. *)
Definition ended_root : ITask :=
  root_task 0%nat 0%nat todo "daily" None (Some []) None (Some 1%nat).

Definition ended_world : World :=
  mkWorld [utc 2024 1 1; utc 2024 1 1] [ended_root] [] [] [] [] 1%nat.

(** A task whose recurrence type is none of the four the service knows. *)
Definition yearly_root : ITask :=
  root_task 0%nat 0%nat todo "yearly" (Some 2) (Some [1]) (Some 5) None.

(** Two daily roots, and a storage that fails on its second call. *)
Definition two_roots_world (fs : list bool) : World :=
  mkWorld [utc 2024 1 1; utc 2024 2 1]
    [root_task 0%nat 0%nat todo "daily" None (Some []) None None;
     root_task 1%nat 1%nat todo "daily" None (Some []) None None]
    [] [] [] fs 2%nat.

(** ** Bounded search, used to check the calendar on one 400-year era *)

Fixpoint all_from (n : nat) (z : Z) (p : Z -> bool) : bool :=
  match n with
  | O => true
  | S n' => p z && all_from n' (z + 1) p
  end.

(** A day of era decodes to a date of the March-based year that encodes
    back to it. *)
Definition doe_ok (doe : Z) : bool :=
  let yoe := (doe - doe / 1460 + doe / 36524 - doe / 146096) / 365 in
  let doy := doe - (365 * yoe + yoe / 4 - yoe / 100) in
  let mp := (5 * doy + 2) / 153 in
  let d := doy - (153 * mp + 2) / 5 + 1 in
  let m := if mp <? 10 then mp + 3 else mp - 9 in
  (0 <=? yoe) && (yoe <? 400) && (1 <=? m) && (m <=? 12) && (1 <=? d)
  && (d <=? days_in_month (if m <=? 2 then yoe + 1 else yoe) m)
  && (yoe * 365 + yoe / 4 - yoe / 100
      + ((153 * (if 2 <? m then m - 3 else m + 9) + 2) / 5 + d - 1) =? doe).

(** A date of the March-based year [yoe] of an era encodes to a day of the
    era that decodes back to it. *)
Definition ymd_ok (yoe m d : Z) : bool :=
  let mp := if 2 <? m then m - 3 else m + 9 in
  let doe := yoe * 365 + yoe / 4 - yoe / 100 + ((153 * mp + 2) / 5 + d - 1) in
  let yoe2 := (doe - doe / 1460 + doe / 36524 - doe / 146096) / 365 in
  let doy2 := doe - (365 * yoe2 + yoe2 / 4 - yoe2 / 100) in
  let mp2 := (5 * doy2 + 2) / 153 in
  let d2 := doy2 - (153 * mp2 + 2) / 5 + 1 in
  let m2 := if mp2 <? 10 then mp2 + 3 else mp2 - 9 in
  (days_in_month (if m <=? 2 then yoe + 1 else yoe) m <? d)
  || ((0 <=? doe) && (doe <? 146097) && (yoe2 =? yoe) && (m2 =? m) && (d2 =? d)).

(** ** What the engine computes, as seen from outside *)

(** The time value of the date [calculateNextDueDate task] returns in the
    world [w]. *)
Definition next_due (w : World) (task : ITask) : option Z :=
  match calculateNextDueDate task w with
  | (Ok r, w') => dates w' !! r
  | (Thrown _, _) => None
  end.

(** The next occurrence of a task does not lie after its end date. *)
Definition has_next (w : World) (task : ITask) : bool :=
  match due_time w task with
  | Some t => negb (past_end (dates w) task t)
  | None => false
  end.

(** The world after [n] runs of the cron job. *)
Fixpoint sweeps (n : nat) (w : World) : World :=
  match n with
  | O => w
  | S n' => sweeps n' (exec cron_job w)
  end.

(** ** Where the model is exact

    A [Date] holds a time value of at most 8.64e15 ms in absolute value
    (ECMA-262, [TimeClip]); a setter or a constructor that computes a time
    value beyond makes the date an Invalid Date, which the dates of the
    model do not include.  The model agrees with the code on the
    computations that stay in the range: [in_range task t] says so of
    [calculateNextDueDate] for a task due at [t], by the time values its
    setters and its constructor compute. *)

Definition maxTime : Z := 8640000000000000.

Definition TimeClip (t : Z) : option Z :=
  if Z.abs t <=? maxTime then Some t else None.

Definition valid_time (t : Z) : bool :=
  if TimeClip t is Some _ then true else false.

(** The time values [calculateNextDueDate] computes: the one it returns
    and, under the monthly rule with a day of the month, the one
    [setFullYear] leaves and the one of [new Date(year, month + 1, 0)]. *)
Definition computed_times (task : ITask) (t : Z) : list Z :=
  nextDueTime task t
  :: match recurringType task, truthy (recurringDate task) with
     | Some ty, Some _ =>
       if (ty =? "monthly")%string then
         let targetMonth := getMonth t + 1 in
         let targetYear := getFullYear t + (if 11 <? targetMonth then 1 else 0) in
         let normalizedMonth := Z.rem targetMonth 12 in
         [setFullYear t targetYear normalizedMonth 1;
          fromYMD targetYear (normalizedMonth + 1) 0]
       else []
     | _, _ => []
     end.

Definition in_range (task : ITask) (t : Z) : bool :=
  valid_time t && forallb valid_time (computed_times task t).

(** [save()] validates a new document by the schema ([models/Task.ts]),
    which the storage of the model does not: the title, trimmed, and the
    description are required, and the due date is a valid date.  The
    instance of [parent] has its title and its description; it passes,
    with the title of the parent, when that title is trimmed and neither
    string is empty.  [trim] is what the schema makes of a title.  The
    priority, the status and the users of an instance are of the types of
    the schema in the model. *)
Definition instance_valid (trim : string -> string) (parent : ITask) : bool :=
  (trim (title parent) =? title parent)%string
  && negb (title parent =? "")%string
  && negb (description parent =? "")%string.

(** A daily root with an interval that passes the validators and leaves
    the range of time values. *)
Definition distant_root : ITask :=
  root_task 0%nat 0%nat todo "daily" (Some 200000000) (Some []) None None.

(** A monthly root without a day of the month, due on 2024-01-31. *)
Definition monthly_interval_root : ITask :=
  root_task 0%nat 0%nat todo "monthly" None (Some []) None None.

Definition january_31_world : World :=
  mkWorld [utc 2024 1 31] [monthly_interval_root] [] [] [] [] 1%nat.

(** * The code around the engine *)

(** ** Users ([models/User.ts]) *)

Module User.

(** Modelled from the spec: the User model ([models/User.ts]) is not among
    the sources; the record has the fields the middleware and the routes
    read and write.  An absent [role] is the empty string, which is falsy
    as well. *)
Record IUser := mkUser {
  _id : ObjectId;
  name : string;
  email : string;
  role : string;
  points : Z;
  achievements : list string
}.

End User.

(** ** [middleware/rbac.ts] *)

Module Rbac.

Import User.

(** The strings of the type [Permission]. *)
Definition Permission := string.

Definition all_permissions : list Permission :=
  [ "tasks:create"; "tasks:read"; "tasks:update"; "tasks:delete"; "tasks:assign";
    "tasks:read-all"; "tasks:update-all"; "tasks:delete-all";
    "users:read"; "users:update"; "users:create"; "users:delete"; "users:manage-roles";
    "reports:view"; "reports:export";
    "system:settings" ]%string.

Definition admin : list Permission :=
  [ "tasks:create"; "tasks:read"; "tasks:update"; "tasks:delete"; "tasks:assign";
    "tasks:read-all"; "tasks:update-all"; "tasks:delete-all";
    "users:read"; "users:update"; "users:create"; "users:delete"; "users:manage-roles";
    "reports:view"; "reports:export";
    "system:settings" ]%string.

Definition manager : list Permission :=
  [ "tasks:create"; "tasks:read"; "tasks:update"; "tasks:delete"; "tasks:assign";
    "tasks:read-all"; "tasks:update-all"; "tasks:delete-all";
    "users:read";
    "reports:view"; "reports:export" ]%string.

Definition user : list Permission :=
  [ "tasks:create"; "tasks:read"; "tasks:update"; "tasks:delete"; "tasks:assign" ]%string.

(** What [object[key]] finds on an object literal: a property of its own,
    a member inherited from [Object.prototype], or nothing. *)
Inductive Property (A : Type) :=
| Own (a : A)
| Inherited
| Undefined.
Arguments Own {A} a.
Arguments Inherited {A}.
Arguments Undefined {A}.

(** The members of [Object.prototype]. *)
Definition Object_prototype : list string :=
  [ "constructor"; "hasOwnProperty"; "isPrototypeOf"; "propertyIsEnumerable";
    "toLocaleString"; "toString"; "valueOf"; "__proto__";
    "__defineGetter__"; "__defineSetter__"; "__lookupGetter__"; "__lookupSetter__" ]%string.

(** [array.includes(s)] on strings *)
Definition includes (l : list string) (s : string) : bool := existsb (String.eqb s) l.

(** [rolePermissions[role]] *)
Definition rolePermissions (role : string) : Property (list Permission) :=
  if (role =? "admin")%string then Own admin
  else if (role =? "manager")%string then Own manager
  else if (role =? "user")%string then Own user
  else if includes Object_prototype role then Inherited
  else Undefined.

(** Check if user has permission.  An inherited member has no [includes]
    method: calling it throws a TypeError, the result [None]. *)
Definition hasPermission (user : option IUser) (permission : Permission) : option bool :=
  match user with
  | None => Some false
  | Some u =>
    if (role u =? "")%string then Some false
    else match rolePermissions (role u) with
         | Own permissions => Some (includes permissions permission)
         | Inherited => None
         | Undefined => Some false
         end
  end.

(** What a middleware does with a request: it calls [next()], answers with
    a status and a message, or throws. *)
Inductive Handled :=
| next
| respond (status : nat) (message : string)
| throws.

(** [array.some(f)] and [array.every(f)] for a test that may throw. *)
Fixpoint some {A} (f : A -> option bool) (l : list A) : option bool :=
  match l with
  | [] => Some false
  | x :: l' =>
    match f x with
    | None => None
    | Some true => Some true
    | Some false => some f l'
    end
  end.

Fixpoint every {A} (f : A -> option bool) (l : list A) : option bool :=
  match l with
  | [] => Some true
  | x :: l' =>
    match f x with
    | None => None
    | Some false => Some false
    | Some true => every f l'
    end
  end.

Definition forbidden : Handled :=
  respond 403 "You do not have permission to perform this action".

(** The end of the three middlewares: [if (!allowed) return 403; next()]. *)
Definition allow (allowed : option bool) : Handled :=
  match allowed with
  | None => throws
  | Some false => forbidden
  | Some true => next
  end.

(** Middleware to check for specific permissions *)
Definition requirePermission (permission : Permission) (req_user : option IUser) : Handled :=
  match req_user with
  | None => respond 401 "Authentication required"
  | Some _ => allow (hasPermission req_user permission)
  end.

(** Middleware to check for multiple permissions (ANY of them) *)
Definition requireAnyPermission (permissions : list Permission) (req_user : option IUser)
    : Handled :=
  match req_user with
  | None => respond 401 "Authentication required"
  | Some _ => allow (some (hasPermission req_user) permissions)
  end.

(** Middleware to check for multiple permissions (ALL of them) *)
Definition requireAllPermissions (permissions : list Permission) (req_user : option IUser)
    : Handled :=
  match req_user with
  | None => respond 401 "Authentication required"
  | Some _ => allow (every (hasPermission req_user) permissions)
  end.

End Rbac.

(** ** [middleware/auth.ts]: the authorization middlewares *)

Module Auth.

Import User Rbac.

(** Legacy authorization middleware *)
Definition authorizeRoles (roles : list string) (req_user : option IUser) : Handled :=
  match req_user with
  | None => respond 401 "Authentication required"
  | Some u => if includes roles (role u) then next else forbidden
  end.

(** Permission-based authorization *)
Definition checkPermission (permission : Permission) (req_user : option IUser) : Handled :=
  match req_user with
  | None => respond 401 "Authentication required"
  | Some _ => allow (hasPermission req_user permission)
  end.

(** Check owner or admin/manager.  [resourceOwnerId] is what
    [getResourceOwnerId(req)] returned. *)
Definition isResourceOwnerOrHasPermission (resourceOwnerId : option ObjectId)
    (permission : Permission) (req_user : option IUser) : Handled :=
  match req_user with
  | None => respond 401 "Authentication required"
  | Some u =>
    if match resourceOwnerId with
       | Some owner => (owner =? _id u)%nat
       | None => false
       end
    then next
    else match hasPermission req_user permission with
         | None => throws
         | Some true => next
         | Some false => forbidden
         end
  end.

End Auth.

(** ** [frontend/src/lib/permissions.ts] *)

Module Permissions.

Import Rbac.

(** The table of the frontend, written out again in that file. *)
Definition rolePermissions (role : string) : Property (list Permission) :=
  if (role =? "admin")%string then
    Own [ "tasks:create"; "tasks:read"; "tasks:update"; "tasks:delete"; "tasks:assign";
          "tasks:read-all"; "tasks:update-all"; "tasks:delete-all";
          "users:read"; "users:update"; "users:create"; "users:delete";
          "users:manage-roles";
          "reports:view"; "reports:export";
          "system:settings" ]%string
  else if (role =? "manager")%string then
    Own [ "tasks:create"; "tasks:read"; "tasks:update"; "tasks:delete"; "tasks:assign";
          "tasks:read-all"; "tasks:update-all"; "tasks:delete-all";
          "users:read";
          "reports:view"; "reports:export" ]%string
  else if (role =? "user")%string then
    Own [ "tasks:create"; "tasks:read"; "tasks:update"; "tasks:delete";
          "tasks:assign" ]%string
  else if includes Object_prototype role then Inherited
  else Undefined.

(** Check if user has permission; [role] is what [getUserRole()] returned. *)
Definition hasPermission (role : option string) (permission : Permission) : option bool :=
  match role with
  | None => Some false
  | Some r =>
    if (r =? "")%string then Some false
    else match rolePermissions r with
         | Own permissions => Some (includes permissions permission)
         | Inherited => None
         | Undefined => Some false
         end
  end.

Definition hasAnyPermission (role : option string) (permissions : list Permission)
    : option bool :=
  some (hasPermission role) permissions.

Definition hasAllPermissions (role : option string) (permissions : list Permission)
    : option bool :=
  every (hasPermission role) permissions.

Definition isAdmin (role : option string) : bool :=
  if role is Some r then (r =? "admin")%string else false.
Definition isManager (role : option string) : bool :=
  if role is Some r then (r =? "manager")%string else false.
Definition isUser (role : option string) : bool :=
  if role is Some r then (r =? "user")%string else false.

End Permissions.

(** ** The notification store of the frontend *)

Module NotificationStore.

(** [types/notification.ts] *)
Record Notification := mkNotification {
  _id : string;
  user : string;
  message : string;
  type : string;
  read : bool;
  taskId : option string;
  createdAt : string
}.

Record NotificationState := mkState {
  notifications : list Notification;
  unreadCount : nat
}.

Definition initial : NotificationState := mkState [] 0.

Definition addNotification (notification : Notification) (state : NotificationState)
    : NotificationState :=
  (* Check if notification already exists *)
  let exists_ :=
    existsb (fun n => (_id n =? _id notification)%string) (notifications state) in
  if exists_ then state
  else
    let newNotifications := notification :: notifications state in
    let unreadCount := length (List.filter (fun n => negb (read n)) newNotifications) in
    mkState newNotifications unreadCount.

(** [{ ...notification, read: true }] *)
Definition with_read (notification : Notification) : Notification :=
  mkNotification (_id notification) (user notification) (message notification)
    (type notification) true (taskId notification) (createdAt notification).

Definition markAsRead (notificationId : string) (state : NotificationState)
    : NotificationState :=
  let updatedNotifications :=
    map (fun notification =>
           if (_id notification =? notificationId)%string
           then with_read notification
           else notification)
        (notifications state) in
  let unreadCount := length (List.filter (fun n => negb (read n)) updatedNotifications) in
  mkState updatedNotifications unreadCount.

Definition markAllAsRead (state : NotificationState) : NotificationState :=
  mkState (map with_read (notifications state)) 0.

Definition clearNotifications (state : NotificationState) : NotificationState :=
  mkState [] 0.

(** The calls a component can make, and a sequence of them. *)
Inductive Action :=
| Add (notification : Notification)
| MarkAsRead (notificationId : string)
| MarkAllAsRead
| Clear.

Definition dispatch (state : NotificationState) (a : Action) : NotificationState :=
  match a with
  | Add notification => addNotification notification state
  | MarkAsRead notificationId => markAsRead notificationId state
  | MarkAllAsRead => markAllAsRead state
  | Clear => clearNotifications state
  end.

Definition run (actions : list Action) (state : NotificationState) : NotificationState :=
  fold_left dispatch actions state.

(** The number of unread notifications of a list. *)
Definition unread (l : list Notification) : nat :=
  length (List.filter (fun n => negb (read n)) l).

End NotificationStore.

(** ** The route guard of the frontend: [middleware] *)

Module NextMiddleware.

Inductive NextResponse :=
| redirect (path : string)
| next.

(** The cookies of a request, as the cookie jar of the request holds them
    after parsing: name and value. *)
Definition Cookies := list (string * string).

(** [cookies.get(name)?.value] *)
Definition cookies_get (name : string) (cookies : Cookies) : option string :=
  match List.find (fun c => (fst c =? name)%string) cookies with
  | Some c => Some (snd c)
  | None => None
  end.

(** A string is truthy when it is not empty. *)
Definition nonempty (s : string) : bool := negb (s =? "")%string.

Definition middleware (path : string) (cookies : Cookies) : NextResponse :=
  let isProtectedRoute := String.prefix "/dashboard" path in
  let isAuthRoute := String.prefix "/auth" path in
  let hasPrefixedToken :=
    existsb (fun cookie => String.prefix "token_session_" (fst cookie) && nonempty (snd cookie))
      cookies in
  let legacyToken := cookies_get "token" cookies in
  let isAuthenticated :=
    hasPrefixedToken || (if legacyToken is Some v then nonempty v else false) in
  if isProtectedRoute && negb isAuthenticated then redirect "/auth/login"
  else if isAuthRoute && negb (path =? "/auth/login")%string
          && negb (path =? "/auth/register")%string && isAuthenticated
  then redirect "/dashboard"
  else next.

End NextMiddleware.

(** ** Request handlers

    A handler runs on a store it may change; every call of the database
    may throw.  The monad is the one of the engine, over any store. *)

Module Http.

Definition St (S A : Type) : Type := S -> Outcome A * S.

Definition ret {S A} (a : A) : St S A := fun s => (Ok a, s).

Definition bind {S A B} (m : St S A) (k : A -> St S B) : St S B :=
  fun s => match m s with
           | (Ok a, s') => k a s'
           | (Thrown e, s') => (Thrown e, s')
           end.

(** [try { m } catch (e) { h e }] *)
Definition try_catch {S A} (m : St S A) (h : Exn -> St S A) : St S A :=
  fun s => match m s with
           | (Ok a, s') => (Ok a, s')
           | (Thrown e, s') => h e s'
           end.

(** What a handler answers: [res.status(code).json({ message, ...data })];
    the status is 200 when the handler does not set it. *)
Record Response (A : Type) := mkResponse {
  code : nat;
  message : option string;
  data : option A
}.
Arguments mkResponse {A} code message data.
Arguments code {A} r.
Arguments message {A} r.
Arguments data {A} r.

(** [res.status(code).json({ message })] *)
Definition error {A} (code : nat) (message : string) : Response A :=
  mkResponse code (Some message) None.

End Http.

Declare Scope http_scope.
Delimit Scope http_scope with http.
Notation "x <- m ;; k" := (Http.bind m (fun x => k))
  (at level 100, m at next level, right associativity) : http_scope.
Notation "m ;; k" := (Http.bind m (fun _ => k))
  (at level 100, right associativity) : http_scope.

(** ** [routes/notifications.ts] *)

Module NotificationRoutes.

Import Http User.
Local Open Scope http_scope.

(** A stored notification ([models/Notification.ts]): the fields
    [createNotification] sets and the flag [read], false by default.  The
    time stamps, which only the order of the list route reads, are left
    out. *)
Record INotification := mkDoc {
  notification : Notification;
  read : bool
}.

(** The collection, the fault script of the database and the console. *)
Record Inbox := mkInbox {
  docs : list INotification;
  faults : list bool;
  console : list LogLine
}.

Definition fault_point : St Inbox unit :=
  fun s => let s' := mkInbox (docs s) (tail (faults s)) (console s) in
           if head (faults s) is Some true then (Thrown StorageError, s')
           else (Ok tt, s').

Definition console_error (context : string) (e : Exn) : St Inbox unit :=
  fun s => (Ok tt, mkInbox (docs s) (faults s) (console s ++ [Log_error context e])).

(** [Notification.findById(id)] *)
Definition Notification_findById (id : ObjectId) : St Inbox (option INotification) :=
  fault_point ;;
  fun s => (Ok (List.find (fun d => (n_id (notification d) =? id)%nat) (docs s)), s).

(** [doc.save()] of a document that was found: an update of the stored
    document with its id. *)
Fixpoint replace_first (doc : INotification) (l : list INotification) : list INotification :=
  match l with
  | [] => []
  | d :: l' =>
    if (n_id (notification d) =? n_id (notification doc))%nat then doc :: l'
    else d :: replace_first doc l'
  end.

Definition Notification_save (doc : INotification) : St Inbox unit :=
  fault_point ;;
  fun s => (Ok tt, mkInbox (replace_first doc (docs s)) (faults s) (console s)).

(** [doc.deleteOne()] *)
Fixpoint remove_first (id : ObjectId) (l : list INotification) : list INotification :=
  match l with
  | [] => []
  | d :: l' => if (n_id (notification d) =? id)%nat then l' else d :: remove_first id l'
  end.

Definition Notification_deleteOne (doc : INotification) : St Inbox unit :=
  fault_point ;;
  fun s => (Ok tt,
            mkInbox (remove_first (n_id (notification doc)) (docs s)) (faults s) (console s)).

(** The filter [{ user, read: false }]. *)
Definition unread_of (user : ObjectId) (d : INotification) : bool :=
  (n_user (notification d) =? user)%nat && negb (read d).

(** [Notification.updateMany({ user, read: false }, { $set: { read: true } })] *)
Definition Notification_markAll (user : ObjectId) : St Inbox unit :=
  fault_point ;;
  fun s => (Ok tt,
            mkInbox (map (fun d => if unread_of user d then mkDoc (notification d) true else d)
                       (docs s))
              (faults s) (console s)).

(** [Notification.countDocuments({ user, read: false })] *)
Definition Notification_countUnread (user : ObjectId) : St Inbox nat :=
  fault_point ;;
  fun s => (Ok (length (List.filter (unread_of user) (docs s))), s).

(** The owner test of the two routes on one notification:
    [notification.user.toString() !== req.user?._id.toString()]. *)
Definition not_owner (doc : INotification) (req_user : option IUser) : bool :=
  match req_user with
  | Some u => negb (n_user (notification doc) =? _id u)%nat
  | None => true
  end.

(** Mark notification as read: [PUT /:id/read].  The parameter [id] is
    [None] when it is not a valid ObjectId. *)
Definition mark_read (id : option ObjectId) (req_user : option IUser)
    : St Inbox (Response INotification) :=
  try_catch
    (match id with
     | None => ret (error 400 "Invalid notification ID format")
     | Some id =>
       found <- Notification_findById id ;;
       match found with
       | None => ret (error 404 "Notification not found")
       | Some doc =>
         if not_owner doc req_user
         then ret (error 403 "Not authorized to update this notification")
         else
           let doc := mkDoc (notification doc) true in
           Notification_save doc ;;
           ret (mkResponse 200 (Some "Notification marked as read"%string) (Some doc))
       end
     end)
    (fun e =>
       console_error "Mark notification read error:" e ;;
       ret (error 500 "Server error")).

(** Mark all notifications as read: [PUT /read-all]. *)
Definition mark_all_read (req_user : option IUser) : St Inbox (Response unit) :=
  try_catch
    (match req_user with
     | None => ret (error 401 "Authentication required")
     | Some u =>
       Notification_markAll (_id u) ;;
       ret (mkResponse 200 (Some "All notifications marked as read"%string) None)
     end)
    (fun e =>
       console_error "Mark all notifications read error:" e ;;
       ret (error 500 "Server error")).

(** Get unread notification count: [GET /unread-count]. *)
Definition unread_count (req_user : option IUser) : St Inbox (Response nat) :=
  try_catch
    (match req_user with
     | None => ret (error 401 "Authentication required")
     | Some u =>
       count <- Notification_countUnread (_id u) ;;
       ret (mkResponse 200 None (Some count))
     end)
    (fun e =>
       console_error "Get unread notification count error:" e ;;
       ret (error 500 "Server error")).

(** Delete a notification: [DELETE /:id]. *)
Definition delete (id : option ObjectId) (req_user : option IUser)
    : St Inbox (Response unit) :=
  try_catch
    (match id with
     | None => ret (error 400 "Invalid notification ID format")
     | Some id =>
       found <- Notification_findById id ;;
       match found with
       | None => ret (error 404 "Notification not found")
       | Some doc =>
         if not_owner doc req_user
         then ret (error 403 "Not authorized to delete this notification")
         else
           Notification_deleteOne doc ;;
           ret (mkResponse 200 (Some "Notification deleted"%string) None)
       end
     end)
    (fun e =>
       console_error "Delete notification error:" e ;;
       ret (error 500 "Server error")).

(** The requests of a client, and a session of them. *)
Inductive Request :=
| MarkRead (id : option ObjectId)
| MarkAllRead
| UnreadCount
| Delete (id : option ObjectId).

Definition handle (req_user : option IUser) (r : Request) (s : Inbox) : Inbox :=
  match r with
  | MarkRead id => snd (mark_read id req_user s)
  | MarkAllRead => snd (mark_all_read req_user s)
  | UnreadCount => snd (unread_count req_user s)
  | Delete id => snd (delete id req_user s)
  end.

(** The notifications of the other users. *)
Definition of_others (user : ObjectId) (l : list INotification) : list INotification :=
  List.filter (fun d => negb (n_user (notification d) =? user)%nat) l.

End NotificationRoutes.

(** ** [routes/tasks.ts]: the storage calls of the task routes *)

(** [Task.findById(id)] *)
Definition Task_findById (id : ObjectId) : M (option ITask) :=
  fault_point ;;
  fun w => (Ok (List.find (fun t => (_id t =? id)%nat) (tasks w)), w).

(** A task is an instance of the task [parent]. *)
Definition is_child (parent : ObjectId) (t : ITask) : bool :=
  match parentTaskId t with
  | Some p => (p =? parent)%nat
  | None => false
  end.

(** [Task.deleteMany({ parentTaskId: parent })] *)
Definition Task_deleteMany (parent : ObjectId) : M unit :=
  fault_point ;;
  fun w => (Ok tt, set_tasks (List.filter (fun t => negb (is_child parent t)) (tasks w)) w).

(** [task.deleteOne()] deletes the stored document with the id of the
    task. *)
Fixpoint delete_first (id : ObjectId) (l : list ITask) : list ITask :=
  match l with
  | [] => []
  | t :: l' => if (_id t =? id)%nat then l' else t :: delete_first id l'
  end.

Definition Task_deleteOne (task : ITask) : M unit :=
  fault_point ;;
  fun w => (Ok tt, set_tasks (delete_first (_id task) (tasks w)) w).

(** [Task.countDocuments({ assignedTo, status: 'completed' })] *)
Definition Task_countCompleted (assignee : ObjectId) : M nat :=
  fault_point ;;
  fun w => (Ok (length (List.filter
                          (fun t => (assignedTo t =? assignee)%nat
                                    && Status_eqb (status t) completed)
                          (tasks w))), w).

(** A value the validator [isBoolean()] lets through.  The validator is
    not strict: it reads the value as a string and accepts "true",
    "false", "1" and "0", so that of the JSON scalars, besides the two
    booleans, the numbers 1 and 0 and these four strings pass. *)
Inductive BooleanInput :=
| boolean (b : bool)
| number_1
| number_0
| string_true
| string_false
| string_1
| string_0.

(** The value in a condition, [if (x)]: a string that is not empty is
    truthy, whatever it says. *)
Definition truthy_input (x : BooleanInput) : bool :=
  match x with
  | boolean b => b
  | number_0 => false
  | number_1 | string_true | string_false | string_1 | string_0 => true
  end.

(** The boolean the schema casts the value to. *)
Definition to_boolean (x : BooleanInput) : bool :=
  match x with
  | boolean b => b
  | number_1 | string_true | string_1 => true
  | number_0 | string_false | string_0 => false
  end.

(** The body of a request to create or to update a task, after the
    validators: the fields the routes read, each absent or of its JSON
    type; the flag isRecurring is any value the validator accepts.  A
    date is the time value of the ISO 8601 string.  The user is the
    ObjectId the string assignedTo denotes, a string in the form
    [toString()] gives of an ObjectId; other strings are not among the
    bodies of the model. *)
Record TaskBody := mkBody {
  b_title : option string;
  b_description : option string;
  b_dueDate : option Z;
  b_priority : option Priority;
  b_status : option Status;
  b_assignedTo : option ObjectId;
  b_isRecurring : option BooleanInput;
  b_recurringType : option string;
  b_recurringInterval : option Z;
  b_recurringDays : option (list Z);
  b_recurringDate : option Z;
  b_recurringEndDate : option Z
}.

(** [x ?? y] for a field of the body that replaces a field of a task. *)
Definition or_else {A} (x : option A) (y : A) : A := default y x.
Definition or_keep {A} (x : option A) (y : option A) : option A :=
  match x with
  | Some a => Some a
  | None => y
  end.

(** The document after [{ $set: body }]: a field of the body replaces the
    field of the task; a date of the body is a new [Date] object, and a
    title is what the schema makes of it ([trim]). *)
Definition Task_set (trim : string -> string) (body : TaskBody) (task : ITask) : M ITask :=
  due <- match b_dueDate body with
         | Some v => Date_new v
         | None => ret (dueDate task)
         end ;;
  endDate <- match b_recurringEndDate body with
             | Some v => r <- Date_new v ;; ret (Some r)
             | None => ret (recurringEndDate task)
             end ;;
  ret (mkTask (_id task)
         (or_else (option_map trim (b_title body)) (title task))
         (or_else (b_description body) (description task))
         due
         (or_else (b_priority body) (priority task))
         (or_else (b_status body) (status task))
         (or_else (b_assignedTo body) (assignedTo task))
         (createdBy task)
         (or_else (option_map to_boolean (b_isRecurring body)) (isRecurring task))
         (or_keep (b_recurringType body) (recurringType task))
         (or_keep (b_recurringInterval body) (recurringInterval task))
         (or_keep (b_recurringDays body) (recurringDays task))
         (or_keep (b_recurringDate body) (recurringDate task))
         endDate
         (parentTaskId task)).

(** The stored document with the id of [task] becomes [task]. *)
Fixpoint store_first (task : ITask) (l : list ITask) : list ITask :=
  match l with
  | [] => []
  | t :: l' => if (_id t =? _id task)%nat then task :: l' else t :: store_first task l'
  end.

(** [Task.findByIdAndUpdate(id, { $set: body }, { new: true })] *)
Definition Task_findByIdAndUpdate (trim : string -> string) (id : ObjectId) (body : TaskBody)
    : M (option ITask) :=
  fault_point ;;
  found <- (fun w => (Ok (List.find (fun t => (_id t =? id)%nat) (tasks w)), w)) ;;
  match found with
  | None => ret None
  | Some task =>
    updated <- Task_set trim body task ;;
    fun w => (Ok (Some updated), set_tasks (store_first updated (tasks w)) w)
  end.

(** [throw e] *)
Definition throw {A} (e : Exn) : M A := fun w => (Thrown e, w).

(** [a < b] on two [Date] objects compares their time values. *)
Definition Date_lt (a b : loc) : M bool :=
  x <- readDate a ;; y <- readDate b ;; ret (x <? y).

(** The string [createNotification] is given for the user: the string of
    an ObjectId, or a string that is none, as the inspect string that
    [toString()] gives of a populated user. *)
Inductive UserIdString :=
| id_string (id : ObjectId)
| no_id_string.

(** [createNotification] on any string.  For a string that is no ObjectId
    the document [new Notification] builds has no user: its [save] is
    rejected by the validation, before anything is stored, and
    [createNotification] logs that. *)
Definition createNotification_for (userId : UserIdString) (message type : string)
    (entityId : option ObjectId) : M (option Notification) :=
  match userId with
  | id_string id => createNotification id message type entityId
  | no_id_string =>
    try_catch
      (oid <- fresh_oid ;; throw StorageError)
      (fun error =>
         console_error "Error creating notification:" error ;;
         ret None)
  end.

(** The types of the schema of a notification ([models/Notification.ts]). *)
Definition notification_types : list string :=
  ["task_assigned"; "task_updated"; "task_completed"; "system"; "achievement";
   "points_earned"]%string.

(** A number in a template string. *)
Definition show (n : Z) : string := NilZero.string_of_int (Z.to_int n).

(** ** [routes/tasks.ts]: the handlers *)

Module Server.

Local Open Scope http_scope.

(** The store of the server: the world of the engine, the users, and the
    labels of the lines the routes write to the console for debugging
    (the objects printed with them are left out). *)
Record Server := mkServer {
  world : World;
  users : list User.IUser;
  debug : list string
}.

(** A computation of the engine, run by a handler. *)
Definition lift {A} (m : M A) : Http.St Server A :=
  fun s => match m (world s) with
           | (r, w') => (r, mkServer w' (users s) (debug s))
           end.

Definition console_debug (label : string) : Http.St Server unit :=
  fun s => (Ok tt, mkServer (world s) (users s) (debug s ++ [label])).

(** [User.findById(id)] *)
Definition User_findById (id : ObjectId) : Http.St Server (option User.IUser) :=
  lift fault_point ;;
  fun s => (Ok (List.find (fun u => (User._id u =? id)%nat) (users s)), s).

(** An update of the stored user with the id [id], if there is one. *)
Fixpoint update_first (id : ObjectId) (f : User.IUser -> User.IUser) (l : list User.IUser)
    : list User.IUser :=
  match l with
  | [] => []
  | u :: l' => if (User._id u =? id)%nat then f u :: l' else u :: update_first id f l'
  end.

(** [User.findByIdAndUpdate(id, { $inc: { points } })] *)
Definition User_incPoints (id : ObjectId) (points : Z) : Http.St Server unit :=
  lift fault_point ;;
  fun s => (Ok tt,
            mkServer (world s)
              (update_first id
                 (fun u => User.mkUser (User._id u) (User.name u) (User.email u) (User.role u)
                             (User.points u + points) (User.achievements u))
                 (users s))
              (debug s)).

(** [User.findByIdAndUpdate(id, { $push: { achievements } })] *)
Definition User_pushAchievement (id : ObjectId) (achievement : string)
    : Http.St Server unit :=
  lift fault_point ;;
  fun s => (Ok tt,
            mkServer (world s)
              (update_first id
                 (fun u => User.mkUser (User._id u) (User.name u) (User.email u) (User.role u)
                             (User.points u) (User.achievements u ++ [achievement]))
                 (users s))
              (debug s)).

Section Routes.

(** What the schema makes of a title ([trim: true]). *)
Variable trim : string -> string.

(** *** The validators *)

(** [notEmpty()] on a field that is there *)
Definition not_empty (x : option string) : bool :=
  match x with
  | Some s => negb (s =? "")%string
  | None => false
  end.

(** [optional().notEmpty()] *)
Definition optional_not_empty (x : option string) : bool :=
  match x with
  | Some s => negb (s =? "")%string
  | None => true
  end.

(** [optional().isInt({ min, max })] on a number *)
Definition optional_in_range (lo hi : Z) (x : option Z) : bool :=
  match x with
  | Some n => (lo <=? n) && (n <=? hi)
  | None => true
  end.

(** The validators of the recurring task fields, the same in both routes. *)
Definition valid_recurring (body : TaskBody) : bool :=
  match b_recurringType body with
  | Some ty => Rbac.includes ["daily"; "weekly"; "monthly"; "custom"]%string ty
  | None => true
  end
  && match b_recurringInterval body with
     | Some n => 1 <=? n
     | None => true
     end
  && match b_recurringDays body with
     | Some days => forallb (fun d => (0 <=? d) && (d <=? 6)) days
     | None => true
     end
  && optional_in_range 1 31 (b_recurringDate body).

Definition valid_create (body : TaskBody) : bool :=
  not_empty (b_title body) && not_empty (b_description body)
  && bool_decide (is_Some (b_dueDate body)) && bool_decide (is_Some (b_priority body))
  && bool_decide (is_Some (b_assignedTo body)) && valid_recurring body.

Definition valid_update (body : TaskBody) : bool :=
  optional_not_empty (b_title body) && optional_not_empty (b_description body)
  && valid_recurring body.

(** A flag of the body is truthy. *)
Definition is_true (x : option BooleanInput) : bool :=
  match x with
  | Some v => truthy_input v
  | None => false
  end.

(** [a !== b] on a boolean and a flag of the body: a number or a string
    is no boolean, and neither is an absent value. *)
Definition not_the_boolean (a : bool) (x : option BooleanInput) : bool :=
  match x with
  | Some (boolean b) => negb (Bool.eqb a b)
  | _ => true
  end.

(** *** Create task *)

(** [new Task({ ... })] in the create route: the status and the flag
    isRecurring have the defaults of the schema, and so has the array of
    days. *)
Definition Task_new (req_user : User.IUser) (body : TaskBody) (title_ description_ : string)
    (dueDate_ : Z) (priority_ : Priority) (taskAssignee : ObjectId) : M ITask :=
  (oid <- fresh_oid ;;
   due <- Date_new dueDate_ ;;
   endDate <- match b_recurringEndDate body with
              | Some v => r <- Date_new v ;; ret (Some r)
              | None => ret None
              end ;;
   ret (mkTask oid (trim title_) description_ due priority_ todo taskAssignee
          (User._id req_user) (or_else (option_map to_boolean (b_isRecurring body)) false)
          (b_recurringType body)
          (b_recurringInterval body) (Some (or_else (b_recurringDays body) []))
          (b_recurringDate body) endDate None))%js.

(** [task.save()] of a new task: the schema requires a title, which the
    trimmed title of the request may fail to be; the other requirements of
    the schema the validators have checked. *)
Definition Task_validate_and_save (task : ITask) : M unit :=
  if (title task =? "")%string then throw StorageError else Task_save task.

Definition create_task (req_user : User.IUser) (body : TaskBody)
    : Http.St Server (Http.Response ITask) :=
  Http.try_catch
    (if negb (valid_create body) then Http.ret (Http.mkResponse 400 None None)
     else
       console_debug "Task creation request:" ;;
       match b_title body, b_description body, b_dueDate body, b_priority body,
             b_assignedTo body with
       | Some title_, Some description_, Some dueDate_, Some priority_, Some assignedTo_ =>
         (* If assignedTo is missing or invalid, assign to the current user *)
         assignee <-
           Http.try_catch
             (assignedUser <- User_findById assignedTo_ ;;
              match assignedUser with
              | Some _ =>
                console_debug "Task will be assigned to:" ;;
                Http.ret (inl assignedTo_)
              | None =>
                console_debug "Falling back to current user as assignee" ;;
                assignedUser <- User_findById (User._id req_user) ;;
                match assignedUser with
                | Some _ =>
                  console_debug "Task will be assigned to:" ;;
                  Http.ret (inl (User._id req_user))
                | None =>
                  console_debug "No valid assignee found:" ;;
                  Http.ret (inr (Http.error 400 "No valid user found to assign the task to"))
                end
              end)
             (fun e =>
                lift (console_error "Error finding assignee:" e) ;;
                Http.ret (inr (Http.error 500 "Error finding user to assign task to"))) ;;
         match assignee with
         | inr response => Http.ret response
         | inl taskAssignee =>
           (* Validate recurring task fields *)
           if is_true (b_isRecurring body)
              && negb (bool_decide (is_Some (b_recurringType body)))
           then Http.ret (Http.error 400 "Recurring type is required for recurring tasks")
           else
             task <- lift (Task_new req_user body title_ description_ dueDate_ priority_
                             taskAssignee) ;;
             lift (Task_validate_and_save task) ;;
             (* If this is a recurring task, generate the first instance *)
             (if is_true (b_isRecurring body)
              then lift (createRecurringTaskInstance task) ;; Http.ret tt
              else Http.ret tt) ;;
             (* Send notification to assigned user if it's not the creator *)
             (if negb (assignedTo_ =? User._id req_user)%nat
              then lift (createNotification assignedTo_
                           ("You have been assigned a new task: " ++ title_)%string
                           "task_assigned" (Some (_id task))) ;;
                   Http.ret tt
              else Http.ret tt) ;;
             Http.ret (Http.mkResponse 201 (Some "Task created successfully"%string)
                         (Some task))
         end
       | _, _, _, _, _ => Http.ret (Http.mkResponse 400 None None)
       end)
    (fun e =>
       lift (console_error "Create task error:" e) ;;
       Http.ret (Http.error 500 "Server error")).

(** *** Update task *)

(** [createRecurringTaskInstance(updatedTask)] as the update route calls
    it, on the populated document: the users of the new instance are the
    users populate put in its parent.  Where populate found no user it
    has left null, and the new instance fails the validation of [save].
    [toString()] of a populated user is the inspect string of the
    document: the strings of two users differ, as they show the ids, and
    neither is the string of an ObjectId, so that the notification is
    called for with a user id that is none. *)
Definition createInstance_of_populated (assignee creator : option User.IUser) (task : ITask)
    : M (option ITask) :=
  (try_catch
     (newDueDate <- calculateNextDueDate task ;;
      pastEnd <- match recurringEndDate task with
                 | Some endDate => Date_gt newDueDate endDate
                 | None => ret false
                 end ;;
      if (pastEnd : bool) then ret None
      else
        oid <- fresh_oid ;;
        let newTaskInstance := new_instance task oid newDueDate in
        match assignee, creator with
        | Some assignedTo_, Some createdBy_ =>
          Task_save newTaskInstance ;;
          (if negb (User._id assignedTo_ =? User._id createdBy_)%nat then
             createNotification_for no_id_string
               ("New recurring task: " ++ title newTaskInstance)%string
               "task_assigned"
               (Some (_id newTaskInstance)) ;;
             ret tt
           else ret tt) ;;
          ret (Some newTaskInstance)
        | _, _ => throw StorageError
        end)
     (fun error =>
        console_error "Error creating recurring task instance:" error ;;
        ret None))%js.

(** Award points based on priority *)
Definition points_for (p : Priority) : Z :=
  match p with
  | low => 5
  | medium => 10
  | high => 15
  end.

(** [!user?.achievements.includes(achievement)] *)
Definition lacks (user : option User.IUser) (achievement : string) : bool :=
  match user with
  | Some u => negb (Rbac.includes (User.achievements u) achievement)
  | None => true
  end.

(** Award points for task completion; [now] is the time of the request. *)
Definition award_points (now : Z) (task : ITask) : Http.St Server unit :=
  nowDate <- lift (Date_new now) ;;
  dueDate_ <- lift (Date_copy (dueDate task)) ;;
  early <- lift (Date_lt nowDate dueDate_) ;;
  (* Bonus for early completion *)
  let pointsToAward := points_for (priority task) + (if (early : bool) then 5 else 0) in
  (* Update user's points *)
  User_incPoints (assignedTo task) pointsToAward ;;
  (* Check for achievements *)
  user <- User_findById (assignedTo task) ;;
  completedTasks <- lift (Task_countCompleted (assignedTo task)) ;;
  (if (completedTasks =? 1)%nat && lacks user "first_task"
   then User_pushAchievement (assignedTo task) "first_task" ;;
        lift (createNotification (assignedTo task)
                "Achievement Unlocked: Completed your first task!" "achievement" None) ;;
        Http.ret tt
   else Http.ret tt) ;;
  (if (completedTasks =? 5)%nat && lacks user "five_tasks"
   then User_pushAchievement (assignedTo task) "five_tasks" ;;
        lift (createNotification (assignedTo task)
                "Achievement Unlocked: Completed 5 tasks!" "achievement" None) ;;
        Http.ret tt
   else Http.ret tt) ;;
  (* Notify user about points earned *)
  lift (createNotification (assignedTo task)
          ("You earned " ++ show pointsToAward ++ " points for completing: "
           ++ title task)%string
          "points_earned" (Some (_id task))) ;;
  Http.ret tt.

(** [a !== b] on two optional strings *)
Definition differs (a b : option string) : bool :=
  match a, b with
  | Some x, Some y => negb (x =? y)%string
  | None, None => false
  | _, _ => true
  end.

Definition update_task (now : Z) (req_user : User.IUser) (id : option ObjectId)
    (body : TaskBody) : Http.St Server (Http.Response ITask) :=
  Http.try_catch
    (if negb (valid_update body) then Http.ret (Http.mkResponse 400 None None)
     else
       match id with
       | None => Http.ret (Http.error 400 "Invalid task ID format")
       | Some id =>
         found <- lift (Task_findById id) ;;
         match found with
         | None => Http.ret (Http.error 404 "Task not found")
         | Some task =>
           (* RBAC: Check permissions based on role and ownership *)
           let isTaskCreator := (createdBy task =? User._id req_user)%nat in
           let isAdmin := (User.role req_user =? "admin")%string in
           let isManager := (User.role req_user =? "manager")%string in
           if negb isTaskCreator && negb isAdmin && negb isManager
           then Http.ret (Http.error 403 "You do not have permission to update this task")
           else
             (* Check if this is a child task of a recurring series *)
             if bool_decide (is_Some (parentTaskId task)) && is_true (b_isRecurring body)
             then Http.ret (Http.error 400
                              "Cannot make a recurring task instance into a recurring task")
             else
               (* Save original values for notification logic *)
               let originalAssignee := assignedTo task in
               let originalStatus := status task in
               let wasRecurring := isRecurring task in
               let originalRecurringType := recurringType task in
               (* Update the task *)
               updatedTask <- lift (Task_findByIdAndUpdate trim id body) ;;
               populated <- match updatedTask with
                            | Some t =>
                              assignee <- User_findById (assignedTo t) ;;
                              creator <- User_findById (createdBy t) ;;
                              Http.ret (assignee, creator)
                            | None => Http.ret (None, None)
                            end ;;
               (* Check if the task is being marked as completed *)
               let isNowCompleted :=
                 match b_status body with
                 | Some completed => negb (Status_eqb originalStatus completed)
                 | _ => false
                 end in
               (if isNowCompleted then award_points now task else Http.ret tt) ;;
               (* Create new recurring instance if task was completed *)
               match updatedTask with
               | Some t =>
                 if isNowCompleted && isRecurring t
                 then lift (createInstance_of_populated (fst populated) (snd populated) t) ;;
                      Http.ret tt
                 else Http.ret tt
               | None => Http.ret tt
               end ;;
               (* Check if recurring settings changed and need to re-schedule *)
               let recurringChanged :=
                 not_the_boolean wasRecurring (b_isRecurring body)
                 || differs originalRecurringType (b_recurringType body) in
               match updatedTask with
               | Some t =>
                 if recurringChanged && isRecurring t
                 then
                   (* Re-create next instance with new settings *)
                   lift (Task_deleteMany (_id t)) ;;
                   lift (createInstance_of_populated (fst populated) (snd populated) t) ;;
                   Http.ret tt
                 else Http.ret tt
               | None => Http.ret tt
               end ;;
               (* Check if assignee changed *)
               match b_assignedTo body with
               | Some a =>
                 if negb (a =? originalAssignee)%nat
                 then lift (createNotification a
                              ("You have been assigned to task: " ++ title task)%string
                              "task_assigned" (Some (_id task))) ;;
                      Http.ret tt
                 else Http.ret tt
               | None => Http.ret tt
               end ;;
               (* Check if status changed to 'completed' *)
               (if isNowCompleted && negb (createdBy task =? User._id req_user)%nat
                then lift (createNotification (createdBy task)
                             ("Task completed: " ++ title task)%string
                             "task_completed" (Some (_id task))) ;;
                     Http.ret tt
                else Http.ret tt) ;;
               (* If task was updated by someone other than assignee, notify assignee *)
               (if negb (User._id req_user =? originalAssignee)%nat
                   && match b_assignedTo body with
                      | Some a => (a =? originalAssignee)%nat
                      | None => true
                      end
                then lift (createNotification originalAssignee
                             ("Task updated: " ++ title task)%string
                             "task_updated" (Some (_id task))) ;;
                     Http.ret tt
                else Http.ret tt) ;;
               Http.ret (Http.mkResponse 200 (Some "Task updated successfully"%string)
                           updatedTask)
         end
       end)
    (fun e =>
       lift (console_error "Update task error:" e) ;;
       Http.ret (Http.error 500 "Server error")).

(** *** Get task by ID *)

(** [Task.findById(id).populate('assignedTo').populate('createdBy')]: the
    task, and the users populate finds for its two references. *)
Definition Task_findById_populated (id : ObjectId)
    : Http.St Server (option (ITask * option User.IUser * option User.IUser)) :=
  found <- lift (Task_findById id) ;;
  match found with
  | None => Http.ret None
  | Some task =>
    assignee <- User_findById (assignedTo task) ;;
    creator <- User_findById (createdBy task) ;;
    Http.ret (Some (task, assignee, creator))
  end.

(** [populated?._id.toString() === user._id.toString()] *)
Definition is_user (populated : option User.IUser) (user : User.IUser) : bool :=
  match populated with
  | Some u => (User._id u =? User._id user)%nat
  | None => false
  end.

Definition get_task (req_user : User.IUser) (taskId : option ObjectId)
    : Http.St Server (Http.Response ITask) :=
  Http.try_catch
    (match taskId with
     | None => Http.ret (Http.error 400 "Invalid task ID")
     | Some taskId =>
       found <- Task_findById_populated taskId ;;
       match found with
       | None => Http.ret (Http.error 404 "Task not found")
       | Some (task, assignee, creator) =>
         let isCreator := is_user creator req_user in
         let isAssignee := is_user assignee req_user in
         let canViewAllTasks :=
           (User.role req_user =? "admin")%string || (User.role req_user =? "manager")%string in
         if negb isCreator && negb isAssignee && negb canViewAllTasks
         then Http.ret (Http.error 403 "You do not have permission to view this task")
         else Http.ret (Http.mkResponse 200 None (Some task))
       end
     end)
    (fun e =>
       lift (console_error "Get task error:" e) ;;
       Http.ret (Http.error 500 "Server error")).

(** *** Delete task *)

Definition delete_task (req_user : User.IUser) (id : option ObjectId)
    : Http.St Server (Http.Response ITask) :=
  Http.try_catch
    (match id with
     | None => Http.ret (Http.error 400 "Invalid task ID format")
     | Some id =>
       found <- lift (Task_findById id) ;;
       match found with
       | None => Http.ret (Http.error 404 "Task not found")
       | Some task =>
         let isTaskCreator := (createdBy task =? User._id req_user)%nat in
         let isAdmin := (User.role req_user =? "admin")%string in
         if negb isTaskCreator && negb isAdmin
         then Http.ret (Http.error 403 "You do not have permission to delete this task")
         else
           (if negb (assignedTo task =? User._id req_user)%nat
            then lift (createNotification (assignedTo task)
                         ("Task deleted: " ++ title task)%string "system" None) ;;
                 Http.ret tt
            else Http.ret tt) ;;
           lift (Task_deleteOne task) ;;
           Http.ret (Http.mkResponse 200 (Some "Task deleted successfully"%string) None)
       end
     end)
    (fun e =>
       lift (console_error "Delete task error:" e) ;;
       Http.ret (Http.error 500 "Server error")).

End Routes.

End Server.


(** ** What a handler may touch *)

(** A computation keeps a relation between the world it starts in and the
    world it leaves, whether it returns or throws. *)
Definition keeps {A} (R : World -> World -> Prop) (m : M A) : Prop :=
  forall w, R w (snd (m w)).

Definition keeps_st {S A} (R : S -> S -> Prop) (m : Http.St S A) : Prop :=
  forall s, R s (snd (m s)).

(** The tasks are the same documents, in the same order. *)
Definition same_tasks (w w' : World) : Prop := tasks w' = tasks w.

(** The tasks of [w'] are those of [w] but for the task [id] and its
    instances: every other task of [w] is in [w'], and every task of [w']
    that is not in [w] is the task [id] or one of its instances. *)
Definition touches_only (id : ObjectId) (w w' : World) : Prop :=
  (forall t, In t (tasks w) -> _id t <> id -> is_child id t = false -> In t (tasks w'))
  /\ (forall t, In t (tasks w') -> In t (tasks w) \/ _id t = id \/ is_child id t = true).

(** The users are the same but for their points and achievements. *)
Definition same_accounts (us us' : list User.IUser) : Prop :=
  Forall2 (fun u u' => User._id u' = User._id u /\ User.name u' = User.name u
                       /\ User.email u' = User.email u /\ User.role u' = User.role u)
    us us'.

Definition server_touches_only (id : ObjectId) (s s' : Server.Server) : Prop :=
  touches_only id (Server.world s) (Server.world s')
  /\ same_accounts (Server.users s) (Server.users s').


(** No notification is stored or emitted. *)
Definition same_channel (w w' : World) : Prop :=
  notifications w' = notifications w /\ emitted w' = emitted w.

(** ** Sample requests *)

(** The titles of the samples have no white space at their ends. *)
Definition no_trim (s : string) : string := s.

(** The assignee and the creator of the sample tasks. *)
Definition sample_assignee : User.IUser :=
  User.mkUser 7%nat "Asha" "asha@example.com" "user" 0 [].
Definition sample_creator : User.IUser :=
  User.mkUser 8%nat "Ben" "ben@example.com" "manager" 0 [].

(** The store after a first sweep over the weekly root: the root and its
    first instance. *)
Definition sample_server : Server.Server :=
  Server.mkServer (exec cron_job weekly_world) [sample_assignee; sample_creator] [].

Definition empty_body : TaskBody :=
  mkBody None None None None None None None None None None None None.

(** A request that marks a task completed and says nothing else. *)
Definition complete_body : TaskBody :=
  mkBody None None None None (Some completed) None None None None None None None.


(** The same request with the flag isRecurring as the string "false" and
    the title "Feed the cat", from the creator of the sample tasks to the
    assignee. *)
Definition string_false_body : TaskBody :=
  mkBody (Some "Feed the cat"%string) (Some "Twice a day"%string) (Some (utc 2024 2 1))
    (Some low) None (Some 7%nat) (Some string_false) (Some "daily"%string) None None None
    None.

(** The answer to the request to complete the weekly root. *)
Definition sample_update : Outcome (Http.Response ITask) * Server.Server :=
  Server.update_task no_trim (utc 2024 1 2) sample_creator (Some 0%nat) complete_body
    sample_server.

Definition sample_update_response : Http.Response ITask :=
  match fst sample_update with
  | Ok r => r
  | Thrown _ => Http.error 500 ""
  end.

Definition sample_updated : ITask :=
  default weekly_root (Http.data sample_update_response).

(** ** Tactics *)

(** Linear arithmetic with division and remainder by constants. *)
Ltac dlia := Z.to_euclidean_division_equations; lia.

(** Decide the tests of the conditionals of the goal that are closed. *)
Ltac decide_closed_tests :=
  repeat match goal with
         | |- context [if ?b then _ else _] =>
           let v := eval vm_compute in b in
           lazymatch v with
           | true => change b with true
           | false => change b with false
           end; cbv iota
         end.

(** Well-formedness of a concrete world, by evaluation. *)
Ltac wf_by_evaluation :=
  repeat (apply List.Forall_cons;
          [split; [eexists; reflexivity
                  | intros ? He; try discriminate He; inversion He; subst; eexists; reflexivity]|]);
  apply List.Forall_nil.

(** * Properties *)

(** ** The calendar *)

Lemma all_from_spec (n : nat) : forall (z : Z) (p : Z -> bool),
  all_from n z p = true ->
  forall k, z <= k < z + Z.of_nat n -> p k = true.
Proof.
  induction n as [|n IH]; intros z p H k Hk.
  - lia.
  - cbn [all_from] in H. apply andb_true_iff in H as [Hz Hrest].
    destruct (Z.eq_dec k z) as [->|Hne]; [exact Hz|].
    apply (IH (z + 1) p Hrest). lia.
Qed.

Lemma doe_ok_all : forall doe, 0 <= doe < 146097 -> doe_ok doe = true.
Proof.
  intros doe H.
  apply (all_from_spec (Z.to_nat 146097) 0 doe_ok); [vm_compute; reflexivity | lia].
Qed.

Lemma ymd_ok_all : forall yoe m d,
  0 <= yoe < 400 -> 1 <= m <= 12 -> 1 <= d <= 31 -> ymd_ok yoe m d = true.
Proof.
  intros yoe m d Hy Hm Hd.
  assert (H : all_from 400 0 (fun y => all_from 12 1 (fun m => all_from 31 1 (ymd_ok y m))) = true)
    by (vm_compute; reflexivity).
  pose proof (all_from_spec _ _ _ H yoe ltac:(lia)) as H1. cbv beta in H1.
  pose proof (all_from_spec _ _ _ H1 m ltac:(lia)) as H2. cbv beta in H2.
  exact (all_from_spec _ _ _ H2 d ltac:(lia)).
Qed.

Example epoch_is_1970_01_01 : civil_from_days 0 = (1970, 1, 1) /\ WeekDay 0 = 4.
Proof. vm_compute. split; reflexivity. Qed.

Example new_year_2024_is_a_monday :
  utc 2024 1 1 = 1704067200000 /\ getDay (utc 2024 1 1) = 1.
Proof. vm_compute. split; reflexivity. Qed.

Example setDate_carries_over : setDate (utc 2024 1 31) 32 = utc 2024 2 1.
Proof. vm_compute. reflexivity. Qed.

Example setMonth_carries_over : setMonth (utc 2024 1 31) 1 = utc 2024 3 2.
Proof. vm_compute. reflexivity. Qed.

Example constructor_two_digit_year : fromYMD 24 0 1 = utc 1924 1 1.
Proof. vm_compute. reflexivity. Qed.

Lemma is_leap_period (y k : Z) : is_leap (y + k * 400) = is_leap y.
Proof.
  unfold is_leap.
  replace ((y + k * 400) mod 4) with (y mod 4) by dlia.
  replace ((y + k * 400) mod 100) with (y mod 100) by dlia.
  replace ((y + k * 400) mod 400) with (y mod 400) by dlia.
  reflexivity.
Qed.

Lemma days_in_month_period (y k m : Z) :
  days_in_month (y + k * 400) m = days_in_month y m.
Proof. unfold days_in_month. now rewrite is_leap_period. Qed.

Lemma days_in_month_bounds (y m : Z) : 28 <= days_in_month y m <= 31.
Proof.
  unfold days_in_month.
  destruct (m =? 2); [destruct (is_leap y); lia|].
  destruct ((m =? 4) || (m =? 6) || (m =? 9) || (m =? 11)); lia.
Qed.

(** Every day number is the day number of the date it decodes to, and
    that date is a date of the calendar. *)
Lemma civil_from_days_inv (z : Z) :
  let '(y, m, d) := civil_from_days z in
  days_from_civil y m d = z /\ 1 <= m <= 12 /\ 1 <= d <= days_in_month y m.
Proof.
  unfold civil_from_days.
  set (z' := z + 719468).
  set (era := z' / 146097).
  set (doe := z' mod 146097).
  assert (Hdoe : 0 <= doe < 146097) by (apply Z.mod_pos_bound; lia).
  assert (Hz : z = era * 146097 + doe - 719468) by (subst era doe z'; dlia).
  pose proof (doe_ok_all doe Hdoe) as Hok. unfold doe_ok in Hok.
  cbv zeta in *.
  set (yoe := (doe - doe / 1460 + doe / 36524 - doe / 146096) / 365) in *.
  set (doy := doe - (365 * yoe + yoe / 4 - yoe / 100)) in *.
  set (mp := (5 * doy + 2) / 153) in *.
  set (d := doy - (153 * mp + 2) / 5 + 1) in *.
  set (m := if mp <? 10 then mp + 3 else mp - 9) in *.
  repeat (apply andb_true_iff in Hok as [Hok ?]).
  assert (Hy : forall c : Z, days_in_month (yoe + era * 400 + c) m = days_in_month (yoe + c) m).
  { intros c. replace (yoe + era * 400 + c) with (yoe + c + era * 400) by lia.
    apply days_in_month_period. }
  unfold days_from_civil.
  destruct (m <=? 2) eqn:Hm.
  - replace (yoe + era * 400 + 1 - 1) with (yoe + era * 400) by lia.
    replace ((yoe + era * 400) / 400) with era by dlia.
    replace ((yoe + era * 400) mod 400) with yoe by dlia.
    rewrite Hy. lia.
  - replace ((yoe + era * 400) / 400) with era by dlia.
    replace ((yoe + era * 400) mod 400) with yoe by dlia.
    specialize (Hy 0). rewrite !Z.add_0_r in Hy. rewrite Hy. lia.
Qed.

(** Every date of the calendar is the date its day number decodes to. *)
Lemma days_from_civil_inv (y m d : Z) :
  1 <= m <= 12 -> 1 <= d <= days_in_month y m ->
  civil_from_days (days_from_civil y m d) = (y, m, d).
Proof.
  intros Hm Hd.
  pose proof (days_in_month_bounds y m) as Hb.
  set (c := if m <=? 2 then 1 else 0).
  set (y' := y - c).
  set (era := y' / 400).
  set (yoe := y' mod 400).
  assert (Hyoe : 0 <= yoe < 400) by (apply Z.mod_pos_bound; lia).
  assert (Hy' : y = yoe + era * 400 + c) by (subst yoe era y'; dlia).
  pose proof (ymd_ok_all yoe m d Hyoe Hm ltac:(lia)) as Hok.
  unfold ymd_ok in Hok. cbv zeta in Hok.
  assert (Hdim : days_in_month (if m <=? 2 then yoe + 1 else yoe) m = days_in_month y m).
  { rewrite Hy'. replace (yoe + era * 400 + c) with (yoe + c + era * 400) by lia.
    rewrite days_in_month_period. subst c. destruct (m <=? 2); f_equal; lia. }
  rewrite Hdim in Hok.
  apply orb_true_iff in Hok as [Hok | Hok]; [lia|].
  unfold days_from_civil, civil_from_days. cbv zeta.
  replace (if m <=? 2 then y - 1 else y) with y'
    by (subst y' c; destruct (m <=? 2); lia).
  fold era. fold yoe.
  set (doe := yoe * 365 + yoe / 4 - yoe / 100
              + ((153 * (if 2 <? m then m - 3 else m + 9) + 2) / 5 + d - 1)) in *.
  repeat (apply andb_true_iff in Hok as [Hok ?]).
  replace (era * 146097 + doe - 719468 + 719468) with (doe + era * 146097) by lia.
  replace ((doe + era * 146097) / 146097) with era by dlia.
  replace ((doe + era * 146097) mod 146097) with doe by dlia.
  set (yoe2 := (doe - doe / 1460 + doe / 36524 - doe / 146096) / 365) in *.
  set (doy2 := doe - (365 * yoe2 + yoe2 / 4 - yoe2 / 100)) in *.
  set (mp2 := (5 * doy2 + 2) / 153) in *.
  set (d2 := doy2 - (153 * mp2 + 2) / 5 + 1) in *.
  set (m2 := if mp2 <? 10 then mp2 + 3 else mp2 - 9) in *.
  assert (E1 : yoe2 = yoe) by lia.
  assert (E2 : m2 = m) by lia.
  assert (E3 : d2 = d) by lia.
  rewrite E1, E2, E3. subst c.
  destruct (m <=? 2); f_equal; f_equal; lia.
Qed.

Lemma days_from_civil_linear (y m d : Z) :
  days_from_civil y m d = days_from_civil y m 1 + d - 1.
Proof. unfold days_from_civil. lia. Qed.

(** Days from March 1st of year 0 to March 1st of year [y]. *)
Lemma march_step (y : Z) :
  (y + 1) / 400 * 146097 + ((y + 1) mod 400 * 365 + (y + 1) mod 400 / 4 - (y + 1) mod 400 / 100)
  = y / 400 * 146097 + (y mod 400 * 365 + y mod 400 / 4 - y mod 400 / 100)
    + (if is_leap (y + 1) then 366 else 365).
Proof.
  unfold is_leap.
  destruct ((y + 1) mod 4 =? 0) eqn:E4; destruct ((y + 1) mod 100 =? 0) eqn:E100;
    destruct ((y + 1) mod 400 =? 0) eqn:E400; cbn [andb orb negb]; dlia.
Qed.

(** The first day of a month follows the last day of the month before. *)
Lemma days_from_civil_next_month (y m : Z) :
  1 <= m <= 12 ->
  days_from_civil (if m =? 12 then y + 1 else y) (if m =? 12 then 1 else m + 1) 1
  = days_from_civil y m 1 + days_in_month y m.
Proof.
  intros Hm.
  assert (Hcases : m = 1 \/ m = 2 \/ m = 3 \/ m = 4 \/ m = 5 \/ m = 6 \/ m = 7
                   \/ m = 8 \/ m = 9 \/ m = 10 \/ m = 11 \/ m = 12) by lia.
  pose proof (march_step (y - 1)) as Hstep.
  replace (y - 1 + 1) with y in Hstep by lia.
  unfold days_from_civil, days_in_month.
  repeat (destruct Hcases as [-> | Hcases]); try subst m; decide_closed_tests;
    try replace (y + 1 - 1) with y by lia;
    try (destruct (is_leap y)); dlia.
Qed.

(** ** Time values *)

Lemma time_parts (t : Z) : MakeDate (Day t) (TimeWithinDay t) = t.
Proof. unfold MakeDate, Day, TimeWithinDay, msPerDay. dlia. Qed.

Lemma Day_add (t k : Z) : Day (t + k * msPerDay) = Day t + k.
Proof. unfold Day, msPerDay. dlia. Qed.

Lemma TimeWithinDay_add (t k : Z) : TimeWithinDay (t + k * msPerDay) = TimeWithinDay t.
Proof. unfold TimeWithinDay, msPerDay. dlia. Qed.

Lemma Day_MakeDate (day time : Z) :
  0 <= time < msPerDay -> Day (MakeDate day time) = day.
Proof. unfold Day, MakeDate, msPerDay. intros. dlia. Qed.

Lemma TimeWithinDay_MakeDate (day time : Z) :
  0 <= time < msPerDay -> TimeWithinDay (MakeDate day time) = time.
Proof. unfold TimeWithinDay, MakeDate, msPerDay. intros. dlia. Qed.

Lemma TimeWithinDay_range (t : Z) : 0 <= TimeWithinDay t < msPerDay.
Proof. unfold TimeWithinDay, msPerDay. dlia. Qed.

Lemma WeekDay_range (t : Z) : 0 <= WeekDay t <= 6.
Proof. unfold WeekDay. dlia. Qed.

Lemma WeekDay_add (t k : Z) : WeekDay (t + k * msPerDay) = (WeekDay t + k) mod 7.
Proof. unfold WeekDay. rewrite Day_add. dlia. Qed.

(** The date of a time value, as a triple, with its day number. *)
Lemma civil_of_time (t : Z) :
  civil_from_days (Day t) = (YearFromTime t, MonthFromTime t + 1, DateFromTime t).
Proof.
  unfold YearFromTime, MonthFromTime, DateFromTime.
  destruct (civil_from_days (Day t)) as [[y m] d]. cbn. f_equal. f_equal. lia.
Qed.

Lemma date_of_time (t : Z) :
  days_from_civil (YearFromTime t) (MonthFromTime t + 1) (DateFromTime t) = Day t
  /\ 0 <= MonthFromTime t <= 11
  /\ 1 <= DateFromTime t <= days_in_month (YearFromTime t) (MonthFromTime t + 1).
Proof.
  pose proof (civil_from_days_inv (Day t)) as H.
  rewrite civil_of_time in H. lia.
Qed.

Lemma MakeDay_in_year (y m d : Z) :
  0 <= m <= 11 -> MakeDay y m d = days_from_civil y (m + 1) d.
Proof.
  intros Hm. unfold MakeDay. cbv zeta.
  replace (m / 12) with 0 by dlia. replace (m mod 12) with m by dlia.
  rewrite (days_from_civil_linear _ _ d). f_equal. f_equal. f_equal. lia.
Qed.

(** [d.setDate(d.getDate() + k)] moves a date by [k] days. *)
Lemma setDate_add (t k : Z) : setDate t (getDate t + k) = t + k * msPerDay.
Proof.
  destruct (date_of_time t) as (Hday & Hm & Hd).
  unfold setDate, getDate. rewrite MakeDay_in_year by exact Hm.
  rewrite days_from_civil_linear, <- Z.add_sub_assoc.
  replace (DateFromTime t + k - 1) with ((DateFromTime t - 1) + k) by lia.
  rewrite Z.add_assoc, Z.add_sub_assoc, <- days_from_civil_linear, Hday.
  rewrite <- (time_parts t) at 3. unfold MakeDate. lia.
Qed.

(** The date and the time of day of a time value built from a date of the
    calendar. *)
Lemma civil_of_MakeDate (y m d time : Z) :
  1 <= m <= 12 -> 1 <= d <= days_in_month y m -> 0 <= time < msPerDay ->
  civil_from_days (Day (MakeDate (days_from_civil y m d) time)) = (y, m, d).
Proof.
  intros Hm Hd Ht. rewrite Day_MakeDate by exact Ht.
  now apply days_from_civil_inv.
Qed.

(** The year the [Date] constructor takes for a year argument. *)
Lemma fromYMD_year (y m d : Z) :
  fromYMD y m d = MakeDate (MakeDay (if (0 <=? y) && (y <=? 99) then 1900 + y else y) m d) 0.
Proof. reflexivity. Qed.

(** [new Date(y, m + 1, 0).getDate()], the idiom for the number of days of
    month [m] (0..11) of year [y]: it is that number for the year the
    constructor takes. *)
Lemma last_day_idiom (y m : Z) :
  0 <= m <= 11 ->
  getDate (fromYMD y (m + 1) 0)
  = days_in_month (if (0 <=? y) && (y <=? 99) then 1900 + y else y) (m + 1).
Proof.
  intros Hm. rewrite fromYMD_year.
  set (yr := if (0 <=? y) && (y <=? 99) then 1900 + y else y).
  pose proof (days_in_month_bounds yr (m + 1)) as Hb.
  assert (E : MakeDay yr (m + 1) 0 = days_from_civil yr (m + 1) (days_in_month yr (m + 1))).
  { unfold MakeDay. cbv zeta.
    pose proof (days_from_civil_next_month yr (m + 1) ltac:(lia)) as Hn.
    rewrite (days_from_civil_linear yr (m + 1) (days_in_month yr (m + 1))).
    destruct (m + 1 =? 12) eqn:E12.
    - replace ((m + 1) / 12) with 1 by dlia.
      replace ((m + 1) mod 12 + 1) with 1 by dlia. lia.
    - replace ((m + 1) / 12) with 0 by dlia.
      replace ((m + 1) mod 12 + 1) with (m + 1 + 1) by dlia.
      rewrite !Z.add_0_r. lia. }
  unfold getDate, DateFromTime. rewrite E.
  rewrite civil_of_MakeDate; [reflexivity | lia | lia | unfold msPerDay; lia].
Qed.

(** The monthly rule with a day of the month: the result is in the month
    after the month of [t], at the same time of day, on the requested day
    clamped to what the idiom above gives for the length of that month. *)
Lemma monthly_on_day_civil (t rd : Z) :
  1 <= rd ->
  let y := YearFromTime t in
  let m := MonthFromTime t + 1 in
  let y2 := if m =? 12 then y + 1 else y in
  let m2 := if m =? 12 then 1 else m + 1 in
  let len := days_in_month (if (0 <=? y2) && (y2 <=? 99) then 1900 + y2 else y2) m2 in
  len <= days_in_month y2 m2 ->
  civil_from_days (Day (monthly_on_day t rd)) = (y2, m2, Z.min rd len)
  /\ TimeWithinDay (monthly_on_day t rd) = TimeWithinDay t.
Proof.
  intros Hrd y m y2 m2 len Hlen.
  destruct (date_of_time t) as (_ & Hm & _).
  pose proof (TimeWithinDay_range t) as Htw.
  unfold monthly_on_day. cbv zeta. unfold getMonth, getFullYear.
  fold y. change (MonthFromTime t + 1) with m.
  assert (Hm' : 1 <= m <= 12) by (subst m; lia).
  assert (Ey : y + (if 11 <? m then 1 else 0) = y2).
  { subst y2. destruct (m =? 12) eqn:E; destruct (11 <? m) eqn:E'; lia. }
  assert (Em : Z.rem m 12 = m2 - 1).
  { subst m2. rewrite Z.rem_mod_nonneg by lia. clearbody m.
    destruct (m =? 12) eqn:E; dlia. }
  rewrite Ey, Em.
  assert (Hm2 : 0 <= m2 - 1 <= 11) by (subst m2; destruct (m =? 12) eqn:E; lia).
  rewrite last_day_idiom by exact Hm2.
  replace (m2 - 1 + 1) with m2 by lia. fold len.
  pose proof (days_in_month_bounds (if (0 <=? y2) && (y2 <=? 99) then 1900 + y2 else y2) m2) as Hb.
  fold len in Hb.
  set (t1 := setFullYear t y2 (m2 - 1) 1).
  assert (Et1 : t1 = MakeDate (days_from_civil y2 m2 1) (TimeWithinDay t)).
  { subst t1. unfold setFullYear. rewrite MakeDay_in_year by exact Hm2.
    now replace (m2 - 1 + 1) with m2 by lia. }
  assert (Hc1 : civil_from_days (Day t1) = (y2, m2, 1)).
  { rewrite Et1. apply civil_of_MakeDate; [lia | | exact Htw].
    pose proof (days_in_month_bounds y2 m2). lia. }
  assert (Er : setDate t1 (Z.min rd len)
               = MakeDate (days_from_civil y2 m2 (Z.min rd len)) (TimeWithinDay t)).
  { unfold setDate, YearFromTime, MonthFromTime. rewrite Hc1. cbn [fst snd].
    rewrite MakeDay_in_year by exact Hm2. replace (m2 - 1 + 1) with m2 by lia.
    rewrite Et1, TimeWithinDay_MakeDate by exact Htw. reflexivity. }
  rewrite Er. split.
  - apply civil_of_MakeDate; [lia | lia | exact Htw].
  - now apply TimeWithinDay_MakeDate.
Qed.

(** The constructor's reading of two-digit years changes the length of a
    month for February of year 0 only, which it shortens. *)
Lemma is_leap_two_digit_year (y : Z) :
  0 <= y <= 99 ->
  (is_leap (1900 + y) = true -> is_leap y = true)
  /\ (y <> 0 -> is_leap (1900 + y) = is_leap y).
Proof.
  intros Hy.
  assert (H : all_from 100 0
                (fun y => implb (is_leap (1900 + y)) (is_leap y)
                          && ((y =? 0) || Bool.eqb (is_leap (1900 + y)) (is_leap y))) = true)
    by (vm_compute; reflexivity).
  pose proof (all_from_spec _ _ _ H y ltac:(lia)) as Hc. cbv beta in Hc.
  apply andb_true_iff in Hc as [H1 H2]. split.
  - intros E. rewrite E in H1. exact H1.
  - intros Hne. apply orb_true_iff in H2 as [H2 | H2]; [lia|].
    now apply Bool.eqb_prop.
Qed.

Lemma days_in_month_constructor_year (y m : Z) :
  let yr := if (0 <=? y) && (y <=? 99) then 1900 + y else y in
  days_in_month yr m <= days_in_month y m
  /\ (y <> 0 \/ m <> 2 -> days_in_month yr m = days_in_month y m).
Proof.
  cbv zeta. destruct ((0 <=? y) && (y <=? 99)) eqn:E; [|split; [lia | reflexivity]].
  apply andb_true_iff in E as [E1 E2].
  destruct (is_leap_two_digit_year y ltac:(lia)) as [Himp Heq].
  unfold days_in_month. destruct (m =? 2) eqn:Em; [|split; [lia | reflexivity]].
  split.
  - destruct (is_leap (1900 + y)); [rewrite Himp by reflexivity; lia|].
    destruct (is_leap y); lia.
  - intros [Hy | Hm]; [rewrite Heq by exact Hy; reflexivity | lia].
Qed.

(** ** Running the primitives *)

Lemma bind_run {A B} (m : M A) (k : A -> M B) (w w' : World) (a : A) :
  m w = (Ok a, w') -> bind m k w = k a w'.
Proof. intros H. unfold bind. now rewrite H. Qed.

Lemma bind_throw {A B} (m : M A) (k : A -> M B) (w w' : World) (e : Exn) :
  m w = (Thrown e, w') -> bind m k w = (Thrown e, w').
Proof. intros H. unfold bind. now rewrite H. Qed.

Lemma readDate_run (r : loc) (v : Z) (w : World) :
  dates w !! r = Some v -> readDate r w = (Ok v, w).
Proof. intros H. unfold readDate. now rewrite H. Qed.

Lemma writeDate_run (r : loc) (v v0 : Z) (w : World) :
  dates w !! r = Some v0 ->
  writeDate r v w = (Ok tt, set_dates (<[r := v]> (dates w)) w).
Proof.
  intros H. unfold writeDate.
  apply lookup_lt_Some in H. apply Nat.ltb_lt in H. now rewrite H.
Qed.

Lemma Date_copy_run (r : loc) (v : Z) (w : World) :
  dates w !! r = Some v ->
  Date_copy r w = (Ok (length (dates w)), set_dates (dates w ++ [v]) w).
Proof. intros H. unfold Date_copy. now rewrite (bind_run _ _ _ _ _ (readDate_run _ _ _ H)). Qed.

Lemma Date_get_run (f : Z -> Z) (r : loc) (v : Z) (w : World) :
  dates w !! r = Some v -> (x <- readDate r ;; ret (f x)) w = (Ok (f v), w).
Proof. intros H. now rewrite (bind_run _ _ _ _ _ (readDate_run _ _ _ H)). Qed.

Lemma Date_set_run (f : Z -> Z) (r : loc) (v : Z) (w : World) :
  dates w !! r = Some v ->
  (x <- readDate r ;; writeDate r (f x) ;; ret (f x)) w
  = (Ok (f v), set_dates (<[r := f v]> (dates w)) w).
Proof.
  intros H. rewrite (bind_run _ _ _ _ _ (readDate_run _ _ _ H)).
  now rewrite (bind_run _ _ _ _ _ (writeDate_run _ _ _ _ H)).
Qed.

(** ** The heap of dates around a call of [calculateNextDueDate] *)

Lemma lookup_fresh_0 (ds : list Z) (a : Z) (l : list Z) :
  (ds ++ a :: l) !! length ds = Some a.
Proof. now apply list_lookup_middle. Qed.

Lemma lookup_fresh_1 (ds : list Z) (a b : Z) (l : list Z) :
  (ds ++ a :: b :: l) !! S (length ds) = Some b.
Proof.
  replace (ds ++ a :: b :: l) with ((ds ++ [a]) ++ b :: l) by now rewrite <- app_assoc.
  apply list_lookup_middle. rewrite length_app. cbn. lia.
Qed.

Lemma lookup_fresh_2 (ds : list Z) (a b c : Z) (l : list Z) :
  (ds ++ a :: b :: c :: l) !! S (S (length ds)) = Some c.
Proof.
  replace (ds ++ a :: b :: c :: l) with ((ds ++ [a; b]) ++ c :: l) by now rewrite <- app_assoc.
  apply list_lookup_middle. rewrite length_app. cbn. lia.
Qed.

Lemma insert_fresh_1 (ds : list Z) (a b v : Z) (l : list Z) :
  <[S (length ds) := v]> (ds ++ a :: b :: l) = ds ++ a :: v :: l.
Proof.
  replace (S (length ds)) with (length ds + 1)%nat by lia.
  now rewrite insert_app_r.
Qed.

Lemma lookup_old (ds l : list Z) (r : loc) (v : Z) :
  ds !! r = Some v -> (ds ++ l) !! r = Some v.
Proof. intros H. now apply lookup_app_l_Some. Qed.

Lemma length_snoc_2 (ds : list Z) (a b : Z) :
  length (ds ++ [a; b]) = S (S (length ds)).
Proof. rewrite length_app. cbn. lia. Qed.

(** The two copies [calculateNextDueDate] starts with. *)
Lemma two_copies_run {A} (r : loc) (t : Z) (k : loc -> loc -> M A) (w : World) :
  dates w !! r = Some t ->
  (currentDueDate <- Date_copy r ;; newDueDate <- Date_copy currentDueDate ;;
   k currentDueDate newDueDate) w
  = k (length (dates w)) (S (length (dates w))) (set_dates (dates w ++ [t; t]) w).
Proof.
  intros H. rewrite (bind_run _ _ _ _ _ (Date_copy_run _ _ _ H)).
  assert (H1 : dates (set_dates (dates w ++ [t]) w) !! length (dates w) = Some t)
    by apply lookup_fresh_0.
  rewrite (bind_run _ _ _ _ _ (Date_copy_run _ _ _ H1)).
  cbn [dates set_dates]. rewrite length_app, <- app_assoc. cbn [length app].
  rewrite Nat.add_1_r. reflexivity.
Qed.

Lemma seq_ret_run {A B} (m : M A) (b : B) (w w' : World) (a : A) :
  m w = (Ok a, w') -> (m ;; ret b) w = (Ok b, w').
Proof. intros H. now rewrite (bind_run _ _ _ _ _ H). Qed.

Lemma Date_ymd_run (y m d : Z) (w : World) :
  Date_ymd y m d w = (Ok (length (dates w)), set_dates (dates w ++ [fromYMD y m d]) w).
Proof. reflexivity. Qed.

(** [newDueDate.setDate(currentDueDate.getDate() + k)] *)
Lemma move_days_run (cur new : loc) (t v k : Z) (w : World) :
  dates w !! cur = Some t -> dates w !! new = Some v ->
  (d <- Date_getDate cur ;; Date_setDate new (d + k) ;; ret tt) w
  = (Ok tt, set_dates (<[new := setDate v (getDate t + k)]> (dates w)) w).
Proof.
  intros Hc Hn. unfold Date_getDate, Date_setDate.
  rewrite (bind_run _ _ _ _ _ (Date_get_run getDate _ _ _ Hc)).
  now rewrite (bind_run _ _ _ _ _ (Date_set_run (fun x => setDate x (getDate t + k)) _ _ _ Hn)).
Qed.

(** [calculateNextDueDate] never fails on a task whose due date exists.  It
    allocates a copy of the due date and the date it returns (and one more
    date in the monthly rule), leaves in the returned date the time value
    [nextDueTime], and changes nothing else. *)
Lemma calculateNextDueDate_run (task : ITask) (w : World) (t : Z) :
  dates w !! dueDate task = Some t ->
  exists extra,
    calculateNextDueDate task w
    = (Ok (S (length (dates w))),
       set_dates (dates w ++ [t; nextDueTime task t] ++ extra) w).
Proof.
  intros H. unfold calculateNextDueDate. rewrite (two_copies_run _ _ _ _ H).
  set (ds := dates w). set (w2 := set_dates (ds ++ [t; t]) w).
  assert (Hc : dates w2 !! length ds = Some t) by apply lookup_fresh_0.
  assert (Hn : dates w2 !! S (length ds) = Some t) by apply lookup_fresh_1.
  assert (Hmove : forall k,
    (d <- Date_getDate (length ds) ;; Date_setDate (S (length ds)) (d + k) ;; ret tt) w2
    = (Ok tt, set_dates (ds ++ [t; setDate t (getDate t + k)]) w)).
  { intros k. rewrite (move_days_run _ _ _ _ _ _ Hc Hn). cbn [dates set_dates w2].
    now rewrite insert_fresh_1. }
  assert (Hnone : (ret tt ;; ret (S (length ds))) w2
                  = (Ok (S (length ds)), set_dates (ds ++ [t; t] ++ []) w)) by reflexivity.
  unfold nextDueTime.
  destruct (recurringType task) as [ty|]; [|exists []; exact Hnone].
  destruct (ty =? "daily")%string.
  { exists []. exact (seq_ret_run _ _ _ _ _ (Hmove _)). }
  destruct (ty =? "weekly")%string.
  { exists []. apply seq_ret_run with (a := tt).
    destruct (recurringDays task) as [[|firstDay otherDays]|]; try exact (Hmove _).
    unfold weekly_on_days, Date_getDay.
    rewrite (bind_run _ _ _ _ _ (Date_get_run getDay _ _ _ Hc)).
    destruct (List.filter _ _); exact (Hmove _). }
  destruct (ty =? "monthly")%string.
  { destruct (truthy (recurringDate task)) as [rd|].
    - unfold monthly_on_day, Date_getMonth, Date_getFullYear, Date_setFullYear, Date_getDate,
        Date_setDate.
      set (ty' := getFullYear t + (if 11 <? getMonth t + 1 then 1 else 0)).
      set (nm := Z.rem (getMonth t + 1) 12).
      set (t1 := setFullYear t ty' nm 1).
      set (last := fromYMD ty' (nm + 1) 0).
      exists [last]. apply seq_ret_run with (a := tt).
      assert (Hlast : dates (set_dates (ds ++ [t; t1; last]) w) !! S (S (length ds)) = Some last)
        by apply lookup_fresh_2.
      assert (Hn3 : dates (set_dates (ds ++ [t; t1; last]) w) !! S (length ds) = Some t1)
        by apply lookup_fresh_1.
      rewrite (bind_run _ _ _ _ _ (Date_get_run getMonth _ _ _ Hc)).
      rewrite (bind_run _ _ _ _ _ (Date_get_run getFullYear _ _ _ Hc)).
      fold ty' nm.
      rewrite (bind_run _ _ _ _ _
                 (Date_set_run (fun x => setFullYear x ty' nm 1) _ _ _ Hn)).
      rewrite (bind_run _ _ _ _ _ (Date_ymd_run _ _ _ _)).
      cbn [dates set_dates w2]. rewrite insert_fresh_1.
      rewrite length_snoc_2, <- app_assoc. cbn [app]. fold t1 last.
      change (set_dates (ds ++ [t; t1; last]) (set_dates (ds ++ [t; t1]) w2))
        with (set_dates (ds ++ [t; t1; last]) w).
      rewrite (bind_run _ _ _ _ _ (Date_get_run getDate _ _ _ Hlast)).
      rewrite (bind_run _ _ _ _ _
                 (Date_set_run (fun x => setDate x (Z.min rd (getDate last))) _ _ _ Hn3)).
      cbn [dates set_dates]. rewrite insert_fresh_1. reflexivity.
    - exists []. apply seq_ret_run with (a := tt). unfold Date_getMonth, Date_setMonth.
      rewrite (bind_run _ _ _ _ _ (Date_get_run getMonth _ _ _ Hc)).
      rewrite (bind_run _ _ _ _ _
                 (Date_set_run (fun x => setMonth x (getMonth t + or_1 (recurringInterval task)))
                    _ _ _ Hn)).
      cbn [dates set_dates w2]. now rewrite insert_fresh_1. }
  destruct (ty =? "custom")%string.
  { exists []. exact (seq_ret_run _ _ _ _ _ (Hmove _)). }
  exists []. exact Hnone.
Qed.

(** ** createNotification *)

(** [createNotification] catches its own failures: it returns the
    notification or null, never throws, and leaves the dates and the tasks
    as they are. *)
Lemma createNotification_run (userId : ObjectId) (message type : string)
    (entityId : option ObjectId) (w : World) :
  exists r w',
    createNotification userId message type entityId w = (Ok r, w')
    /\ dates w' = dates w /\ tasks w' = tasks w
    /\ next_oid w' = S (next_oid w).
Proof.
  unfold createNotification, Notification_save, io_emit, console_error, console_log,
    fault_point, fresh_oid, try_catch, bind, ret.
  cbn. destruct (faults w) as [|[] [|[] fs]]; cbn;
    (do 2 eexists; split; [reflexivity | cbn; auto]).
Qed.

(** What [createNotification] does when neither the save nor the emit
    fails. *)
Lemma createNotification_ok (userId : ObjectId) (message type : string)
    (entityId : option ObjectId) (w : World) :
  (forall b, In b (firstn 2 (faults w)) -> b = false) ->
  let n := mkNotification (next_oid w) userId message type entityId in
  let w' := exec (createNotification userId message type entityId) w in
  result (createNotification userId message type entityId) w = Ok (Some n)
  /\ notifications w' = notifications w ++ [n]
  /\ emitted w' = emitted w ++ [(userId, n)]
  /\ console w' = console w.
Proof.
  intros Hf. unfold exec, result, createNotification, Notification_save, io_emit,
    console_error, console_log, fault_point, fresh_oid, try_catch, bind, ret.
  cbn. destruct (faults w) as [|b1 [|b2 fs]]; cbn in *.
  - auto.
  - rewrite (Hf b1) by auto. cbn. auto.
  - rewrite (Hf b1), (Hf b2) by auto. cbn. auto.
Qed.

(** ** createRecurringTaskInstance, step by step *)

Lemma Date_gt_run (a b : loc) (x y : Z) (w : World) :
  dates w !! a = Some x -> dates w !! b = Some y ->
  Date_gt a b w = (Ok (y <? x), w).
Proof.
  intros Ha Hb. unfold Date_gt.
  rewrite (bind_run _ _ _ _ _ (readDate_run _ _ _ Ha)).
  now rewrite (bind_run _ _ _ _ _ (readDate_run _ _ _ Hb)).
Qed.

(** Whether the next occurrence of a task lies after its end date. *)
Lemma past_end_run (parentTask : ITask) (new : loc) (next : Z) (w : World) (ds : list Z) :
  (forall e, recurringEndDate parentTask = Some e -> is_Some (ds !! e)) ->
  dates w !! new = Some next ->
  (forall e v, ds !! e = Some v -> dates w !! e = Some v) ->
  match recurringEndDate parentTask with
  | Some endDate => Date_gt new endDate
  | None => ret false
  end w
  = (Ok (match end_time ds parentTask with Some ev => ev <? next | None => false end), w).
Proof.
  intros Hend Hnew Hold. unfold end_time.
  destruct (recurringEndDate parentTask) as [e|]; [|reflexivity].
  destruct (Hend e eq_refl) as [ev Hev]. rewrite Hev.
  apply Date_gt_run; auto.
Qed.

(** The state after the instance is saved, and the whole effect of
    [createRecurringTaskInstance] on a well-formed parent. *)
Lemma createRecurringTaskInstance_run (parentTask : ITask) (w : World) (t : Z) :
  dates w !! dueDate parentTask = Some t ->
  (forall e, recurringEndDate parentTask = Some e -> is_Some (dates w !! e)) ->
  let next := nextDueTime parentTask t in
  let inst := new_instance parentTask (next_oid w) (S (length (dates w))) in
  exists extra,
    let w1 := set_dates (dates w ++ [t; next] ++ extra) w in
    let w2 := set_next_oid (S (next_oid w)) w1 in
    let w3 := set_tasks (tasks w ++ [inst]) (set_faults (tail (faults w)) w2) in
    createRecurringTaskInstance parentTask w
    = if match end_time (dates w) parentTask with Some ev => ev <? next | None => false end
      then (Ok None, w1)
      else if head (faults w) is Some true
      then (Ok None,
            set_console
              (console w ++ [Log_error "Error creating recurring task instance:" StorageError])
              (set_faults (tail (faults w)) w2))
      else (Ok (Some inst),
            if (assignedTo parentTask =? createdBy parentTask)%nat then w3
            else exec (createNotification (assignedTo parentTask)
                         ("New recurring task: " ++ title parentTask)%string
                         "task_assigned" (Some (next_oid w))) w3).
Proof.
  intros Ht Hend next inst.
  destruct (calculateNextDueDate_run parentTask w t Ht) as [extra Hcalc].
  exists extra. cbv zeta.
  set (w1 := set_dates (dates w ++ [t; next] ++ extra) w) in *.
  unfold createRecurringTaskInstance, try_catch.
  rewrite (bind_run _ _ _ _ _ Hcalc).
  assert (Hnew : dates w1 !! S (length (dates w)) = Some next) by apply lookup_fresh_1.
  assert (Hold : forall e v, dates w !! e = Some v -> dates w1 !! e = Some v)
    by (intros e v He; now apply lookup_old).
  rewrite (bind_run _ _ _ _ _ (past_end_run parentTask _ next w1 (dates w) Hend Hnew Hold)).
  destruct (match end_time (dates w) parentTask with Some ev => ev <? next | None => false end);
    [reflexivity|].
  unfold bind at 1. unfold fresh_oid at 1.
  change (next_oid w1) with (next_oid w). fold inst.
  unfold Task_save, fault_point, bind at 1 2 3.
  change (faults (set_next_oid (S (next_oid w)) w1)) with (faults w).
  destruct (head (faults w)) as [[]|]; [reflexivity| |];
    cbn [assignedTo createdBy inst new_instance negb _id title];
    (destruct (assignedTo parentTask =? createdBy parentTask)%nat; cbn [negb]; [reflexivity|]);
    unfold bind at 1 2; unfold exec;
    match goal with
    | |- context [createNotification ?u ?m ?ty ?e ?w0] =>
      destruct (createNotification_run u m ty e w0) as (r & w' & Hn & _)
    end;
    cbn in Hn |- *; rewrite Hn; reflexivity.
Qed.

(** ** Generation only grows the world *)

Lemma end_time_prefix (ds ds' : list Z) (task : ITask) :
  wf_task ds task -> ds `prefix_of` ds' -> end_time ds' task = end_time ds task.
Proof.
  intros [_ Hend] Hp. unfold end_time.
  destruct (recurringEndDate task) as [e|]; [|reflexivity].
  destruct (Hend e eq_refl) as [v Hv]. rewrite Hv.
  exact (prefix_lookup_Some _ _ _ _ Hv Hp).
Qed.

Lemma wf_task_prefix (ds ds' : list Z) (task : ITask) :
  wf_task ds task -> ds `prefix_of` ds' -> wf_task ds' task.
Proof.
  intros [[t Ht] Hend] Hp. split.
  - exists t. exact (prefix_lookup_Some _ _ _ _ Ht Hp).
  - intros e He. destruct (Hend e He) as [v Hv]. exists v.
    exact (prefix_lookup_Some _ _ _ _ Hv Hp).
Qed.

Lemma generated_from_prefix (ds0 ds ds' : list Z) (parent inst : ITask) :
  wf_task ds0 parent -> ds0 `prefix_of` ds -> ds `prefix_of` ds' ->
  generated_from ds parent inst -> generated_from ds' parent inst.
Proof.
  intros Hwf H0 Hp (Hinst & t & Ht & Hnext & Hend). split; [exact Hinst|].
  exists t. repeat split.
  - exact (prefix_lookup_Some _ _ _ _ Ht Hp).
  - exact (prefix_lookup_Some _ _ _ _ Hnext Hp).
  - intros ev Hev. apply Hend.
    rewrite <- Hev. symmetry. apply end_time_prefix; [|exact Hp].
    exact (wf_task_prefix _ _ _ Hwf H0).
Qed.

Lemma wf_world_In (w : World) (task : ITask) :
  wf_world w -> In task (tasks w) -> wf_task (dates w) task.
Proof. unfold wf_world. rewrite Forall_forall. intros H Hin. apply H. now apply list_elem_of_In. Qed.

Lemma grows_refl (w : World) : grows w w.
Proof. split; [reflexivity|]. exists []. now rewrite app_nil_r. Qed.

(** A step that allocates dates or mutates dates it allocated, and saves
    no task. *)
Lemma grows_alloc (w0 w w' : World) :
  wf_world w0 -> grows w0 w ->
  dates w `prefix_of` dates w' -> tasks w' = tasks w -> grows w0 w'.
Proof.
  intros Hwf [Hp (ts & Hts & Hgen)] Hp' Htasks. split; [now transitivity (dates w)|].
  exists ts. split; [congruence|].
  eapply Forall_impl; [exact Hgen|]. cbv beta. intros inst (parent & Hin & Hg).
  exists parent. split; [exact Hin|].
  exact (generated_from_prefix _ _ _ _ _ (wf_world_In _ _ Hwf Hin) Hp Hp' Hg).
Qed.

(** A step that also saves an instance generated from a task of [w0]. *)
Lemma grows_save (w0 w w' : World) (parent inst : ITask) :
  wf_world w0 -> grows w0 w ->
  dates w `prefix_of` dates w' -> tasks w' = tasks w ++ [inst] ->
  In parent (tasks w0) -> generated_from (dates w') parent inst -> grows w0 w'.
Proof.
  intros Hwf [Hp (ts & Hts & Hgen)] Hp' Htasks Hin Hg. split; [now transitivity (dates w)|].
  exists (ts ++ [inst]). split; [rewrite Htasks, Hts; now rewrite app_assoc|].
  apply Forall_app. split.
  - eapply Forall_impl; [exact Hgen|]. cbv beta. intros i (p & Hp1 & Hp2).
    exists p. split; [exact Hp1|].
    exact (generated_from_prefix _ _ _ _ _ (wf_world_In _ _ Hwf Hp1) Hp Hp' Hp2).
  - apply Forall_singleton. now exists parent.
Qed.

Lemma createNotification_exec (userId : ObjectId) (message type : string)
    (entityId : option ObjectId) (w : World) :
  let w' := exec (createNotification userId message type entityId) w in
  dates w' = dates w /\ tasks w' = tasks w /\ next_oid w' = S (next_oid w).
Proof.
  destruct (createNotification_run userId message type entityId w) as (r & w' & E & H).
  unfold exec. rewrite E. exact H.
Qed.

(** One call of [createRecurringTaskInstance] on a task of the initial
    world: it returns (it does not throw), and the world has grown by the
    dates it allocated and at most the instance it returns. *)
Lemma createRecurringTaskInstance_grows (w0 w : World) (parent : ITask) :
  wf_world w0 -> In parent (tasks w0) -> grows w0 w ->
  exists r w',
    createRecurringTaskInstance parent w = (Ok r, w')
    /\ grows w0 w'
    /\ dates w `prefix_of` dates w'
    /\ match r with
       | None => tasks w' = tasks w
       | Some inst => tasks w' = tasks w ++ [inst] /\ generated_from (dates w') parent inst
       end.
Proof.
  intros Hwf Hin Hg.
  pose proof (wf_task_prefix _ _ _ (wf_world_In _ _ Hwf Hin) (proj1 Hg)) as Hwfp.
  destruct Hwfp as [[t Ht] Hend].
  destruct (createRecurringTaskInstance_run parent w t Ht Hend) as [extra Hrun].
  cbv zeta in Hrun. rewrite Hrun. clear Hrun.
  set (next := nextDueTime parent t).
  set (inst := new_instance parent (next_oid w) (S (length (dates w)))).
  set (ds' := dates w ++ [t; next] ++ extra).
  assert (Hp : dates w `prefix_of` ds') by now exists ([t; next] ++ extra).
  destruct (match end_time (dates w) parent with Some ev => ev <? next | None => false end)
    eqn:Epast.
  { do 2 eexists. split; [reflexivity|]. cbn [dates tasks set_dates].
    split; [|split; [exact Hp | reflexivity]].
    apply (grows_alloc w0 w); auto. }
  destruct (head (faults w)) as [[]|] eqn:Ef.
  { do 2 eexists. split; [reflexivity|]. cbn [dates tasks set_dates set_console set_faults set_next_oid].
    split; [|split; [exact Hp | reflexivity]].
    apply (grows_alloc w0 w); auto. }
  all: set (w3 := set_tasks (tasks w ++ [inst])
                    (set_faults (tail (faults w))
                       (set_next_oid (S (next_oid w)) (set_dates ds' w)))).
  all: set (W := if (assignedTo parent =? createdBy parent)%nat then w3
                 else exec (createNotification (assignedTo parent)
                              ("New recurring task: " ++ title parent)%string
                              "task_assigned" (Some (next_oid w))) w3).
  all: assert (HW : dates W = ds' /\ tasks W = tasks w ++ [inst])
    by (subst W; destruct (assignedTo parent =? createdBy parent)%nat;
        [split; reflexivity |
         destruct (createNotification_exec (assignedTo parent)
                     ("New recurring task: " ++ title parent)%string
                     "task_assigned" (Some (next_oid w)) w3) as (Hd & Htk & _);
         split; [rewrite Hd | rewrite Htk]; reflexivity]).
  all: destruct HW as [HWd HWt].
  all: assert (Hgen : generated_from (dates W) parent inst)
    by (rewrite HWd; split; [now exists (next_oid w)|]; exists t; repeat split;
        [ now apply lookup_old
        | apply lookup_fresh_1
        | intros ev Hev;
          rewrite (end_time_prefix (dates w) ds' parent (conj (ex_intro _ t Ht) Hend) Hp) in Hev;
          rewrite Hev in Epast; lia ]).
  all: exists (Some inst), W; split; [reflexivity|];
    split; [|split; [rewrite HWd; exact Hp | split; [exact HWt | exact Hgen]]];
    apply (grows_save w0 w W parent inst); auto; rewrite HWd; exact Hp.
Qed.

(** ** The two passes *)

(** [createRecurringTaskInstance] catches whatever its body throws. *)
Lemma createRecurringTaskInstance_total (parentTask : ITask) (w : World) :
  exists r w', createRecurringTaskInstance parentTask w = (Ok r, w').
Proof.
  unfold createRecurringTaskInstance, try_catch.
  match goal with |- context [match ?m w with _ => _ end] => destruct (m w) as [[r|e] w'] end.
  - now exists r, w'.
  - now exists None, (set_console
                        (console w' ++ [Log_error "Error creating recurring task instance:" e]) w').
Qed.

Lemma Task_find_run (query : ITask -> bool) (w : World) :
  Task_find query w
  = if head (faults w) is Some true
    then (Thrown StorageError, set_faults (tail (faults w)) w)
    else (Ok (List.filter query (tasks w)), set_faults (tail (faults w)) w).
Proof.
  unfold Task_find, bind, fault_point. cbv zeta. now destruct (head (faults w)) as [[]|].
Qed.

(** The loop of the completed-parent pass attempts every task, each on the
    world the attempts before it left. *)
Lemma completed_loop_run (l : list ITask) : forall w : World,
  for_of l (fun task (_ : unit) => createRecurringTaskInstance task ;; ret tt) tt w
  = (Ok tt, fold_left (fun w task => exec (createRecurringTaskInstance task) w) l w).
Proof.
  induction l as [|task l IH]; intros w; [reflexivity|].
  cbn [for_of fold_left].
  destruct (createRecurringTaskInstance_total task w) as (r & w' & E).
  unfold exec at 2. rewrite E. cbn [snd].
  rewrite (bind_run _ _ _ _ tt (seq_ret_run _ tt _ _ _ E)). apply IH.
Qed.

Lemma completed_loop_grows (w0 : World) (l : list ITask) :
  wf_world w0 -> (forall task, In task l -> In task (tasks w0)) ->
  forall w, grows w0 w ->
  grows w0 (fold_left (fun w task => exec (createRecurringTaskInstance task) w) l w).
Proof.
  intros Hwf. induction l as [|task l IH]; intros Hl w Hg; [exact Hg|].
  cbn [fold_left]. apply IH; [intros x Hx; apply Hl; now right|].
  destruct (createRecurringTaskInstance_grows w0 w task Hwf (Hl task (or_introl eq_refl)) Hg)
    as (r & w' & E & Hg' & _).
  unfold exec. now rewrite E.
Qed.

(** The completed-parent pass, as a function of the world. *)
Lemma processCompletedRecurringTasks_run (w : World) :
  let w1 := set_faults (tail (faults w)) w in
  let found := List.filter (fun t => isRecurring t && Status_eqb (status t) completed) (tasks w) in
  processCompletedRecurringTasks w
  = if head (faults w) is Some true
    then (Ok tt, set_console
                   (console w ++ [Log_error "Error processing recurring tasks:" StorageError]) w1)
    else
      let w2 := fold_left (fun w task => exec (createRecurringTaskInstance task) w) found w1 in
      (Ok tt, set_console (console w2 ++ [Log_processed (length found)]) w2).
Proof.
  cbv zeta. unfold processCompletedRecurringTasks, try_catch.
  unfold bind at 1. rewrite Task_find_run.
  destruct (head (faults w)) as [[]|]; [reflexivity| |];
    unfold bind at 1; rewrite completed_loop_run; reflexivity.
Qed.

Lemma filter_In_tasks (q : ITask -> bool) (l : list ITask) (task : ITask) :
  In task (List.filter q l) -> In task l /\ q task = true.
Proof. apply filter_In. Qed.

Lemma grows_same (w0 w w' : World) :
  grows w0 w -> dates w' = dates w -> tasks w' = tasks w -> grows w0 w'.
Proof. unfold grows. intros H Hd Ht. now rewrite Hd, Ht. Qed.

Lemma processCompletedRecurringTasks_grows (w0 w : World) :
  wf_world w0 -> grows w0 w ->
  (forall task, In task (tasks w) -> isRecurring task = true -> In task (tasks w0)) ->
  grows w0 (exec processCompletedRecurringTasks w).
Proof.
  intros Hwf Hg Hrec. unfold exec. rewrite processCompletedRecurringTasks_run.
  destruct (head (faults w)) as [[]|]; cbn [snd];
    try (apply (grows_same w0 w); [exact Hg | reflexivity | reflexivity]).
  all: eapply grows_same; [|reflexivity|reflexivity].
  all: apply completed_loop_grows;
    [ exact Hwf
    | intros task Ht; apply filter_In_tasks in Ht as [Ht Hq];
      apply andb_true_iff in Hq as [Hq _]; now apply Hrec
    | apply (grows_same w0 w); [exact Hg | reflexivity | reflexivity] ].
Qed.

Lemma insert_last (h : list Z) (a v : Z) : <[length h := v]> (h ++ [a]) = h ++ [v].
Proof.
  replace (length h) with (length h + 0)%nat by lia. now rewrite insert_app_r.
Qed.

Lemma Task_countDocuments_run (id : ObjectId) (gte lt : loc) (lo hi : Z) (w : World) :
  dates w !! gte = Some lo -> dates w !! lt = Some hi ->
  Task_countDocuments id gte lt w
  = if head (faults w) is Some true
    then (Thrown StorageError, set_faults (tail (faults w)) w)
    else (Ok (length (List.filter (instance_on_day (dates w) id lo hi) (tasks w))),
          set_faults (tail (faults w)) w).
Proof.
  intros Hlo Hhi. unfold Task_countDocuments, fault_point. unfold bind at 1. cbv zeta.
  destruct (head (faults w)) as [[]|]; [reflexivity| |];
    (rewrite (bind_run _ _ _ _ _ (readDate_run gte lo (set_faults (tail (faults w)) w) Hlo));
     rewrite (bind_run _ _ _ _ _ (readDate_run lt hi (set_faults (tail (faults w)) w) Hhi));
     reflexivity).
Qed.

(** The body of the loop of the upcoming-root pass: the day window of the
    next due date, the count of the instances in it, and the call of
    [createRecurringTaskInstance] when there is none.  A failure of the
    count is not caught here. *)
Lemma upcoming_body_run (task : ITask) (createdCount : Z) (w : World) (t : Z) :
  dates w !! dueDate task = Some t ->
  let lo := setHours0 (nextDueTime task t) in
  let hi := lo + 1 * msPerDay in
  exists extra,
    let ds' := dates w ++ [t; lo] ++ extra ++ [lo; lo; hi] in
    let w' := set_faults (tail (faults w)) (set_dates ds' w) in
    upcoming_body task createdCount w
    = if head (faults w) is Some true then (Thrown StorageError, w')
      else if (length (List.filter (instance_on_day ds' (_id task) lo hi) (tasks w)) =? 0)%nat
      then (newInstance <- createRecurringTaskInstance task ;;
            ret (if newInstance is Some _ then createdCount + 1 else createdCount)) w'
      else (Ok createdCount, w').
Proof.
  intros Ht lo hi.
  destruct (calculateNextDueDate_run task w t Ht) as [extra Hcalc].
  exists extra. cbv zeta. unfold upcoming_body.
  rewrite (bind_run _ _ _ _ _ Hcalc).
  set (ds := dates w) in *. set (next := nextDueTime task t) in *.
  assert (Hn : dates (set_dates (ds ++ [t; next] ++ extra) w) !! S (length ds) = Some next)
    by apply lookup_fresh_1.
  unfold Date_setHours0.
  rewrite (bind_run _ _ _ _ _ (Date_set_run setHours0 _ _ _ Hn)).
  cbn [dates set_dates app]. rewrite insert_fresh_1. fold lo.
  set (h2 := ds ++ t :: lo :: extra).
  unfold bind at 1, Date_new at 1. cbn [dates set_dates].
  erewrite bind_run; [|apply Date_copy_run; cbn [dates set_dates]; apply lookup_fresh_0].
  cbn [dates set_dates].
  erewrite bind_run; [|apply Date_copy_run; cbn [dates set_dates]; rewrite <- app_assoc;
                       apply lookup_fresh_0].
  cbn [dates set_dates].
  set (h3 := h2 ++ [lo]). set (h4 := h3 ++ [lo]).
  unfold Date_getDate, Date_setDate.
  erewrite bind_run; [|apply (Date_get_run getDate); cbn [dates set_dates]; apply lookup_fresh_0].
  erewrite bind_run; [|apply (Date_set_run (fun x => setDate x (getDate lo + 1)));
                       cbn [dates set_dates]; apply lookup_fresh_0].
  cbn [dates set_dates]. rewrite insert_last, setDate_add. fold hi.
  assert (Eds : h4 ++ [hi] = ds ++ [t; lo] ++ extra ++ [lo; lo; hi])
    by (subst h4 h3 h2; cbn [app]; rewrite <- !app_assoc; reflexivity).
  assert (Hlo : (h4 ++ [hi]) !! length h3 = Some lo)
    by (subst h4; rewrite <- app_assoc; apply lookup_fresh_0).
  assert (Hhi : (h4 ++ [hi]) !! length h4 = Some hi) by apply lookup_fresh_0.
  unfold bind at 1.
  rewrite (Task_countDocuments_run _ _ _ lo hi); [|exact Hlo|exact Hhi].
  cbn [dates set_dates faults tasks]. rewrite Eds.
  destruct (head (faults w)) as [[]|]; [reflexivity| |];
    unfold bind at 1;
    (destruct (length (List.filter _ (tasks w)) =? 0)%nat; reflexivity).
Qed.

Lemma upcoming_body_grows (w0 w : World) (task : ITask) (createdCount : Z) :
  wf_world w0 -> In task (tasks w0) -> grows w0 w ->
  grows w0 (exec (upcoming_body task createdCount) w).
Proof.
  intros Hwf Hin Hg.
  destruct (wf_task_prefix _ _ _ (wf_world_In _ _ Hwf Hin) (proj1 Hg)) as [[t Ht] _].
  destruct (upcoming_body_run task createdCount w t Ht) as [extra Hrun].
  cbv zeta in Hrun. unfold exec. rewrite Hrun. clear Hrun.
  set (lo := setHours0 (nextDueTime task t)). set (hi := lo + 1 * msPerDay).
  set (ds' := dates w ++ [t; lo] ++ extra ++ [lo; lo; hi]).
  set (w' := set_faults (tail (faults w)) (set_dates ds' w)).
  assert (Hg' : grows w0 w').
  { apply (grows_alloc w0 w); auto. now exists ([t; lo] ++ extra ++ [lo; lo; hi]). }
  destruct (head (faults w)) as [[]|]; [exact Hg'| |];
    (destruct (length _ =? 0)%nat; [|exact Hg']);
    destruct (createRecurringTaskInstance_grows w0 w' task Hwf Hin Hg') as (r & w'' & E & Hg'' & _);
    rewrite (bind_run _ _ _ _ _ E); exact Hg''.
Qed.

(** A property every iteration preserves holds when the loop ends,
    normally or by an exception. *)
Lemma for_of_invariant {A S} (P : World -> Prop) (l : list A) (body : A -> S -> M S) :
  (forall x, In x l -> forall s w, P w -> P (exec (body x s) w)) ->
  forall s w, P w -> P (exec (for_of l body s) w).
Proof.
  induction l as [|x l IH]; intros Hbody s w Hw; [exact Hw|].
  pose proof (Hbody x (or_introl eq_refl) s w Hw) as Hx.
  unfold exec in *. cbn [for_of]. unfold bind.
  destruct (body x s w) as [[s'|e] w1]; [|exact Hx].
  apply IH; [intros y Hy; apply Hbody; now right | exact Hx].
Qed.

(** The upcoming-root pass, as a function of the world. *)
Lemma generateUpcomingRecurringTasks_run (w : World) :
  let w1 := set_faults (tail (faults w)) w in
  let found :=
    List.filter (fun t => isRecurring t && negb (bool_decide (is_Some (parentTaskId t))))
      (tasks w) in
  generateUpcomingRecurringTasks w
  = if head (faults w) is Some true
    then (Ok tt, set_console
                   (console w ++ [Log_error "Error generating upcoming recurring tasks:"
                                    StorageError]) w1)
    else
      match for_of found upcoming_body 0 w1 with
      | (Ok createdCount, w2) =>
        (Ok tt, set_console (console w2 ++ [Log_created createdCount]) w2)
      | (Thrown e, w2) =>
        (Ok tt, set_console
                  (console w2 ++ [Log_error "Error generating upcoming recurring tasks:" e]) w2)
      end.
Proof.
  cbv zeta. unfold generateUpcomingRecurringTasks, try_catch.
  unfold bind at 1. rewrite Task_find_run.
  destruct (head (faults w)) as [[]|]; [reflexivity| |];
    unfold bind at 1;
    match goal with |- context [for_of ?l ?b ?s ?w1] => destruct (for_of l b s w1) as [[c|e] w2] end;
    reflexivity.
Qed.

Lemma generateUpcomingRecurringTasks_grows (w0 w : World) :
  wf_world w0 -> grows w0 w ->
  (forall task, In task (tasks w) -> isRecurring task = true -> In task (tasks w0)) ->
  grows w0 (exec generateUpcomingRecurringTasks w).
Proof.
  intros Hwf Hg Hrec. unfold exec. rewrite generateUpcomingRecurringTasks_run. cbv zeta.
  set (w1 := set_faults (tail (faults w)) w).
  assert (Hg1 : grows w0 w1) by (apply (grows_same w0 w); [exact Hg | reflexivity | reflexivity]).
  destruct (head (faults w)) as [[]|];
    try (apply (grows_same w0 w1); [exact Hg1 | reflexivity | reflexivity]).
  all: match goal with
       | |- context [for_of ?l upcoming_body 0 ?w1'] =>
         assert (Hloop : grows w0 (exec (for_of l upcoming_body 0) w1'))
           by (apply for_of_invariant; [|exact Hg1];
               intros task Ht s w' Hw'; apply upcoming_body_grows; [exact Hwf| |exact Hw'];
               apply filter_In_tasks in Ht as [Ht Hq];
               apply andb_true_iff in Hq as [Hq _]; now apply Hrec);
         unfold exec in Hloop; destruct (for_of l upcoming_body 0 w1') as [[c|e] w2]
       end.
  all: cbn [snd] in *; apply (grows_same w0 w2); [exact Hloop | reflexivity | reflexivity].
Qed.

(** The cron job runs the two passes one after the other; neither throws. *)
Lemma cron_job_run (w : World) :
  cron_job w
  = (Ok tt,
     exec generateUpcomingRecurringTasks
       (exec processCompletedRecurringTasks
          (set_console (console w ++ [Log_running]) w))).
Proof.
  unfold cron_job, console_log, try_catch. unfold bind at 1.
  set (w1 := set_console (console w ++ [Log_running]) w).
  assert (H1 : processCompletedRecurringTasks w1
               = (Ok tt, exec processCompletedRecurringTasks w1)).
  { unfold exec. rewrite processCompletedRecurringTasks_run. cbv zeta.
    now destruct (head (faults w1)) as [[]|]. }
  rewrite (bind_run _ _ _ _ _ H1).
  set (w2 := exec processCompletedRecurringTasks w1).
  unfold exec at 1. rewrite generateUpcomingRecurringTasks_run. cbv zeta.
  destruct (head (faults w2)) as [[]|]; try reflexivity;
    destruct (for_of _ upcoming_body 0 _) as [[c|e] w3]; reflexivity.
Qed.

(** A generated instance is not recurring, so the recurring tasks of a
    grown world are those of the initial one. *)
Lemma grows_recurring (w0 w : World) (task : ITask) :
  grows w0 w -> In task (tasks w) -> isRecurring task = true -> In task (tasks w0).
Proof.
  intros (_ & ts & Hts & Hgen) Hin Hrec. rewrite Hts in Hin.
  apply in_app_or in Hin as [Hin | Hin]; [exact Hin|].
  rewrite Forall_forall in Hgen. apply list_elem_of_In in Hin.
  destruct (Hgen _ Hin) as (parent & _ & (oid & Hinst) & _).
  rewrite Hinst in Hrec. discriminate Hrec.
Qed.

Lemma cron_job_grows (w : World) : wf_world w -> grows w (exec cron_job w).
Proof.
  intros Hwf. unfold exec at 1. rewrite cron_job_run. cbn [snd].
  set (w1 := set_console (console w ++ [Log_running]) w).
  assert (Hg1 : grows w w1) by (apply (grows_same w w); [apply grows_refl | reflexivity | reflexivity]).
  assert (Hg2 : grows w (exec processCompletedRecurringTasks w1))
    by (apply processCompletedRecurringTasks_grows; [exact Hwf | exact Hg1 | now intros]).
  apply generateUpcomingRecurringTasks_grows; [exact Hwf | exact Hg2|].
  intros task Hin Hrec. exact (grows_recurring _ _ _ Hg2 Hin Hrec).
Qed.

Lemma grows_preserves (w w' : World) : grows w w' -> preserves w w'.
Proof.
  intros (Hp & ts & Hts & _). split; [now exists ts|].
  intros r v Hr. exact (prefix_lookup_Some _ _ _ _ Hr Hp).
Qed.

Lemma grows_within_end_dates (w w' : World) :
  wf_world w -> grows w w' -> within_end_dates w w'.
Proof.
  intros Hwf (Hp & ts & Hts & Hgen). exists ts. split; [exact Hts|].
  eapply Forall_impl; [exact Hgen|]. cbv beta.
  intros inst (parent & Hin & (oid & Hinst) & t & Ht & Hnext & Hend).
  exists parent, (nextDueTime parent t). repeat split; auto.
  - rewrite Hinst. reflexivity.
  - intros ev Hev. apply Hend. rewrite <- Hev.
    apply end_time_prefix; [|exact Hp]. exact (wf_world_In _ _ Hwf Hin).
Qed.

Lemma createRecurringTaskInstance_grows_0 (w : World) (parent : ITask) :
  wf_world w -> In parent (tasks w) ->
  grows w (exec (createRecurringTaskInstance parent) w).
Proof.
  intros Hwf Hin.
  destruct (createRecurringTaskInstance_grows w w parent Hwf Hin (grows_refl w))
    as (r & w' & E & Hg & _).
  unfold exec. now rewrite E.
Qed.

Lemma processCompletedRecurringTasks_grows_0 (w : World) :
  wf_world w -> grows w (exec processCompletedRecurringTasks w).
Proof.
  intros Hwf. apply processCompletedRecurringTasks_grows; [exact Hwf | apply grows_refl | now intros].
Qed.

Lemma generateUpcomingRecurringTasks_grows_0 (w : World) :
  wf_world w -> grows w (exec generateUpcomingRecurringTasks w).
Proof.
  intros Hwf. apply generateUpcomingRecurringTasks_grows; [exact Hwf | apply grows_refl | now intros].
Qed.

(** The instance [createRecurringTaskInstance] returns, when it returns
    one: the document it built, due at the next due date of the parent. *)
Lemma createRecurringTaskInstance_grows_1 (parent : ITask) (w : World) (t : Z) :
  due_time w parent = Some t ->
  (forall e, recurringEndDate parent = Some e -> is_Some (dates w !! e)) ->
  exists r w',
    createRecurringTaskInstance parent w = (Ok r, w')
    /\ match r with
       | None => True
       | Some inst =>
         inst = new_instance parent (next_oid w) (S (length (dates w)))
         /\ due_time w' inst = Some (nextDueTime parent t)
       end.
Proof.
  intros Ht Hend.
  destruct (createRecurringTaskInstance_run parent w t Ht Hend) as [extra Hrun].
  cbv zeta in Hrun. rewrite Hrun. clear Hrun.
  destruct (match end_time (dates w) parent with Some ev => _ | None => false end);
    [now do 2 eexists|].
  destruct (head (faults w)) as [[]|]; [now do 2 eexists| |];
    (do 2 eexists; split; [reflexivity|]; split; [reflexivity|]);
    (destruct (assignedTo parent =? createdBy parent)%nat;
     [|unfold due_time;
       rewrite (proj1 (createNotification_exec _ _ _ _ _))]);
    apply lookup_fresh_1.
Qed.

(** ** The recurrence end date *)

(** When the next due date lies after the end date, the function returns
    null before it touches the store. *)
Lemma createRecurringTaskInstance_past_end (parent : ITask) (w : World) (t ev : Z) :
  due_time w parent = Some t -> end_time (dates w) parent = Some ev ->
  ev < nextDueTime parent t ->
  let w' := exec (createRecurringTaskInstance parent) w in
  result (createRecurringTaskInstance parent) w = Ok None
  /\ tasks w' = tasks w /\ notifications w' = notifications w /\ emitted w' = emitted w
  /\ console w' = console w /\ faults w' = faults w.
Proof.
  intros Ht Hev Hlt.
  assert (Hend : forall e, recurringEndDate parent = Some e -> is_Some (dates w !! e)).
  { intros e He. unfold end_time in Hev. rewrite He in Hev. now exists ev. }
  destruct (createRecurringTaskInstance_run parent w t Ht Hend) as [extra Hrun].
  cbv zeta in Hrun |- *. unfold exec, result. rewrite Hrun, Hev.
  replace (ev <? nextDueTime parent t) with true by (symmetry; now apply Z.ltb_lt).
  cbn [fst snd tasks notifications emitted console faults set_dates]. repeat split.
Qed.

(** C5: when a parent has an end date and its next due date is strictly
    after it, createRecurringTaskInstance returns null, raises nothing and
    persists nothing; hence whatever a generation path adds to the store (a
    direct call, either pass of the sweep, the whole sweep) is an instance
    that is not due after the end date of its parent. *)
Theorem end_date_bounds_generation (w : World) (Hwf : wf_world w) :
  (forall parent t ev,
     due_time w parent = Some t -> end_time (dates w) parent = Some ev ->
     ev < nextDueTime parent t ->
     let w' := exec (createRecurringTaskInstance parent) w in
     result (createRecurringTaskInstance parent) w = Ok None
     /\ tasks w' = tasks w /\ notifications w' = notifications w /\ emitted w' = emitted w
     /\ console w' = console w /\ faults w' = faults w)
  /\ (forall parent, In parent (tasks w) ->
        within_end_dates w (exec (createRecurringTaskInstance parent) w))
  /\ within_end_dates w (exec processCompletedRecurringTasks w)
  /\ within_end_dates w (exec generateUpcomingRecurringTasks w)
  /\ within_end_dates w (exec cron_job w).
Proof.
  split; [intros parent t ev; apply createRecurringTaskInstance_past_end|].
  split; [intros parent Hin; apply grows_within_end_dates;
          [exact Hwf | now apply createRecurringTaskInstance_grows_0]|].
  repeat split; apply grows_within_end_dates; try exact Hwf.
  - now apply processCompletedRecurringTasks_grows_0.
  - now apply generateUpcomingRecurringTasks_grows_0.
  - now apply cron_job_grows.
Qed.

Lemma end_date_bounds_generation_witness :
  result (createRecurringTaskInstance ended_root) ended_world = Ok None
  /\ tasks (exec (createRecurringTaskInstance ended_root) ended_world) = tasks ended_world
  /\ within_end_dates ended_world (exec cron_job ended_world).
Proof.
  assert (Hwf : wf_world ended_world) by wf_by_evaluation.
  destruct (end_date_bounds_generation ended_world Hwf) as (Ha & _ & _ & _ & Hd).
  destruct (Ha ended_root (utc 2024 1 1) (utc 2024 1 1) eq_refl eq_refl eq_refl)
    as (H1 & H2 & _).
  exact (conj H1 (conj H2 Hd)).
Defined.

(** ** The frame of generation *)

(** C9: no generation operation modifies a task that exists: after
    createRecurringTaskInstance and after either pass or the whole sweep,
    the tasks of the store are those there were, unchanged and in front of
    the instances added, and the dates they refer to hold the same time
    values; so the next due date computed for a task afterwards is the one
    computed before. *)
Theorem generation_preserves_tasks (w : World) (Hwf : wf_world w) :
  (forall parent, In parent (tasks w) ->
     preserves w (exec (createRecurringTaskInstance parent) w))
  /\ preserves w (exec processCompletedRecurringTasks w)
  /\ preserves w (exec generateUpcomingRecurringTasks w)
  /\ preserves w (exec cron_job w)
  /\ (forall w' task t,
        preserves w w' -> In task (tasks w) -> due_time w task = Some t ->
        In task (tasks w') /\ due_time w' task = Some t
        /\ exists r r',
             result (calculateNextDueDate task) w = Ok r
             /\ dates (exec (calculateNextDueDate task) w) !! r = Some (nextDueTime task t)
             /\ result (calculateNextDueDate task) w' = Ok r'
             /\ dates (exec (calculateNextDueDate task) w') !! r' = Some (nextDueTime task t)).
Proof.
  split; [intros parent Hin; apply grows_preserves; now apply createRecurringTaskInstance_grows_0|].
  split; [apply grows_preserves; now apply processCompletedRecurringTasks_grows_0|].
  split; [apply grows_preserves; now apply generateUpcomingRecurringTasks_grows_0|].
  split; [apply grows_preserves; now apply cron_job_grows|].
  intros w' task t [[ts Hts] Hdates] Hin Ht.
  pose proof (Hdates _ _ Ht) as Ht'.
  split; [rewrite Hts; apply in_or_app; now left|]. split; [exact Ht'|].
  destruct (calculateNextDueDate_run task w t Ht) as [extra E].
  destruct (calculateNextDueDate_run task w' t Ht') as [extra' E'].
  exists (S (length (dates w))), (S (length (dates w'))).
  unfold result, exec. rewrite E, E'. cbn [fst snd dates set_dates].
  repeat split; apply lookup_fresh_1.
Qed.

Lemma generation_preserves_tasks_witness :
  preserves weekly_world (exec cron_job weekly_world)
  /\ due_time (exec cron_job weekly_world) weekly_root = Some (utc 2024 1 1).
Proof.
  assert (Hwf : wf_world weekly_world) by wf_by_evaluation.
  destruct (generation_preserves_tasks weekly_world Hwf) as (_ & _ & _ & Hc & Hn).
  split; [exact Hc|].
  exact (proj1 (proj2 (Hn _ weekly_root (utc 2024 1 1) Hc (or_introl eq_refl) eq_refl))).
Defined.

(** ** Notifications *)

(** The outcomes of [createNotification], by the faults of its two calls
    (the save of the notification, then the emit). *)
Lemma createNotification_cases (userId : ObjectId) (message type : string)
    (entityId : option ObjectId) (w : World) :
  let n := mkNotification (next_oid w) userId message type entityId in
  let f1 := if head (faults w) is Some true then true else false in
  let f2 := if head (tail (faults w)) is Some true then true else false in
  let w' := exec (createNotification userId message type entityId) w in
  result (createNotification userId message type entityId) w
  = Ok (if f1 || f2 then None else Some n)
  /\ notifications w' = (if f1 then notifications w else notifications w ++ [n])
  /\ emitted w' = (if f1 || f2 then emitted w else emitted w ++ [(userId, n)])
  /\ console w'
     = (if f1 || f2
        then console w ++ [Log_error "Error creating notification:" StorageError]
        else console w).
Proof.
  unfold exec, result, createNotification, Notification_save, io_emit, console_error,
    console_log, fault_point, fresh_oid, try_catch, bind, ret.
  cbn. destruct (faults w) as [|[] [|[] fs]]; cbn; repeat split.
Qed.

(** Once the new instance is saved, [createRecurringTaskInstance] returns
    it, whatever happens to the notification, which is called for exactly
    when the assignee is not the creator. *)
Lemma createRecurringTaskInstance_saved (parent : ITask) (w : World) (t : Z)
    (Ht : due_time w parent = Some t)
    (Hend : forall e, recurringEndDate parent = Some e -> is_Some (dates w !! e))
    (Hnot_past : forall ev, end_time (dates w) parent = Some ev -> nextDueTime parent t <= ev)
    (Hsaved : head (faults w) <> Some true) :
  let inst := new_instance parent (next_oid w) (S (length (dates w))) in
  let w' := exec (createRecurringTaskInstance parent) w in
  let n := mkNotification (S (next_oid w)) (assignedTo parent)
             ("New recurring task: " ++ title parent)%string "task_assigned"%string
             (Some (next_oid w)) in
  let f1 := if head (tail (faults w)) is Some true then true else false in
  let f2 := if head (tail (tail (faults w))) is Some true then true else false in
  result (createRecurringTaskInstance parent) w = Ok (Some inst)
  /\ tasks w' = tasks w ++ [inst]
  /\ (assignedTo parent = createdBy parent ->
      notifications w' = notifications w /\ emitted w' = emitted w
      /\ console w' = console w /\ faults w' = tail (faults w))
  /\ (assignedTo parent <> createdBy parent ->
      notifications w' = (if f1 then notifications w else notifications w ++ [n])
      /\ emitted w' = (if f1 || f2 then emitted w else emitted w ++ [(assignedTo parent, n)])
      /\ console w'
         = (if f1 || f2
            then console w ++ [Log_error "Error creating notification:" StorageError]
            else console w)).
Proof.
  cbv zeta.
  destruct (createRecurringTaskInstance_run parent w t Ht Hend) as [extra Hrun].
  cbv zeta in Hrun. unfold exec, result. rewrite Hrun. clear Hrun.
  assert (Epast : match end_time (dates w) parent with
                  | Some ev => ev <? nextDueTime parent t
                  | None => false
                  end = false).
  { destruct (end_time (dates w) parent) as [ev|]; [|reflexivity].
    specialize (Hnot_past ev eq_refl). lia. }
  rewrite Epast.
  assert (Esave : (if head (faults w) is Some true then true else false) = false)
    by (destruct (head (faults w)) as [[]|]; congruence).
  destruct (head (faults w)) as [[]|]; [discriminate Esave| |];
    cbn [fst snd];
    (split; [reflexivity|]);
    (destruct (Nat.eqb_spec (assignedTo parent) (createdBy parent)) as [Heq | Hne];
     [ split; [reflexivity|]; split; [intros _; repeat split | intros Hne; contradiction]
     | match goal with
       | |- context [exec (createNotification ?u ?m ?ty ?e) ?w3] =>
         destruct (createNotification_exec u m ty e w3) as (_ & Htk & _);
         destruct (createNotification_cases u m ty e w3) as (_ & Hn & He & Hc)
       end;
       split; [exact Htk|]; split; [intros Heq; contradiction | intros _];
       exact (conj Hn (conj He Hc)) ]).
Qed.

(** The dates there were are still there after
    [createRecurringTaskInstance]. *)
Lemma createRecurringTaskInstance_keeps_dates (parent : ITask) (w : World) (t : Z) :
  due_time w parent = Some t ->
  (forall e, recurringEndDate parent = Some e -> is_Some (dates w !! e)) ->
  dates w `prefix_of` dates (exec (createRecurringTaskInstance parent) w).
Proof.
  intros Ht Hend.
  destruct (createRecurringTaskInstance_run parent w t Ht Hend) as [extra Hrun].
  cbv zeta in Hrun. unfold exec. rewrite Hrun. clear Hrun.
  set (ds' := dates w ++ [t; nextDueTime parent t] ++ extra).
  assert (Hp : dates w `prefix_of` ds') by now exists ([t; nextDueTime parent t] ++ extra).
  destruct (match end_time (dates w) parent with Some ev => _ | None => false end);
    [exact Hp|].
  destruct (head (faults w)) as [[]|]; cbn [snd]; try exact Hp;
    (destruct (assignedTo parent =? createdBy parent)%nat;
     [exact Hp | rewrite (proj1 (createNotification_exec _ _ _ _ _)); exact Hp]).
Qed.

(** ** The recurrence calculator *)

Lemma nextDueTime_unknown_type (task : ITask) (t : Z) :
  (forall ty, recurringType task = Some ty ->
     ty <> "daily" /\ ty <> "weekly" /\ ty <> "monthly" /\ ty <> "custom")%string ->
  nextDueTime task t = t.
Proof.
  intros H. unfold nextDueTime. destruct (recurringType task) as [ty|]; [|reflexivity].
  destruct (H ty eq_refl) as (H1 & H2 & H3 & H4).
  apply String.eqb_neq in H1, H2, H3, H4. now rewrite H1, H2, H3, H4.
Qed.

(** What [calculateNextDueDate] does to the world: it returns a date that
    did not exist, holding [nextDueTime], and leaves every date that
    existed and everything else as it was. *)
Lemma calculateNextDueDate_frame (task : ITask) (w : World) (t : Z) :
  due_time w task = Some t ->
  let w' := exec (calculateNextDueDate task) w in
  (exists r, result (calculateNextDueDate task) w = Ok r
             /\ dates w !! r = None
             /\ dates w' !! r = Some (nextDueTime task t))
  /\ (forall l v, dates w !! l = Some v -> dates w' !! l = Some v)
  /\ tasks w' = tasks w /\ notifications w' = notifications w /\ emitted w' = emitted w
  /\ console w' = console w /\ faults w' = faults w /\ next_oid w' = next_oid w.
Proof.
  intros Ht. destruct (calculateNextDueDate_run task w t Ht) as [extra E].
  cbv zeta. unfold exec, result. rewrite E. cbn [fst snd]. split.
  - exists (S (length (dates w))). split; [reflexivity|]. split.
    + apply lookup_ge_None. lia.
    + apply lookup_fresh_1.
  - split; [intros l v Hl; now apply lookup_old|]. repeat split.
Qed.

(** C10: for a task whose recurrence type is absent or is none of daily,
    weekly, monthly and custom, calculateNextDueDate returns a new date
    object that holds the time value of the task's due date, which it
    leaves as it is.  So createRecurringTaskInstance builds for such a
    parent an instance with the due date of the parent, in a date object
    of its own: it does build and store one whenever the due date is a
    valid date that is not after the end date, the parent has a title and
    a description that pass the validation of the schema, and the save
    does not fail; and whatever the storage does, an instance it returns
    has that due date. *)
Theorem unknown_type_keeps_due_date (task : ITask) (w : World) (t : Z)
    (Hwf : wf_task (dates w) task) (Ht : due_time w task = Some t)
    (Hty : forall ty, recurringType task = Some ty ->
             (ty <> "daily" /\ ty <> "weekly" /\ ty <> "monthly" /\ ty <> "custom")%string) :
  (exists r,
     result (calculateNextDueDate task) w = Ok r
     /\ r <> dueDate task
     /\ dates (exec (calculateNextDueDate task) w) !! r = Some t
     /\ dates (exec (calculateNextDueDate task) w) !! dueDate task = Some t)
  /\ (forall trim : string -> string,
        valid_time t = true -> instance_valid trim task = true ->
        past_end (dates w) task t = false ->
        head (faults w) <> Some true ->
        exists inst w',
          createRecurringTaskInstance task w = (Ok (Some inst), w')
          /\ tasks w' = tasks w ++ [inst]
          /\ inst = new_instance task (next_oid w) (dueDate inst)
          /\ due_time w' inst = Some t
          /\ dueDate inst <> dueDate task
          /\ due_time w' task = Some t)
  /\ (forall inst,
        result (createRecurringTaskInstance task) w = Ok (Some inst) ->
        due_time (exec (createRecurringTaskInstance task) w) inst = Some t
        /\ dueDate inst <> dueDate task).
Proof.
  pose proof (nextDueTime_unknown_type task t Hty) as Hnext.
  assert (Hfresh : dueDate task <> S (length (dates w))).
  { intros Heq. unfold due_time in Ht. rewrite Heq in Ht.
    rewrite lookup_ge_None_2 in Ht by lia. discriminate Ht. }
  split; [|split].
  - destruct (calculateNextDueDate_frame task w t Ht) as ((r & Hr & Hnew & Hval) & Hold & _).
    exists r. rewrite Hnext in Hval. repeat split; auto.
    intros ->. unfold due_time in Ht. congruence.
  - intros trim _ _ Hpast Hsave.
    assert (Hnp : forall ev, end_time (dates w) task = Some ev -> nextDueTime task t <= ev).
    { intros ev Hev. unfold past_end in Hpast. rewrite Hev in Hpast. lia. }
    destruct (createRecurringTaskInstance_saved task w t Ht (proj2 Hwf) Hnp Hsave)
      as (Hres & Htasks & _).
    destruct (createRecurringTaskInstance_grows_1 task w t Ht (proj2 Hwf))
      as (r & w' & E & Hcases).
    assert (Hkeep : due_time w' task = Some t).
    { pose proof (createRecurringTaskInstance_keeps_dates task w t Ht (proj2 Hwf)) as Hp.
      unfold exec in Hp. rewrite E in Hp. exact (prefix_lookup_Some _ _ _ _ Ht Hp). }
    unfold result, exec in Hres, Htasks. rewrite E in Hres, Htasks.
    cbn [fst snd] in Hres, Htasks. injection Hres as ->.
    destruct Hcases as (_ & Hval). rewrite Hnext in Hval.
    eexists _, w'. split; [exact E|]. split; [exact Htasks|].
    split; [reflexivity|]. split; [exact Hval|].
    split; [cbn [dueDate new_instance]; congruence|].
    exact Hkeep.
  - intros inst Hres.
    destruct (createRecurringTaskInstance_grows_1 task w t Ht (proj2 Hwf))
      as (r & w' & E & Hcases).
    unfold result in Hres. unfold exec. rewrite E in Hres |- *. cbn [fst snd] in *.
    injection Hres as ->. destruct Hcases as (Hinst & Hval).
    rewrite Hnext in Hval. split; [exact Hval|].
    rewrite Hinst. cbn [dueDate new_instance]. congruence.
Qed.

Lemma unknown_type_keeps_due_date_witness :
  (exists r,
     result (calculateNextDueDate yearly_root) weekly_world = Ok r
     /\ r <> dueDate yearly_root
     /\ dates (exec (calculateNextDueDate yearly_root) weekly_world) !! r = Some (utc 2024 1 1)
     /\ dates (exec (calculateNextDueDate yearly_root) weekly_world) !! dueDate yearly_root
        = Some (utc 2024 1 1))
  /\ exists inst w',
       createRecurringTaskInstance yearly_root weekly_world = (Ok (Some inst), w')
       /\ tasks w' = tasks weekly_world ++ [inst]
       /\ inst = new_instance yearly_root (next_oid weekly_world) (dueDate inst)
       /\ due_time w' inst = Some (utc 2024 1 1)
       /\ dueDate inst <> dueDate yearly_root
       /\ due_time w' yearly_root = Some (utc 2024 1 1).
Proof.
  assert (Hwf : wf_task (dates weekly_world) yearly_root)
    by (split; [eexists; reflexivity | intros e He; discriminate He]).
  assert (Hty : forall ty, recurringType yearly_root = Some ty ->
                  (ty <> "daily" /\ ty <> "weekly" /\ ty <> "monthly" /\ ty <> "custom")%string)
    by (intros ty H; injection H as <-; repeat split; discriminate).
  destruct (unknown_type_keeps_due_date yearly_root weekly_world (utc 2024 1 1) Hwf eq_refl Hty)
    as (H1 & H2 & _).
  split; [exact H1|].
  apply (H2 (fun title => title)); [reflexivity | reflexivity | reflexivity | discriminate].
Defined.

Lemma nextDueTime_interval (i j : option Z) (task : ITask) (t : Z) :
  or_1 i = or_1 j ->
  nextDueTime (with_interval i task) t = nextDueTime (with_interval j task) t.
Proof.
  intros H. unfold nextDueTime, with_interval.
  cbn [recurringType recurringInterval recurringDays recurringDate]. now rewrite H.
Qed.

(** C6 (as amended): calculateNextDueDate is total and pure on a task
    whose due date exists, where the time values it computes stay in the
    range of the time values of a Date: it returns a date it allocated,
    which is a valid date, changes no date that existed (the task's due
    date in particular), no task and nothing else of the world, and an
    interval that is unset or 0 counts as 1 in every recurrence type. *)
Theorem calculateNextDueDate_total_pure (task : ITask) (w : World) (t : Z)
    (Ht : due_time w task = Some t) (Hrange : in_range task t = true) :
  let w' := exec (calculateNextDueDate task) w in
  (exists r, result (calculateNextDueDate task) w = Ok r
             /\ dates w !! r = None
             /\ dates w' !! r = Some (nextDueTime task t)
             /\ TimeClip (nextDueTime task t) = Some (nextDueTime task t))
  /\ (forall l v, dates w !! l = Some v -> dates w' !! l = Some v)
  /\ tasks w' = tasks w /\ notifications w' = notifications w /\ emitted w' = emitted w
  /\ console w' = console w /\ faults w' = faults w /\ next_oid w' = next_oid w
  /\ (forall i, i = None \/ i = Some 0 ->
        nextDueTime (with_interval i task) t = nextDueTime (with_interval (Some 1) task) t).
Proof.
  cbv zeta.
  destruct (calculateNextDueDate_frame task w t Ht)
    as ((r & Hr & Hnew & Hval) & H2 & H3 & H4 & H5 & H6 & H7 & H8).
  split.
  { exists r. do 3 (split; [assumption|]).
    unfold in_range, computed_times in Hrange. cbn [forallb] in Hrange.
    apply andb_true_iff in Hrange as [_ Hrange].
    apply andb_true_iff in Hrange as [Hrange _].
    unfold valid_time in Hrange. unfold TimeClip in *.
    now destruct (Z.abs (nextDueTime task t) <=? maxTime). }
  refine (conj H2 (conj H3 (conj H4 (conj H5 (conj H6 (conj H7 (conj H8 _))))))).
  intros i [-> | ->]; now apply nextDueTime_interval.
Qed.

Lemma calculateNextDueDate_total_pure_witness :
  (exists r, result (calculateNextDueDate weekly_root) weekly_world = Ok r
             /\ dates weekly_world !! r = None
             /\ dates (exec (calculateNextDueDate weekly_root) weekly_world) !! r
                = Some (nextDueTime weekly_root (utc 2024 1 1))
             /\ TimeClip (nextDueTime weekly_root (utc 2024 1 1))
                = Some (nextDueTime weekly_root (utc 2024 1 1)))
  /\ tasks (exec (calculateNextDueDate weekly_root) weekly_world) = tasks weekly_world.
Proof.
  assert (Hrange : in_range weekly_root (utc 2024 1 1) = true) by (vm_compute; reflexivity).
  destruct (calculateNextDueDate_total_pure weekly_root weekly_world (utc 2024 1 1) eq_refl
              Hrange)
    as (H1 & _ & H3 & _).
  exact (conj H1 H3).
Defined.

(** The interval 200000000, which the validators and the schema accept,
    leaves the range under the daily rule: the time value computed for a
    task due on 2024-01-01 is beyond the greatest time value of a Date. *)
Example distant_interval_leaves_the_range :
  in_range distant_root (utc 2024 1 1) = false
  /\ TimeClip (nextDueTime distant_root (utc 2024 1 1)) = None
  /\ maxTime < nextDueTime distant_root (utc 2024 1 1).
Proof. vm_compute. repeat split. Qed.

(** C6, as stated, fails: an interval below 1, which the schema rejects, is
    not replaced by 1 unless it is 0; the daily rule with interval -3 moves
    the due date three days back. *)
Lemma negative_interval_not_defaulted :
  ~ (forall (i : Z) (task : ITask) (t : Z),
       i < 1 ->
       nextDueTime (with_interval (Some i) task) t
       = nextDueTime (with_interval (Some 1) task) t).
Proof.
  intros H. specialize (H (-3) backwards_root (utc 2024 1 10) eq_refl).
  vm_compute in H. discriminate H.
Qed.

Example backwards_root_next :
  nextDueTime backwards_root (utc 2024 1 10) = utc 2024 1 7.
Proof. vm_compute. reflexivity. Qed.

(** *** The weekly rule *)

(** The first element a filter keeps of a sorted list is the least element
    of the list that passes the test. *)
Lemma filter_head_sorted (p : Z -> bool) (l : list Z) :
  StronglySorted Z.le l ->
  forall x f, List.filter p l = x :: f ->
  p x = true /\ In x l /\ forall d, In d l -> p d = true -> x <= d.
Proof.
  induction 1 as [|a l Hs IH Ha]; intros x f Hf; [discriminate Hf|].
  cbn [List.filter] in Hf. destruct (p a) eqn:Epa.
  - injection Hf as <- _. split; [exact Epa|]. split; [now left|].
    intros d [<- | Hd] _; [lia|]. rewrite List.Forall_forall in Ha. now apply Ha.
  - destruct (IH x f Hf) as (Hpx & Hin & Hmin). split; [exact Hpx|]. split; [now right|].
    intros d [<- | Hd] Hpd; [congruence | now apply Hmin].
Qed.

Lemma filter_nil_none (p : Z -> bool) (l : list Z) :
  List.filter p l = [] -> forall d, In d l -> p d = false.
Proof.
  induction l as [|a l IH]; intros Hf d Hd; [destruct Hd|].
  cbn [List.filter] in Hf. destruct (p a) eqn:Epa; [discriminate Hf|].
  destruct Hd as [<- | Hd]; [exact Epa | now apply IH].
Qed.

(** The weekly rule on days listed in ascending order: the result is the
    least listed weekday after the weekday of [t], in the same week, when
    there is one, and otherwise the least listed weekday, in the week
    after. *)
Lemma weekly_on_days_sorted (t firstDay : Z) (otherDays : list Z) :
  let days := firstDay :: otherDays in
  let wd := getDay t in
  StronglySorted Z.le days ->
  (forall d, In d days -> 0 <= d <= 6) ->
  (forall nd, In nd days -> wd < nd -> (forall d, In d days -> wd < d -> nd <= d) ->
     weekly_on_days t firstDay otherDays = t + (nd - wd) * msPerDay
     /\ getDay (weekly_on_days t firstDay otherDays) = nd)
  /\ ((forall d, In d days -> d <= wd) ->
      weekly_on_days t firstDay otherDays = t + (7 - wd + firstDay) * msPerDay
      /\ getDay (weekly_on_days t firstDay otherDays) = firstDay
      /\ forall d, In d days -> firstDay <= d).
Proof.
  intros days wd Hs Hr. unfold weekly_on_days. cbv zeta. fold wd. fold days.
  pose proof (WeekDay_range t) as Hwd. change (WeekDay t) with wd in Hwd.
  destruct (List.filter (fun day => wd <? day) days) as [|x f] eqn:Ef.
  - pose proof (filter_nil_none _ _ Ef) as Hnone. split.
    + intros nd Hin Hlt _. specialize (Hnone nd Hin). cbv beta in Hnone. lia.
    + intros _. rewrite setDate_add. split; [reflexivity|]. split.
      * unfold getDay. rewrite WeekDay_add. change (WeekDay t) with wd.
        specialize (Hr firstDay (or_introl eq_refl)).
        replace (wd + (7 - wd + firstDay)) with (firstDay + 1 * 7) by lia.
        rewrite Z.mod_add by lia. apply Z.mod_small. lia.
      * intros d [<- | Hd]; [lia|]. inversion Hs as [|? ? _ Hall]; subst.
        rewrite List.Forall_forall in Hall. now apply Hall.
  - destruct (filter_head_sorted _ _ Hs x f Ef) as (Hpx & Hin & Hmin). cbv beta in Hpx. split.
    + intros nd Hnd Hlt Hleast.
      assert (nd = x).
      { apply Z.le_antisymm.
        - apply Hleast; [exact Hin | lia].
        - apply Hmin; [exact Hnd | cbv beta; lia]. }
      subst nd. rewrite setDate_add. split; [reflexivity|].
      unfold getDay. rewrite WeekDay_add. change (WeekDay t) with wd.
      replace (wd + (x - wd)) with x by lia. apply Z.mod_small.
      specialize (Hr x Hin). lia.
    + intros Hmax. specialize (Hmax x Hin). lia.
Qed.

(** The days 1, 3, 5: from a Wednesday to the Friday, two days later, and
    from a Friday to the Monday, three days later. *)
Example weekly_mon_wed_fri :
  getDay (utc 2024 1 3) = 3
  /\ weekly_on_days (utc 2024 1 3) 1 [3; 5] = utc 2024 1 3 + 2 * msPerDay
  /\ getDay (utc 2024 1 5) = 5
  /\ weekly_on_days (utc 2024 1 5) 1 [3; 5] = utc 2024 1 5 + 3 * msPerDay
  /\ getDay (utc 2024 1 5 + 3 * msPerDay) = 1.
Proof. vm_compute. repeat split. Qed.

(** C3: on the days [5; 3; 1], which the task routes accept, the weekly
    rule goes from Monday 2024-01-01 (weekday 1) to the first listed day
    after Monday, Friday 2024-01-05, although Wednesday (3) is the smallest
    weekday of the set after Monday; and from Friday 2024-01-05, after which
    no listed day comes, it wraps to the first listed day, Friday
    2024-01-12, seven days later, although Monday (1) is the smallest
    weekday of the set. *)
Theorem weekly_takes_first_listed_day :
  getDay (utc 2024 1 1) = 1
  /\ nextDueTime unsorted_root (utc 2024 1 1) = utc 2024 1 5
  /\ getDay (utc 2024 1 5) = 5
  /\ utc 2024 1 3 < utc 2024 1 5 /\ getDay (utc 2024 1 3) = 3
  /\ nextDueTime unsorted_root (utc 2024 1 5) = utc 2024 1 5 + 7 * msPerDay
  /\ utc 2024 1 5 + (7 - 5 + 1) * msPerDay = utc 2024 1 8
  /\ getDay (utc 2024 1 8) = 1.
Proof. vm_compute. repeat split. Qed.

(** *** The monthly rule *)

(** The monthly rule with a day of the month 1..31, away from February of
    year 0: the result is in the month after the month of the due date
    (January of the next year after December), on the requested day or on
    the last day of that month when it is shorter, at the same time of
    day. *)
Lemma monthly_on_day_next_month (task : ITask) (t rd : Z) :
  recurringType task = Some "monthly"%string -> recurringDate task = Some rd ->
  1 <= rd <= 31 ->
  let y := YearFromTime t in
  let m := MonthFromTime t + 1 in
  let y2 := if m =? 12 then y + 1 else y in
  let m2 := if m =? 12 then 1 else m + 1 in
  y2 <> 0 \/ m2 <> 2 ->
  civil_from_days (Day (nextDueTime task t)) = (y2, m2, Z.min rd (days_in_month y2 m2))
  /\ TimeWithinDay (nextDueTime task t) = TimeWithinDay t.
Proof.
  intros Hty Hrd Hr y m y2 m2 Hne.
  unfold nextDueTime. rewrite Hty, Hrd. cbn [String.eqb Ascii.eqb Bool.eqb truthy].
  replace (rd =? 0) with false by lia.
  destruct (days_in_month_constructor_year y2 m2) as [Hle Heq]. cbv zeta in Hle, Heq.
  destruct (monthly_on_day_civil t rd ltac:(lia) Hle) as [H1 H2].
  rewrite <- (Heq Hne). exact (conj H1 H2).
Qed.

Example monthly_31_from_january :
  nextDueTime monthly_root (utc 2023 1 15) = utc 2023 2 28
  /\ nextDueTime monthly_root (utc 2024 1 15) = utc 2024 2 29
  /\ nextDueTime monthly_root (utc 2023 12 15) = utc 2024 1 31.
Proof. vm_compute. repeat split. Qed.

(** C4: from the due date 0000-01-31 (January of year 0, a leap year of
    the proleptic Gregorian calendar the Date object follows), the monthly
    rule with day 31 gives February 28 although February of year 0 has 29
    days: [new Date(0, 2, 0)] is the last day of February 1900. *)
Theorem monthly_clamps_to_1900_in_year_0 :
  civil_from_days (Day (utc 0 1 31)) = (0, 1, 31)
  /\ civil_from_days (Day (nextDueTime monthly_root (utc 0 1 31))) = (0, 2, 28)
  /\ is_leap 0 = true
  /\ Z.min 31 (days_in_month 0 2) = 29
  /\ civil_from_days (Day (utc 0 2 29)) = (0, 2, 29)
  /\ civil_from_days (Day (fromYMD 0 2 0)) = (1900, 2, 28).
Proof. vm_compute. repeat split. Qed.

(** ** The sweep on the sample worlds *)

(** C1: a root that is completed gets an instance from every run of the
    sweep: the completed-parent pass calls createRecurringTaskInstance
    without looking for an existing instance, as the upcoming-root pass
    does.  After two runs with no change in between the store holds two
    instances of the root due on 2024-01-02. *)
Theorem completed_root_duplicated_by_second_sweep :
  let w1 := exec cron_job completed_world in
  let w2 := exec cron_job w1 in
  map _id (tasks w1) = [0; 1]%nat
  /\ map _id (tasks w2) = [0; 1; 3]%nat
  /\ map parentTaskId (tasks w2) = [None; Some 0%nat; Some 0%nat]
  /\ map (due_time w2) (tasks w2)
     = [Some (utc 2024 1 1); Some (utc 2024 1 2); Some (utc 2024 1 2)]
  /\ length (instances_on w2 0%nat (Day (utc 2024 1 2))) = 2%nat
  /\ console w2 = [Log_running; Log_processed 1; Log_created 0;
                   Log_running; Log_processed 1; Log_created 0].
Proof. vm_compute. repeat split. Qed.

(** C2 (as amended): from the store that holds the weekly root alone, the
    first run of the sweep creates one instance, due on Thursday
    2024-01-04; once that instance is completed, the next run creates
    nothing: the root is still due on 2024-01-01 and its next due date,
    2024-01-04, has its instance. *)
Theorem weekly_scenario :
  let w1 := exec cron_job weekly_world in
  let w1' := Task_setStatus 1%nat completed w1 in
  let w2 := exec cron_job w1' in
  getDay (utc 2024 1 1) = 1
  /\ map _id (tasks w1) = [0; 1]%nat
  /\ map parentTaskId (tasks w1) = [None; Some 0%nat]
  /\ map (due_time w1) (tasks w1) = [Some (utc 2024 1 1); Some (utc 2024 1 4)]
  /\ getDay (utc 2024 1 4) = 4
  /\ map status (tasks w1') = [todo; completed]
  /\ tasks w2 = tasks w1'
  /\ console w2 = [Log_running; Log_processed 0; Log_created 1;
                   Log_running; Log_processed 0; Log_created 0].
Proof. vm_compute. repeat split. Qed.

(** C2, as stated, fails: after the instance is completed, the next run
    of the sweep creates no instance due on 2024-01-08. *)
Lemma weekly_scenario_no_second_instance :
  let w1 := exec cron_job weekly_world in
  let w2 := exec cron_job (Task_setStatus 1%nat completed w1) in
  ~ exists inst, In inst (tasks w2) /\ due_time w2 inst = Some (utc 2024 1 8).
Proof.
  cbv zeta. intros (inst & Hin & Hdue).
  vm_compute in Hin. destruct Hin as [<- | [<- | []]]; vm_compute in Hdue; discriminate Hdue.
Qed.

(** ** Failures during the sweep *)

(** The body of the upcoming-root loop throws exactly when the count of the
    existing instances fails. *)
Lemma upcoming_body_throws (task : ITask) (createdCount : Z) (w : World) (t : Z) :
  due_time w task = Some t ->
  (exists e w', upcoming_body task createdCount w = (Thrown e, w'))
  <-> head (faults w) = Some true.
Proof.
  intros Ht. destruct (upcoming_body_run task createdCount w t Ht) as [extra Hrun].
  cbv zeta in Hrun. rewrite Hrun. clear Hrun.
  destruct (head (faults w)) as [[]|].
  - split; [reflexivity | intros _; now do 2 eexists].
  - split; [|discriminate]. intros (e & w' & H). exfalso.
    destruct (length _ =? 0)%nat; [|discriminate H].
    match type of H with
    | bind (createRecurringTaskInstance ?p) _ ?w0 = _ =>
      destruct (createRecurringTaskInstance_total p w0) as (r & w1 & E);
      rewrite (bind_run _ _ _ _ _ E) in H
    end. discriminate H.
  - split; [|discriminate]. intros (e & w' & H). exfalso.
    destruct (length _ =? 0)%nat; [|discriminate H].
    match type of H with
    | bind (createRecurringTaskInstance ?p) _ ?w0 = _ =>
      destruct (createRecurringTaskInstance_total p w0) as (r & w1 & E);
      rewrite (bind_run _ _ _ _ _ E) in H
    end. discriminate H.
Qed.

(** C7 (as amended): createRecurringTaskInstance catches and logs whatever
    fails inside it and returns (a failed save gives null and one line on
    the console), so in the completed-parent pass every task found is
    attempted, each on the world the attempts before it left, and the
    summary is logged.  In the upcoming-root pass the count of the
    existing instances is made outside createRecurringTaskInstance: the
    body of the loop throws exactly when that count fails, the loop then
    ends without the remaining roots, and the failure is caught and logged
    by the pass.  Neither pass throws, and the cron job runs the
    upcoming-root pass on the world the completed-parent pass left. *)
Theorem sweep_failure_isolation (w : World) (task : ITask) (createdCount t : Z)
    (Ht : due_time w task = Some t) (Hwf : wf_task (dates w) task) :
  (exists r w', createRecurringTaskInstance task w = (Ok r, w'))
  /\ (past_end (dates w) task t = false -> head (faults w) = Some true ->
      let w' := exec (createRecurringTaskInstance task) w in
      result (createRecurringTaskInstance task) w = Ok None
      /\ tasks w' = tasks w
      /\ console w'
         = console w ++ [Log_error "Error creating recurring task instance:" StorageError])
  /\ processCompletedRecurringTasks w
     = (let w1 := set_faults (tail (faults w)) w in
        let found :=
          List.filter (fun t => isRecurring t && Status_eqb (status t) completed) (tasks w) in
        if head (faults w) is Some true
        then (Ok tt,
              set_console
                (console w ++ [Log_error "Error processing recurring tasks:" StorageError]) w1)
        else
          let w2 :=
            fold_left (fun w task => exec (createRecurringTaskInstance task) w) found w1 in
          (Ok tt, set_console (console w2 ++ [Log_processed (length found)]) w2))
  /\ ((exists e w', upcoming_body task createdCount w = (Thrown e, w'))
      <-> head (faults w) = Some true)
  /\ (forall rest,
        for_of (task :: rest) upcoming_body createdCount w
        = match upcoming_body task createdCount w with
          | (Ok createdCount', w') => for_of rest upcoming_body createdCount' w'
          | (Thrown e, w') => (Thrown e, w')
          end)
  /\ result generateUpcomingRecurringTasks w = Ok tt
  /\ cron_job w
     = (Ok tt,
        exec generateUpcomingRecurringTasks
          (exec processCompletedRecurringTasks
             (set_console (console w ++ [Log_running]) w))).
Proof.
  split; [apply createRecurringTaskInstance_total|].
  split.
  { intros Hpast Hfault. cbv zeta.
    destruct (createRecurringTaskInstance_run task w t Ht (proj2 Hwf)) as [extra Hrun].
    cbv zeta in Hrun. unfold exec, result. rewrite Hrun.
    fold (past_end (dates w) task t). rewrite Hpast, Hfault. repeat split. }
  split; [apply processCompletedRecurringTasks_run|].
  split; [now apply upcoming_body_throws with (t := t)|].
  split; [reflexivity|].
  split; [|apply cron_job_run].
  unfold result. rewrite generateUpcomingRecurringTasks_run. cbv zeta.
  destruct (head (faults w)) as [[]|]; try reflexivity;
    destruct (for_of _ upcoming_body 0 _) as [[c|e] w2]; reflexivity.
Qed.

Lemma sweep_failure_isolation_witness :
  (exists e w',
     upcoming_body weekly_root 0 (set_faults [true] weekly_world) = (Thrown e, w'))
  /\ result (createRecurringTaskInstance weekly_root) (set_faults [true] weekly_world)
     = Ok None
  /\ result generateUpcomingRecurringTasks (set_faults [true] weekly_world) = Ok tt.
Proof.
  assert (Hwf : wf_task (dates (set_faults [true] weekly_world)) weekly_root)
    by (split; [eexists; reflexivity | intros e He; discriminate He]).
  destruct (sweep_failure_isolation (set_faults [true] weekly_world) weekly_root 0
              (utc 2024 1 1) eq_refl Hwf) as (_ & H2 & _ & H3 & _ & H5 & _).
  exact (conj (proj2 H3 eq_refl) (conj (proj1 (H2 eq_refl eq_refl)) H5)).
Defined.

(** C7, as stated, fails: in the upcoming-root pass a failure of the count
    for the first root ends the loop, and the second root, for which
    nothing failed, gets no instance in this run; without the failure it
    gets one. *)
Lemma count_failure_skips_remaining_roots :
  let w := exec generateUpcomingRecurringTasks (two_roots_world [false; true]) in
  let w_ok := exec generateUpcomingRecurringTasks (two_roots_world []) in
  tasks w = tasks (two_roots_world [false; true])
  /\ instances_on w 1%nat (Day (utc 2024 2 2)) = []
  /\ console w = [Log_error "Error generating upcoming recurring tasks:" StorageError]
  /\ faults w = []
  /\ length (instances_on w_ok 1%nat (Day (utc 2024 2 2))) = 1%nat
  /\ console w_ok = [Log_created 2].
Proof. vm_compute. repeat split. Qed.

(** ** The existence check of the upcoming-root pass *)

Lemma grows_wf (w0 w : World) : wf_world w0 -> grows w0 w -> wf_world w.
Proof.
  intros Hwf (Hp & ts & Hts & Hgen). unfold wf_world. rewrite Hts.
  apply Forall_app. split.
  - eapply Forall_impl; [exact Hwf|]. intros x Hx. exact (wf_task_prefix _ _ _ Hx Hp).
  - eapply Forall_impl; [exact Hgen|]. cbv beta.
    intros inst (parent & _ & (oid & Hinst) & t & _ & Hdue & _). split.
    + now exists (nextDueTime parent t).
    + intros e He. rewrite Hinst in He. discriminate He.
Qed.

Lemma instance_on_day_prefix (ds ds' : list Z) (id : ObjectId) (lo hi : Z) (x : ITask) :
  is_Some (ds !! dueDate x) -> ds `prefix_of` ds' ->
  instance_on_day ds' id lo hi x = instance_on_day ds id lo hi x.
Proof.
  intros [v Hv] Hp. unfold instance_on_day.
  destruct (parentTaskId x); [|reflexivity].
  now rewrite Hv, (prefix_lookup_Some _ _ _ _ Hv Hp).
Qed.

Lemma existing_instances_prefix (ds ds' : list Z) (ts : list ITask) (task : ITask) (t : Z) :
  Forall (wf_task ds) ts -> ds `prefix_of` ds' ->
  existing_instances ds' ts task t = existing_instances ds ts task t.
Proof.
  intros Hwf Hp. unfold existing_instances. cbv zeta. f_equal.
  apply filter_ext_in. intros x Hx. apply instance_on_day_prefix; [|exact Hp].
  rewrite Forall_forall in Hwf. apply list_elem_of_In in Hx. exact (proj1 (Hwf x Hx)).
Qed.

Lemma existing_instances_app (ds : list Z) (ts ts' : list ITask) (task : ITask) (t : Z) :
  (existing_instances ds ts task t <= existing_instances ds (ts ++ ts') task t)%nat.
Proof.
  unfold existing_instances. cbv zeta. rewrite List.filter_app, length_app. lia.
Qed.

Lemma past_end_prefix (ds ds' : list Z) (task : ITask) (t : Z) :
  wf_task ds task -> ds `prefix_of` ds' -> past_end ds' task t = past_end ds task t.
Proof. intros Hwf Hp. unfold past_end. now rewrite (end_time_prefix _ _ _ Hwf Hp). Qed.

(** A time value lies in the day window the pass builds from it. *)
Lemma day_window (v : Z) : setHours0 v <= v < setHours0 v + 1 * msPerDay.
Proof. unfold setHours0, MakeDate, Day, msPerDay. dlia. Qed.

(** An instance of [task] due at its next due date is counted. *)
Lemma existing_instances_counts (ds : list Z) (ts : list ITask) (task inst : ITask) (t : Z) :
  In inst ts -> parentTaskId inst = Some (_id task) ->
  ds !! dueDate inst = Some (nextDueTime task t) ->
  existing_instances ds ts task t <> 0%nat.
Proof.
  intros Hin Hp Hdue. unfold existing_instances. cbv zeta.
  set (lo := setHours0 (nextDueTime task t)).
  assert (Hf : In inst (List.filter (instance_on_day ds (_id task) lo (lo + 1 * msPerDay)) ts)).
  { apply filter_In. split; [exact Hin|]. unfold instance_on_day. rewrite Hp. cbv iota beta.
    rewrite Hdue.
    pose proof (day_window (nextDueTime task t)) as Hw. fold lo in Hw.
    rewrite Nat.eqb_refl. cbn [andb]. apply andb_true_iff. split; lia. }
  destruct (List.filter _ ts); [destruct Hf | cbn; lia].
Qed.

Lemma createNotification_no_fault (userId : ObjectId) (message type : string)
    (entityId : option ObjectId) (w : World) :
  faults w = [] -> faults (exec (createNotification userId message type entityId) w) = [].
Proof.
  intros Hf. unfold exec, createNotification, Notification_save, io_emit, console_error,
    console_log, fault_point, fresh_oid, try_catch, bind, ret.
  cbn. rewrite Hf. reflexivity.
Qed.

(** [createRecurringTaskInstance] when the storage does not fail: it saves
    the instance unless the next due date is past the end date. *)
Lemma createRecurringTaskInstance_no_fault (parent : ITask) (w : World) (t : Z) :
  due_time w parent = Some t -> wf_task (dates w) parent -> faults w = [] ->
  let w' := exec (createRecurringTaskInstance parent) w in
  faults w' = [] /\ dates w `prefix_of` dates w'
  /\ if past_end (dates w) parent t then tasks w' = tasks w
     else exists inst,
            tasks w' = tasks w ++ [inst]
            /\ inst = new_instance parent (next_oid w) (S (length (dates w)))
            /\ due_time w' inst = Some (nextDueTime parent t).
Proof.
  intros Ht [_ Hend] Hf.
  destruct (createRecurringTaskInstance_run parent w t Ht Hend) as [extra Hrun].
  cbv zeta in Hrun |- *. unfold exec. rewrite Hrun. clear Hrun.
  fold (past_end (dates w) parent t). rewrite Hf. cbn [head tail].
  set (ds' := dates w ++ [t; nextDueTime parent t] ++ extra).
  assert (Hp : dates w `prefix_of` ds') by now exists ([t; nextDueTime parent t] ++ extra).
  destruct (past_end (dates w) parent t); cbn [snd]; [now repeat split|].
  set (inst := new_instance parent (next_oid w) (S (length (dates w)))).
  set (w3 := set_tasks _ _).
  destruct (assignedTo parent =? createdBy parent)%nat.
  - repeat split; [exact Hp|]. exists inst. repeat split. apply lookup_fresh_1.
  - destruct (createNotification_exec (assignedTo parent)
                ("New recurring task: " ++ title parent)%string "task_assigned"
                (Some (next_oid w)) w3) as (Hd & Htk & _).
    split; [now apply createNotification_no_fault|]. split; [now rewrite Hd|].
    exists inst. split; [exact Htk|]. split; [reflexivity|].
    unfold due_time. rewrite Hd. apply lookup_fresh_1.
Qed.

Lemma covered_grows (w w' : World) (task : ITask) (ts : list ITask) :
  wf_world w -> wf_task (dates w) task ->
  dates w `prefix_of` dates w' -> tasks w' = tasks w ++ ts ->
  covered w task -> covered w' task.
Proof.
  intros Hwf Hwft Hp Hts (t & Ht & Hc). exists t.
  split; [exact (prefix_lookup_Some _ _ _ _ Ht Hp)|].
  destruct Hc as [Hc | Hc]; [left | right].
  - rewrite Hts. pose proof (existing_instances_app (dates w') (tasks w) ts task t) as Hle.
    rewrite (existing_instances_prefix (dates w) (dates w') (tasks w) task t Hwf Hp) in Hle. lia.
  - now rewrite (past_end_prefix _ _ _ _ Hwft Hp).
Qed.

(** The body of the upcoming-root loop when the storage does not fail. *)
Lemma upcoming_body_no_fault (task : ITask) (createdCount : Z) (w : World) (t : Z) :
  due_time w task = Some t -> wf_world w -> wf_task (dates w) task -> faults w = [] ->
  exists c' w',
    upcoming_body task createdCount w = (Ok c', w')
    /\ faults w' = [] /\ dates w `prefix_of` dates w'
    /\ if (existing_instances (dates w) (tasks w) task t =? 0)%nat
          && negb (past_end (dates w) task t)
       then exists inst,
              tasks w' = tasks w ++ [inst]
              /\ parentTaskId inst = Some (_id task)
              /\ due_time w' inst = Some (nextDueTime task t)
       else tasks w' = tasks w.
Proof.
  intros Ht Hwf Hwft Hf.
  destruct (upcoming_body_run task createdCount w t Ht) as [extra Hrun].
  cbv zeta in Hrun. rewrite Hrun. clear Hrun. rewrite Hf. cbn [head tail].
  set (lo := setHours0 (nextDueTime task t)).
  set (ds' := dates w ++ [t; lo] ++ extra ++ [lo; lo; lo + 1 * msPerDay]).
  assert (Hp : dates w `prefix_of` ds')
    by now exists ([t; lo] ++ extra ++ [lo; lo; lo + 1 * msPerDay]).
  change (length (List.filter (instance_on_day ds' (_id task) lo (lo + 1 * msPerDay)) (tasks w)))
    with (existing_instances ds' (tasks w) task t).
  rewrite (existing_instances_prefix (dates w) ds' (tasks w) task t Hwf Hp).
  set (w1 := set_faults [] (set_dates ds' w)).
  destruct (existing_instances (dates w) (tasks w) task t =? 0)%nat; cbn [andb];
    [|exists createdCount, w1; now repeat split].
  assert (Ht1 : due_time w1 task = Some t) by (now apply lookup_old).
  assert (Hwft1 : wf_task (dates w1) task) by exact (wf_task_prefix _ _ _ Hwft Hp).
  destruct (createRecurringTaskInstance_no_fault task w1 t Ht1 Hwft1 eq_refl)
    as (Hf' & Hp' & Hcase).
  destruct (createRecurringTaskInstance_total task w1) as (r & w' & E).
  unfold exec in Hf', Hp', Hcase. rewrite E in Hf', Hp', Hcase. cbn [snd] in *.
  rewrite (bind_run _ _ _ _ _ E).
  exists (if r is Some _ then createdCount + 1 else createdCount), w'.
  split; [reflexivity|]. split; [exact Hf'|].
  split; [now transitivity ds'|].
  change (dates w1) with ds' in Hcase.
  rewrite (past_end_prefix (dates w) ds' task t Hwft Hp) in Hcase.
  destruct (past_end (dates w) task t); cbn [negb]; [exact Hcase|].
  destruct Hcase as (inst & Htk & Hinst & Hdue). exists inst.
  split; [exact Htk|]. split; [now rewrite Hinst | exact Hdue].
Qed.

(** One iteration on a task of the initial world: afterwards the task is
    covered, what was covered stays covered, and a covered task gets no
    instance. *)
Lemma upcoming_body_covers (w0 w : World) (task : ITask) (createdCount : Z) :
  wf_world w0 -> In task (tasks w0) -> grows w0 w -> faults w = [] ->
  exists c' w',
    upcoming_body task createdCount w = (Ok c', w')
    /\ grows w0 w' /\ faults w' = []
    /\ covered w' task
    /\ (forall r, In r (tasks w0) -> covered w r -> covered w' r)
    /\ (covered w task -> tasks w' = tasks w).
Proof.
  intros Hwf0 Hin Hg Hf.
  pose proof (grows_wf _ _ Hwf0 Hg) as Hwf.
  assert (Hwft : forall r, In r (tasks w0) -> wf_task (dates w) r)
    by (intros r Hr; exact (wf_task_prefix _ _ _ (wf_world_In _ _ Hwf0 Hr) (proj1 Hg))).
  destruct (Hwft task Hin) as [[t Ht] Hend].
  destruct (upcoming_body_no_fault task createdCount w t Ht Hwf (Hwft task Hin) Hf)
    as (c' & w' & E & Hf' & Hp & Hcase).
  exists c', w'. split; [exact E|].
  pose proof (upcoming_body_grows w0 w task createdCount Hwf0 Hin Hg) as Hg'.
  unfold exec in Hg'. rewrite E in Hg'. cbn [snd] in Hg'.
  split; [exact Hg'|]. split; [exact Hf'|].
  destruct ((existing_instances (dates w) (tasks w) task t =? 0)%nat
            && negb (past_end (dates w) task t)) eqn:Ec.
  - destruct Hcase as (inst & Htk & Hpar & Hdue). split; [|split].
    + exists t. split; [exact (prefix_lookup_Some _ _ _ _ Ht Hp)|]. left.
      apply (existing_instances_counts _ _ task inst t); [|exact Hpar|exact Hdue].
      rewrite Htk. apply in_or_app. right. now left.
    + intros r Hr Hc. exact (covered_grows w w' r [inst] Hwf (Hwft r Hr) Hp Htk Hc).
    + intros (t' & Ht' & Hc). unfold due_time in Ht, Ht'. rewrite Ht in Ht'.
      injection Ht' as <-. apply andb_true_iff in Ec as [E1 E2].
      apply Nat.eqb_eq in E1. apply negb_true_iff in E2.
      destruct Hc as [Hc | Hc]; [contradiction | congruence].
  - assert (Htk : tasks w' = tasks w ++ []) by (now rewrite app_nil_r).
    assert (Hcov : covered w task).
    { exists t. split; [exact Ht|]. apply andb_false_iff in Ec as [Ec | Ec].
      - left. now apply Nat.eqb_neq.
      - right. now apply negb_false_iff. }
    split; [exact (covered_grows w w' task [] Hwf (Hwft task Hin) Hp Htk Hcov)|].
    split; [|intros _; exact Hcase].
    intros r Hr Hc. exact (covered_grows w w' r [] Hwf (Hwft r Hr) Hp Htk Hc).
Qed.

(** The loop of the upcoming-root pass when the storage does not fail: it
    leaves every root covered, and adds nothing when they all were. *)
Lemma upcoming_loop_covers (w0 : World) (l : list ITask) :
  wf_world w0 -> (forall x, In x l -> In x (tasks w0)) ->
  forall (createdCount : Z) (w : World), grows w0 w -> faults w = [] ->
  exists c' w',
    for_of l upcoming_body createdCount w = (Ok c', w')
    /\ grows w0 w' /\ faults w' = []
    /\ (forall r, In r l -> covered w' r)
    /\ (forall r, In r (tasks w0) -> covered w r -> covered w' r)
    /\ ((forall r, In r l -> covered w r) -> tasks w' = tasks w).
Proof.
  intros Hwf0. induction l as [|x l IH]; intros Hl c w Hg Hf.
  - exists c, w. split; [reflexivity|]. split; [exact Hg|]. split; [exact Hf|].
    split; [intros r []|]. split; [now intros|reflexivity].
  - destruct (upcoming_body_covers w0 w x c Hwf0 (Hl x (or_introl eq_refl)) Hg Hf)
      as (c1 & w1 & E1 & Hg1 & Hf1 & Hx & Hmono1 & Hsame1).
    destruct (IH (fun y Hy => Hl y (or_intror Hy)) c1 w1 Hg1 Hf1)
      as (c2 & w2 & E2 & Hg2 & Hf2 & Hall & Hmono2 & Hsame2).
    exists c2, w2. cbn [for_of]. rewrite (bind_run _ _ _ _ _ E1).
    split; [exact E2|]. split; [exact Hg2|]. split; [exact Hf2|]. split; [|split].
    + intros r [<- | Hr]; [|now apply Hall].
      apply Hmono2; [apply Hl; now left | exact Hx].
    + intros r Hr Hc. apply Hmono2; [exact Hr|]. now apply Hmono1.
    + intros Hcov. rewrite Hsame2, Hsame1; [reflexivity | apply Hcov; now left|].
      intros r Hr. apply Hmono1; [apply Hl; now right | apply Hcov; now right].
Qed.

Lemma filter_grown (w0 w : World) (q : ITask -> bool) :
  grows w0 w -> (forall x, q x = true -> isRecurring x = true) ->
  List.filter q (tasks w) = List.filter q (tasks w0).
Proof.
  intros (_ & ts & Hts & Hgen) Hq. rewrite Hts, List.filter_app. clear Hts.
  replace (List.filter q ts) with (@nil ITask); [now rewrite app_nil_r|].
  symmetry. induction Hgen as [|inst ts (parent & _ & (oid & Hinst) & _) _ IH]; [reflexivity|].
  cbn [List.filter]. destruct (q inst) eqn:E; [|exact IH].
  apply Hq in E. rewrite Hinst in E. discriminate E.
Qed.

Lemma covered_same (w w' : World) (task : ITask) :
  dates w' = dates w -> tasks w' = tasks w -> covered w task -> covered w' task.
Proof. unfold covered, due_time. intros -> ->. auto. Qed.

(** The completed-parent pass when no recurring task is completed and the
    storage does not fail: it finds nothing. *)
Lemma processCompletedRecurringTasks_nothing (w0 w : World) :
  grows w0 w -> faults w = [] ->
  (forall task, In task (tasks w0) -> isRecurring task = true -> status task <> completed) ->
  let w' := exec processCompletedRecurringTasks w in
  dates w' = dates w /\ tasks w' = tasks w /\ faults w' = [].
Proof.
  intros Hg Hf Hnone. cbv zeta. unfold exec.
  rewrite processCompletedRecurringTasks_run. cbv zeta. rewrite Hf. cbn [head tail].
  rewrite (filter_grown w0 w) by
    (exact Hg || (intros x Hx; now apply andb_true_iff in Hx as [Hx _])).
  replace (List.filter (fun t => isRecurring t && Status_eqb (status t) completed) (tasks w0))
    with (@nil ITask); [cbn; auto|].
  symmetry. induction (tasks w0) as [|x l IH]; [reflexivity|].
  cbn [List.filter]. destruct (isRecurring x && Status_eqb (status x) completed) eqn:E.
  - apply andb_true_iff in E as [E1 E2]. exfalso.
    apply (Hnone x (or_introl eq_refl) E1). now destruct (status x).
  - apply IH. intros task Ht. apply Hnone. now right.
Qed.

(** The upcoming-root pass when the storage does not fail. *)
Lemma generateUpcomingRecurringTasks_covers (w0 w : World) :
  wf_world w0 -> grows w0 w -> faults w = [] ->
  let roots :=
    List.filter (fun t => isRecurring t && negb (bool_decide (is_Some (parentTaskId t))))
      (tasks w0) in
  let w' := exec generateUpcomingRecurringTasks w in
  grows w0 w' /\ faults w' = []
  /\ (forall r, In r roots -> covered w' r)
  /\ ((forall r, In r roots -> covered w r) -> tasks w' = tasks w).
Proof.
  intros Hwf0 Hg Hf. cbv zeta. unfold exec.
  rewrite generateUpcomingRecurringTasks_run. cbv zeta. rewrite Hf. cbn [head tail].
  rewrite (filter_grown w0 w) by
    (exact Hg || (intros x Hx; now apply andb_true_iff in Hx as [Hx _])).
  set (roots := List.filter _ (tasks w0)).
  set (w1 := set_faults [] w).
  assert (Hg1 : grows w0 w1) by (apply (grows_same w0 w); [exact Hg | reflexivity | reflexivity]).
  assert (Hroots : forall x, In x roots -> In x (tasks w0))
    by (intros x Hx; now apply filter_In_tasks in Hx as [Hx _]).
  destruct (upcoming_loop_covers w0 roots Hwf0 Hroots 0 w1 Hg1 eq_refl)
    as (c' & w2 & E & Hg2 & Hf2 & Hall & _ & Hsame).
  rewrite E. cbn [snd].
  split; [apply (grows_same w0 w2); [exact Hg2 | reflexivity | reflexivity]|].
  split; [exact Hf2|]. split.
  - intros r Hr. apply (covered_same w2); [reflexivity | reflexivity | now apply Hall].
  - intros Hcov. cbn [tasks set_console]. rewrite Hsame; [reflexivity|].
    intros r Hr. apply (covered_same w); [reflexivity | reflexivity | now apply Hcov].
Qed.

(** When no recurring task is completed and the storage does not fail, a
    second run of the sweep, with no change in between, creates nothing:
    the existence check of the upcoming-root pass finds the instance of
    the first run, or the next due date is past the end date again. *)
Theorem second_sweep_creates_nothing (w : World) :
  wf_world w -> faults w = [] ->
  (forall task, In task (tasks w) -> isRecurring task = true -> status task <> completed) ->
  let w1 := exec cron_job w in
  grows w w1 /\ tasks (exec cron_job w1) = tasks w1.
Proof.
  intros Hwf Hf Hnone. cbv zeta.
  split; [now apply cron_job_grows|].
  assert (Hcron : forall x, exec cron_job x
                            = exec generateUpcomingRecurringTasks
                                (exec processCompletedRecurringTasks
                                   (set_console (console x ++ [Log_running]) x)))
    by (intros x; unfold exec at 1; now rewrite cron_job_run).
  rewrite (Hcron (exec cron_job w)), (Hcron w). clear Hcron.
  (* the first run *)
  set (wa := set_console (console w ++ [Log_running]) w).
  assert (Hga : grows w wa) by (apply (grows_same w w); [apply grows_refl | reflexivity | reflexivity]).
  destruct (processCompletedRecurringTasks_nothing w wa Hga Hf Hnone) as (Hd1 & Ht1 & Hf1).
  set (wb := exec processCompletedRecurringTasks wa) in *.
  assert (Hgb : grows w wb) by (apply (grows_same w wa); assumption).
  destruct (generateUpcomingRecurringTasks_covers w wb Hwf Hgb Hf1) as (Hg1 & Hf1' & Hcov & _).
  set (w1 := exec generateUpcomingRecurringTasks wb) in *.
  (* the second run *)
  set (wc := set_console (console w1 ++ [Log_running]) w1).
  assert (Hgc : grows w wc) by (apply (grows_same w w1); [exact Hg1 | reflexivity | reflexivity]).
  destruct (processCompletedRecurringTasks_nothing w wc Hgc Hf1' Hnone) as (Hd2 & Ht2 & Hf2).
  set (wd := exec processCompletedRecurringTasks wc) in *.
  assert (Hgd : grows w wd) by (apply (grows_same w wc); assumption).
  destruct (generateUpcomingRecurringTasks_covers w wd Hwf Hgd Hf2) as (_ & _ & _ & Hsame).
  rewrite Hsame; [exact Ht2|].
  intros r Hr. apply (covered_same w1); [exact Hd2 | exact Ht2 | now apply Hcov].
Qed.

Lemma second_sweep_creates_nothing_example :
  tasks (exec cron_job (exec cron_job weekly_world)) = tasks (exec cron_job weekly_world).
Proof.
  refine (proj2 (second_sweep_creates_nothing weekly_world _ eq_refl _)).
  - wf_by_evaluation.
  - intros task [<- | []] _. discriminate.
Defined.

(** * The code around the engine: properties *)

(** ** Roles and permissions *)

Lemma includes_In (l : list string) (s : string) : Rbac.includes l s = true <-> In s l.
Proof.
  unfold Rbac.includes. rewrite existsb_exists. split.
  - intros (x & Hin & Heq). apply String.eqb_eq in Heq. now subst.
  - intros Hin. exists s. split; [assumption | apply String.eqb_refl].
Qed.

Lemma includes_incl (l l' : list string) (s : string) :
  incl l l' -> Rbac.includes l s = true -> Rbac.includes l' s = true.
Proof. intros Hincl H. apply includes_In. apply Hincl. now apply includes_In. Qed.

Lemma user_incl_manager : incl Rbac.user Rbac.manager.
Proof. intros p Hp. cbn in Hp |- *. tauto. Qed.

Lemma manager_incl_admin : incl Rbac.manager Rbac.admin.
Proof. intros p Hp. cbn in Hp |- *. tauto. Qed.

Lemma hasPermission_role (u : User.IUser) (p : Rbac.Permission) (r : string)
    (ps : list Rbac.Permission) :
  User.role u = r -> r <> ""%string -> Rbac.rolePermissions r = Rbac.Own ps ->
  Rbac.hasPermission (Some u) p = Some (Rbac.includes ps p).
Proof.
  intros Hr Hne Hps. unfold Rbac.hasPermission. rewrite Hr.
  destruct (String.eqb_spec r "") as [->|_]; [congruence|]. now rewrite Hps.
Qed.

(** A granted permission is a string of the type [Permission], granted to
    an authenticated user whose role is one of the three of the table. *)
Lemma hasPermission_true (u : option User.IUser) (p : Rbac.Permission) :
  Rbac.hasPermission u p = Some true ->
  exists usr, u = Some usr
    /\ In (User.role usr) ["admin"; "manager"; "user"]%string
    /\ In p Rbac.all_permissions.
Proof.
  destruct u as [usr|]; [|discriminate]. unfold Rbac.hasPermission.
  destruct (String.eqb (User.role usr) ""); [discriminate|].
  unfold Rbac.rolePermissions.
  destruct (String.eqb_spec (User.role usr) "admin") as [E|_].
  { intros [= H]. change (Rbac.includes Rbac.admin p = true) in H.
    apply includes_In in H. exists usr. rewrite E.
    split; [reflexivity|]. split; [cbn; tauto | exact H]. }
  destruct (String.eqb_spec (User.role usr) "manager") as [E|_].
  { intros [= H]. change (Rbac.includes Rbac.manager p = true) in H.
    apply includes_In, manager_incl_admin in H.
    exists usr. rewrite E. split; [reflexivity|]. split; [cbn; tauto | exact H]. }
  destruct (String.eqb_spec (User.role usr) "user") as [E|_].
  { intros [= H]. change (Rbac.includes Rbac.user p = true) in H.
    apply includes_In, user_incl_manager, manager_incl_admin in H.
    exists usr. rewrite E. split; [reflexivity|]. split; [cbn; tauto | exact H]. }
  destruct (Rbac.includes Rbac.Object_prototype (User.role usr)); discriminate.
Qed.

Lemma some_true {A} (f : A -> option bool) (l : list A) :
  Rbac.some f l = Some true
  <-> exists l1 x l2, l = l1 ++ x :: l2 /\ f x = Some true
                      /\ Forall (fun y => f y = Some false) l1.
Proof.
  induction l as [|a l IH]; cbn.
  - split; [discriminate|]. intros (l1 & x & l2 & H & _). now destruct l1.
  - destruct (f a) as [[|]|] eqn:Ha.
    + split; [|reflexivity]. intros _. exists [], a, l. now repeat split.
    + rewrite IH. split.
      * intros (l1 & x & l2 & -> & Hx & Hl1). exists (a :: l1), x, l2.
        repeat split; [assumption|]. now constructor.
      * intros (l1 & x & l2 & H & Hx & Hl1). destruct l1 as [|b l1]; cbn in H.
        -- injection H as -> ->. congruence.
        -- injection H as -> ->. exists l1, x, l2. repeat split; [assumption|].
           now inversion Hl1.
    + split; [discriminate|]. intros (l1 & x & l2 & H & Hx & Hl1).
      destruct l1 as [|b l1]; cbn in H; injection H as -> ->; [congruence|].
      inversion Hl1; congruence.
Qed.

Lemma every_true {A} (f : A -> option bool) (l : list A) :
  Rbac.every f l = Some true <-> Forall (fun x => f x = Some true) l.
Proof.
  induction l as [|a l IH]; cbn.
  - split; [constructor | reflexivity].
  - destruct (f a) as [[|]|] eqn:Ha.
    + rewrite IH. split; [now constructor | now inversion 1].
    + split; [discriminate|]. intros H. apply List.Forall_cons_iff in H. destruct H. congruence.
    + split; [discriminate|]. intros H. apply List.Forall_cons_iff in H. destruct H. congruence.
Qed.

Lemma allow_next (a : option bool) : Rbac.allow a = Rbac.next <-> a = Some true.
Proof. destruct a as [[|]|]; cbn; unfold Rbac.forbidden; split; congruence. Qed.

(** The test of a role never depends on the permission asked for: it
    throws for every permission or for none. *)
Lemma hasPermission_throws (u : option User.IUser) (p q : Rbac.Permission) :
  Rbac.hasPermission u p = None -> Rbac.hasPermission u q = None.
Proof.
  destruct u as [usr|]; [|discriminate]. unfold Rbac.hasPermission.
  destruct (String.eqb (User.role usr) ""); [discriminate|].
  destruct (Rbac.rolePermissions (User.role usr)); congruence.
Qed.

Lemma some_exists {A} (f : A -> option bool) (l : list A) :
  (forall x, f x <> None) ->
  Rbac.some f l = Some true <-> exists x, In x l /\ f x = Some true.
Proof.
  intros Hf. induction l as [|a l IH]; cbn.
  - split; [discriminate | intros (x & [] & _)].
  - destruct (f a) as [[|]|] eqn:Ha.
    + split; [|reflexivity]. intros _. exists a. auto.
    + rewrite IH. split.
      * intros (x & Hin & Hx). exists x. auto.
      * intros (x & [->|Hin] & Hx); [congruence|]. exists x. auto.
    + now apply Hf in Ha.
Qed.

Lemma requireAnyPermission_next (ps : list Rbac.Permission) (u : option User.IUser) :
  Rbac.requireAnyPermission ps u = Rbac.next
  <-> exists p, In p ps /\ Rbac.hasPermission u p = Some true.
Proof.
  destruct u as [usr|]; cbn -[Rbac.hasPermission].
  - rewrite allow_next. split.
    + intros H. apply some_true in H as (l1 & x & l2 & -> & Hx & _).
      exists x. split; [apply in_elt | assumption].
    + intros (p & Hin & Hp). apply some_exists; [|eauto].
      intros q Hq. apply (hasPermission_throws _ q p) in Hq. congruence.
  - split; [discriminate | intros (p & _ & Hp); discriminate].
Qed.

Lemma requireAllPermissions_next (ps : list Rbac.Permission) (usr : User.IUser) :
  Rbac.requireAllPermissions ps (Some usr) = Rbac.next
  <-> forall p, In p ps -> Rbac.hasPermission (Some usr) p = Some true.
Proof.
  cbn -[Rbac.hasPermission]. rewrite allow_next, every_true. apply List.Forall_forall.
Qed.

Lemma requirePermission_next (p : Rbac.Permission) (u : option User.IUser) :
  Rbac.requirePermission p u = Rbac.next <-> Rbac.hasPermission u p = Some true.
Proof.
  destruct u as [usr|]; cbn -[Rbac.hasPermission].
  - apply allow_next.
  - split; discriminate.
Qed.

(** X1 (rbac.ts, requirePermission, requireAnyPermission,
    requireAllPermissions, hasPermission): requirePermission,
    requireAnyPermission and requireAllPermissions of a list that is not
    empty let a request pass only for an authenticated user whose role is
    one of admin, manager and user, and only on account of a permission
    that is a string of the type Permission; a missing user, an empty or
    an unknown role (the comparison is case-sensitive) never passes them.
    requireAllPermissions of the empty list is the exception: it lets
    every authenticated user pass, whatever the role, and refuses only a
    request without a user. *)
Theorem permission_needs_known_role (u : option User.IUser) (p : Rbac.Permission)
    (ps : list Rbac.Permission) :
  (Rbac.requirePermission p u = Rbac.next
   \/ Rbac.requireAnyPermission ps u = Rbac.next
   \/ (ps <> [] /\ Rbac.requireAllPermissions ps u = Rbac.next) ->
   exists usr q,
     u = Some usr
     /\ In (User.role usr) ["admin"; "manager"; "user"]%string
     /\ In q Rbac.all_permissions
     /\ Rbac.hasPermission u q = Some true)
  /\ (Rbac.requireAllPermissions [] u = Rbac.next <-> u <> None).
Proof.
  split.
  - intros [H|[H|[Hne H]]].
    + apply requirePermission_next in H.
      destruct (hasPermission_true _ _ H) as (usr & -> & Hrole & Hp). now exists usr, p.
    + apply requireAnyPermission_next in H as (q & _ & H).
      destruct (hasPermission_true _ _ H) as (usr & -> & Hrole & Hp). now exists usr, q.
    + destruct u as [usr|]; [|discriminate H].
      destruct ps as [|q ps]; [contradiction|].
      pose proof (proj1 (requireAllPermissions_next _ _) H q (or_introl eq_refl)) as Hq.
      destruct (hasPermission_true _ _ Hq) as (usr' & [= <-] & Hrole & Hp).
      now exists usr, q.
  - destruct u as [usr|]; cbn; split; congruence.
Qed.

Lemma permission_needs_known_role_witness :
  let admin_user := User.mkUser 0%nat "Ann"%string "ann@example.com"%string "admin"%string 0 [] in
  let guest := User.mkUser 1%nat "Bo"%string "bo@example.com"%string "guest"%string 0 [] in
  Rbac.requireAllPermissions ["users:delete"%string] (Some admin_user) = Rbac.next
  /\ (exists usr q,
        Some admin_user = Some usr
        /\ In (User.role usr) ["admin"%string; "manager"%string; "user"%string]
        /\ In q Rbac.all_permissions
        /\ Rbac.hasPermission (Some admin_user) q = Some true)
  /\ Rbac.requireAllPermissions [] (Some guest) = Rbac.next.
Proof.
  cbv zeta. split; [reflexivity|]. split.
  - apply (permission_needs_known_role _ "users:delete"%string ["users:delete"%string]).
    right. right. split; [discriminate | reflexivity].
  - apply (permission_needs_known_role _ "users:delete"%string []). discriminate.
Defined.

Example role_is_case_sensitive :
  let u := User.mkUser 0%nat "Ann"%string "ann@example.com"%string "Admin"%string 0 [] in
  Rbac.hasPermission (Some u) "tasks:read"%string = Some false
  /\ Rbac.requirePermission "tasks:read"%string (Some u) = Rbac.forbidden.
Proof. split; reflexivity. Qed.

Example inherited_member_is_no_array :
  let u := User.mkUser 0%nat "Ann"%string "ann@example.com"%string "constructor"%string 0 [] in
  Rbac.hasPermission (Some u) "tasks:read"%string = None
  /\ Rbac.requirePermission "tasks:read"%string (Some u) = Rbac.throws
  /\ Rbac.requireAllPermissions [] (Some u) = Rbac.next.
Proof. repeat split; reflexivity. Qed.

Lemma hasPermission_incl (u v : User.IUser) (p : Rbac.Permission) (r r' : string)
    (ps ps' : list Rbac.Permission) :
  User.role u = r -> User.role v = r' -> r <> ""%string -> r' <> ""%string ->
  Rbac.rolePermissions r = Rbac.Own ps -> Rbac.rolePermissions r' = Rbac.Own ps' ->
  incl ps ps' ->
  Rbac.hasPermission (Some u) p = Some true -> Rbac.hasPermission (Some v) p = Some true.
Proof.
  intros Hu Hv Hr Hr' Hps Hps' Hincl.
  rewrite (hasPermission_role u p r ps), (hasPermission_role v p r' ps') by assumption.
  intros H. assert (H' : Rbac.includes ps p = true) by congruence.
  f_equal. revert H'. now apply includes_incl.
Qed.

(** X2 (rbac.ts, rolePermissions): the roles are nested.  Whatever a user
    may do a manager may do, and whatever a manager may do an admin may
    do, for single permissions and for the any- and all-of-a-list
    middlewares alike. *)
Theorem roles_are_nested (lower higher : User.IUser) :
  (User.role lower = "user"%string /\ User.role higher = "manager"%string)
  \/ (User.role lower = "manager"%string /\ User.role higher = "admin"%string)
  \/ (User.role lower = "user"%string /\ User.role higher = "admin"%string) ->
  (forall p, Rbac.hasPermission (Some lower) p = Some true ->
             Rbac.hasPermission (Some higher) p = Some true)
  /\ (forall p, Rbac.requirePermission p (Some lower) = Rbac.next ->
                Rbac.requirePermission p (Some higher) = Rbac.next)
  /\ (forall ps, Rbac.requireAnyPermission ps (Some lower) = Rbac.next ->
                 Rbac.requireAnyPermission ps (Some higher) = Rbac.next)
  /\ (forall ps, Rbac.requireAllPermissions ps (Some lower) = Rbac.next ->
                 Rbac.requireAllPermissions ps (Some higher) = Rbac.next).
Proof.
  intros Hroles.
  assert (Hle : forall p, Rbac.hasPermission (Some lower) p = Some true ->
                          Rbac.hasPermission (Some higher) p = Some true).
  { intros p.
    destruct Hroles as [[Hl Hh]|[[Hl Hh]|[Hl Hh]]].
    - apply (hasPermission_incl lower higher p _ _ Rbac.user Rbac.manager Hl Hh);
        try reflexivity; try discriminate. apply user_incl_manager.
    - apply (hasPermission_incl lower higher p _ _ Rbac.manager Rbac.admin Hl Hh);
        try reflexivity; try discriminate. apply manager_incl_admin.
    - apply (hasPermission_incl lower higher p _ _ Rbac.user Rbac.admin Hl Hh);
        try reflexivity; try discriminate.
      intros q Hq. apply manager_incl_admin, user_incl_manager, Hq. }
  split; [exact Hle|]. split; [|split].
  - intros p. rewrite !requirePermission_next. apply Hle.
  - intros ps. rewrite !requireAnyPermission_next. intros (p & Hin & Hp). eauto.
  - intros ps. rewrite !requireAllPermissions_next. intros H p Hin. auto.
Qed.

Lemma roles_are_nested_witness :
  let u := User.mkUser 1%nat "Uma"%string "uma@example.com"%string "user"%string 0 [] in
  let m := User.mkUser 2%nat "Max"%string "max@example.com"%string "manager"%string 0 [] in
  (forall p, Rbac.hasPermission (Some u) p = Some true ->
             Rbac.hasPermission (Some m) p = Some true)
  /\ (forall p, Rbac.requirePermission p (Some u) = Rbac.next ->
                Rbac.requirePermission p (Some m) = Rbac.next)
  /\ (forall ps, Rbac.requireAnyPermission ps (Some u) = Rbac.next ->
                 Rbac.requireAnyPermission ps (Some m) = Rbac.next)
  /\ (forall ps, Rbac.requireAllPermissions ps (Some u) = Rbac.next ->
                 Rbac.requireAllPermissions ps (Some m) = Rbac.next).
Proof.
  apply (roles_are_nested (User.mkUser 1%nat "Uma"%string "uma@example.com"%string "user"%string 0 [])
           (User.mkUser 2%nat "Max"%string "max@example.com"%string "manager"%string 0 [])).
  left. split; reflexivity.
Defined.

(** X3 (rbac.ts, rolePermissions): the admin role holds every permission
    of the type Permission and nothing else; the manager role holds all of
    them except the four that change users and the system settings. *)
Theorem admin_and_manager_tables (a m : User.IUser) (p : Rbac.Permission) :
  User.role a = "admin"%string -> User.role m = "manager"%string ->
  (Rbac.hasPermission (Some a) p = Some true <-> In p Rbac.all_permissions)
  /\ (Rbac.hasPermission (Some m) p = Some true
      <-> In p Rbac.all_permissions
          /\ ~ In p ["users:update"; "users:create"; "users:delete"; "users:manage-roles";
                     "system:settings"]%string).
Proof.
  intros Ha Hm.
  rewrite (hasPermission_role a p "admin" Rbac.admin Ha) by (reflexivity || discriminate).
  rewrite (hasPermission_role m p "manager" Rbac.manager Hm) by (reflexivity || discriminate).
  change Rbac.all_permissions with Rbac.admin.
  split.
  - split.
    + intros H. apply includes_In. congruence.
    + intros H. f_equal. now apply includes_In.
  - split.
    + intros H. assert (H' : In p Rbac.manager) by (apply includes_In; congruence).
      split; [now apply manager_incl_admin|].
      cbn in H' |- *.
      intros Hn.
      repeat (destruct H' as [<-|H']; [repeat (destruct Hn as [Hn|Hn]; [discriminate Hn|]);
                                       exact Hn|]).
      exact H'.
    + intros [Hall Hnot]. f_equal. apply includes_In.
      cbn in Hall, Hnot |- *. tauto.
Qed.

Lemma admin_and_manager_tables_witness :
  let a := User.mkUser 0%nat "Ann"%string "ann@example.com"%string "admin"%string 0 [] in
  let m := User.mkUser 2%nat "Max"%string "max@example.com"%string "manager"%string 0 [] in
  (Rbac.hasPermission (Some a) "system:settings"%string = Some true
   <-> In "system:settings"%string Rbac.all_permissions)
  /\ (Rbac.hasPermission (Some m) "system:settings"%string = Some true
      <-> In "system:settings"%string Rbac.all_permissions
          /\ ~ In "system:settings"%string
                 ["users:update"; "users:create"; "users:delete"; "users:manage-roles";
                  "system:settings"]%string).
Proof.
  apply (admin_and_manager_tables
           (User.mkUser 0%nat "Ann"%string "ann@example.com"%string "admin"%string 0 [])
           (User.mkUser 2%nat "Max"%string "max@example.com"%string "manager"%string 0 [])
           "system:settings"%string); reflexivity.
Defined.

(** X4 (rbac.ts, requireAnyPermission, requireAllPermissions,
    requirePermission): an authenticated request passes the any-of
    middleware exactly when the user holds one permission of the list and
    the all-of middleware exactly when the user holds each of them.  So
    the empty list is refused by the first and let through by the second,
    for every user; a list of one permission is handled by both as by
    requirePermission; and passing all-of a non-empty list implies passing
    any-of it. *)
Theorem any_and_all_of_permissions (ps : list Rbac.Permission) (usr : User.IUser) :
  (Rbac.requireAnyPermission ps (Some usr) = Rbac.next
   <-> exists p, In p ps /\ Rbac.hasPermission (Some usr) p = Some true)
  /\ (Rbac.requireAllPermissions ps (Some usr) = Rbac.next
      <-> forall p, In p ps -> Rbac.hasPermission (Some usr) p = Some true)
  /\ Rbac.requireAnyPermission [] (Some usr) = Rbac.forbidden
  /\ Rbac.requireAllPermissions [] (Some usr) = Rbac.next
  /\ (forall p, Rbac.requireAnyPermission [p] (Some usr) = Rbac.requirePermission p (Some usr)
                /\ Rbac.requireAllPermissions [p] (Some usr)
                   = Rbac.requirePermission p (Some usr))
  /\ (ps <> [] -> Rbac.requireAllPermissions ps (Some usr) = Rbac.next ->
      Rbac.requireAnyPermission ps (Some usr) = Rbac.next).
Proof.
  split; [apply requireAnyPermission_next|].
  split; [apply requireAllPermissions_next|].
  split; [reflexivity|]. split; [reflexivity|]. split.
  - intros p. cbn -[Rbac.hasPermission].
    destruct (Rbac.hasPermission (Some usr) p) as [[|]|]; split; reflexivity.
  - intros Hne Hall. rewrite requireAllPermissions_next in Hall.
    apply requireAnyPermission_next.
    destruct ps as [|p ps']; [congruence|]. exists p. split; [now left|]. apply Hall. now left.
Qed.

Lemma checkPermission_next (p : Rbac.Permission) (u : option User.IUser) :
  Auth.checkPermission p u = Rbac.requirePermission p u.
Proof. reflexivity. Qed.

(** X5 (middleware/auth.ts, isResourceOwnerOrHasPermission,
    checkPermission): the owner-or-permission middleware lets a request
    through exactly when the user is authenticated and is the owner of the
    resource or holds the permission.  The owner is let through whatever
    the role is, an unknown one included. *)
Theorem owner_or_permission (owner : option ObjectId) (p : Rbac.Permission)
    (u : option User.IUser) :
  (Auth.isResourceOwnerOrHasPermission owner p u = Rbac.next
   <-> exists usr, u = Some usr
         /\ (owner = Some (User._id usr) \/ Auth.checkPermission p u = Rbac.next))
  /\ Auth.isResourceOwnerOrHasPermission owner p None
     = Rbac.respond 401 "Authentication required".
Proof.
  split; [|reflexivity].
  unfold Auth.isResourceOwnerOrHasPermission, Auth.checkPermission, Rbac.allow, Rbac.forbidden.
  destruct u as [usr|].
  - destruct owner as [o|].
    + destruct (Nat.eqb_spec o (User._id usr)) as [->|Hne].
      * split; [|reflexivity]. intros _. exists usr. auto.
      * destruct (Rbac.hasPermission (Some usr) p) as [[|]|]; split;
          try discriminate; try (intros _; exists usr; auto).
        all: intros (usr' & [= <-] & [[= E]|E]); congruence.
    + destruct (Rbac.hasPermission (Some usr) p) as [[|]|]; split;
        try discriminate; try (intros _; exists usr; auto).
      all: intros (usr' & [= <-] & [E|E]); congruence.
  - split; [discriminate | intros (usr & E & _); discriminate].
Qed.

Lemma permissions_hasPermission (u : User.IUser) (p : Rbac.Permission) :
  Permissions.hasPermission (Some (User.role u)) p = Rbac.hasPermission (Some u) p.
Proof. reflexivity. Qed.

Lemma some_ext {A} (f g : A -> option bool) (l : list A) :
  (forall x, f x = g x) -> Rbac.some f l = Rbac.some g l.
Proof. intros H. induction l as [|a l IH]; cbn; [reflexivity|]. now rewrite H, IH. Qed.

Lemma every_ext {A} (f g : A -> option bool) (l : list A) :
  (forall x, f x = g x) -> Rbac.every f l = Rbac.every g l.
Proof. intros H. induction l as [|a l IH]; cbn; [reflexivity|]. now rewrite H, IH. Qed.

(** X6 (frontend lib/permissions.ts, hasPermission, hasAnyPermission,
    hasAllPermissions; rbac.ts): the permission table of the frontend
    matches the one of the backend.  For the role of a user the frontend
    shows an action exactly when the backend middleware lets the request
    through, for one permission, any of a list and all of a list. *)
Theorem frontend_matches_backend (u : User.IUser) (p : Rbac.Permission)
    (ps : list Rbac.Permission) :
  let role := Some (User.role u) in
  Permissions.hasPermission role p = Rbac.hasPermission (Some u) p
  /\ (Permissions.hasPermission role p = Some true
      <-> Rbac.requirePermission p (Some u) = Rbac.next)
  /\ (Permissions.hasAnyPermission role ps = Some true
      <-> Rbac.requireAnyPermission ps (Some u) = Rbac.next)
  /\ (Permissions.hasAllPermissions role ps = Some true
      <-> Rbac.requireAllPermissions ps (Some u) = Rbac.next).
Proof.
  cbv zeta. split; [reflexivity|]. split; [|split].
  - now rewrite requirePermission_next.
  - unfold Permissions.hasAnyPermission, Rbac.requireAnyPermission.
    rewrite allow_next. now rewrite (some_ext _ _ _ (permissions_hasPermission u)).
  - unfold Permissions.hasAllPermissions, Rbac.requireAllPermissions.
    rewrite allow_next. now rewrite (every_ext _ _ _ (permissions_hasPermission u)).
Qed.

(** ** The rules of [calculateNextDueDate] *)

(** In the range, the time value [calculateNextDueDate] returns is one
    of a valid date. *)
Lemma in_range_next (task : ITask) (t : Z) :
  in_range task t = true -> TimeClip (nextDueTime task t) = Some (nextDueTime task t).
Proof.
  unfold in_range, computed_times. cbn [forallb]. intros H.
  apply andb_true_iff in H as [_ H]. apply andb_true_iff in H as [H _].
  unfold valid_time in H. unfold TimeClip in *.
  now destruct (Z.abs (nextDueTime task t) <=? maxTime).
Qed.

Lemma next_due_time (w : World) (task : ITask) (t : Z) :
  due_time w task = Some t -> next_due w task = Some (nextDueTime task t).
Proof.
  intros Ht. destruct (calculateNextDueDate_run task w t Ht) as [extra E].
  unfold next_due. rewrite E. cbn [dates set_dates]. apply lookup_fresh_1.
Qed.

Lemma nextDueTime_days (task : ITask) (t : Z) (ty : string) :
  recurringType task = Some ty ->
  ty = "daily"%string \/ ty = "custom"%string ->
  nextDueTime task t = t + or_1 (recurringInterval task) * msPerDay.
Proof.
  intros Hty Hcase. unfold nextDueTime. rewrite Hty.
  destruct Hcase as [-> | ->]; cbn [String.eqb Ascii.eqb Bool.eqb]; apply setDate_add.
Qed.

Lemma nextDueTime_weeks (task : ITask) (t : Z) :
  recurringType task = Some "weekly"%string ->
  recurringDays task = None \/ recurringDays task = Some [] ->
  nextDueTime task t = t + or_1 (recurringInterval task) * 7 * msPerDay.
Proof.
  intros Hty Hdays. unfold nextDueTime. rewrite Hty.
  cbn [String.eqb Ascii.eqb Bool.eqb].
  destruct Hdays as [-> | ->]; apply setDate_add.
Qed.

(** X7 (recurringTaskService.ts, calculateNextDueDate): where the time
    value computed stays in the range of the time values of a Date, the
    daily and the custom rule move the due date by the interval in days,
    and the weekly rule without listed days by the interval in weeks; an
    interval that is absent or 0 counts as 1.  The time of day stays, and
    under the weekly rule the day of the week. *)
Theorem interval_rules_add_whole_days (w : World) (task : ITask) (t : Z) (ty : string) :
  due_time w task = Some t -> recurringType task = Some ty ->
  in_range task t = true ->
  let i := or_1 (recurringInterval task) in
  (ty = "daily"%string \/ ty = "custom"%string ->
   next_due w task = Some (t + i * msPerDay)
   /\ TimeClip (t + i * msPerDay) = Some (t + i * msPerDay)
   /\ TimeWithinDay (t + i * msPerDay) = TimeWithinDay t)
  /\ (ty = "weekly"%string ->
      recurringDays task = None \/ recurringDays task = Some [] ->
      next_due w task = Some (t + i * 7 * msPerDay)
      /\ TimeClip (t + i * 7 * msPerDay) = Some (t + i * 7 * msPerDay)
      /\ TimeWithinDay (t + i * 7 * msPerDay) = TimeWithinDay t
      /\ getDay (t + i * 7 * msPerDay) = getDay t).
Proof.
  intros Ht Hty Hrange i.
  pose proof (in_range_next task t Hrange) as Hclip.
  pose proof (next_due_time w task t Ht) as Hnext.
  split.
  - intros Hcase.
    pose proof (nextDueTime_days task t ty Hty Hcase) as E. fold i in E.
    rewrite E in Hclip, Hnext.
    split; [exact Hnext|]. split; [exact Hclip|]. apply TimeWithinDay_add.
  - intros -> Hdays.
    pose proof (nextDueTime_weeks task t Hty Hdays) as E. fold i in E.
    rewrite E in Hclip, Hnext.
    split; [exact Hnext|]. split; [exact Hclip|]. split; [apply TimeWithinDay_add|].
    unfold getDay. rewrite WeekDay_add.
    pose proof (WeekDay_range t). dlia.
Qed.

Lemma interval_rules_add_whole_days_witness :
  next_due completed_world completed_root = Some (utc 2024 1 1 + 1 * msPerDay)
  /\ TimeClip (utc 2024 1 1 + 1 * msPerDay) = Some (utc 2024 1 1 + 1 * msPerDay)
  /\ TimeWithinDay (utc 2024 1 1 + 1 * msPerDay) = TimeWithinDay (utc 2024 1 1).
Proof.
  assert (Hrange : in_range completed_root (utc 2024 1 1) = true) by (vm_compute; reflexivity).
  refine (proj1 (interval_rules_add_whole_days completed_world completed_root (utc 2024 1 1)
                   "daily"%string eq_refl eq_refl Hrange) _).
  left. reflexivity.
Defined.

Lemma filter_head_In (p : Z -> bool) (l : list Z) (x : Z) (r : list Z) :
  List.filter p l = x :: r -> In x l /\ p x = true.
Proof.
  intros H. apply List.filter_In. rewrite H. now left.
Qed.

Lemma filter_nil_all (p : Z -> bool) (l : list Z) :
  List.filter p l = [] -> forall x, In x l -> p x = false.
Proof.
  intros H x Hin. destruct (p x) eqn:Hp; [|reflexivity].
  assert (Hx : In x (List.filter p l)) by now apply List.filter_In.
  rewrite H in Hx. destruct Hx.
Qed.

Lemma nextDueTime_weekly_days (task : ITask) (t firstDay : Z) (otherDays : list Z) :
  recurringType task = Some "weekly"%string ->
  recurringDays task = Some (firstDay :: otherDays) ->
  nextDueTime task t = weekly_on_days t firstDay otherDays.
Proof.
  intros Hty Hdays. unfold nextDueTime. rewrite Hty, Hdays. reflexivity.
Qed.

(** X8 (recurringTaskService.ts, calculateNextDueDate, case 'weekly'):
    with listed days of the week in 0..6, in any order and with or without
    repetitions, the next due date is between one and seven days after the
    due date, at the same time of day, and falls on a listed day of the
    week; it is a full week later only when no listed day comes later in
    the week than the due date.  The interval plays no role. *)
Theorem weekly_days_in_any_order (w : World) (task : ITask) (t firstDay : Z)
    (otherDays : list Z) :
  due_time w task = Some t ->
  recurringType task = Some "weekly"%string ->
  recurringDays task = Some (firstDay :: otherDays) ->
  (forall d, In d (firstDay :: otherDays) -> 0 <= d <= 6) ->
  exists k,
    1 <= k <= 7
    /\ next_due w task = Some (t + k * msPerDay)
    /\ In (getDay (t + k * msPerDay)) (firstDay :: otherDays)
    /\ TimeWithinDay (t + k * msPerDay) = TimeWithinDay t
    /\ (k = 7 -> forall d, In d (firstDay :: otherDays) -> d <= getDay t)
    /\ forall i, next_due w (with_interval i task) = next_due w task.
Proof.
  intros Ht Hty Hdays Hrange.
  pose proof (next_due_time w task t Ht) as E.
  rewrite (nextDueTime_weekly_days task t firstDay otherDays Hty Hdays) in E.
  assert (Hi : forall i, next_due w (with_interval i task) = next_due w task).
  { intros i. rewrite E.
    rewrite (next_due_time w (with_interval i task) t Ht). f_equal.
    apply nextDueTime_weekly_days; assumption. }
  unfold weekly_on_days in E. cbv zeta in E.
  pose proof (WeekDay_range t) as Hwd. fold (getDay t) in Hwd.
  destruct (List.filter (fun day => getDay t <? day) (firstDay :: otherDays))
    as [|nextDay rest] eqn:Hf; rewrite setDate_add in E.
  - pose proof (filter_nil_all _ _ Hf) as Hall.
    assert (Hle : forall d, In d (firstDay :: otherDays) -> d <= getDay t).
    { intros d Hd. specialize (Hall d Hd). cbn beta in Hall. lia. }
    pose proof (Hle firstDay (or_introl eq_refl)) as Hfirst.
    pose proof (Hrange firstDay (or_introl eq_refl)) as Hfr.
    exists (7 - getDay t + firstDay).
    split; [lia|]. split; [exact E|]. split.
    + left. unfold getDay in *. rewrite WeekDay_add. dlia.
    + split; [apply TimeWithinDay_add|]. split; [intros _; exact Hle | exact Hi].
  - destruct (filter_head_In _ _ _ _ Hf) as [Hin Hlt]. cbn beta in Hlt.
    pose proof (Hrange nextDay Hin) as Hnr.
    exists (nextDay - getDay t).
    split; [lia|]. split; [exact E|]. split.
    + replace (getDay (t + (nextDay - getDay t) * msPerDay)) with nextDay; [exact Hin|].
      unfold getDay in *. rewrite WeekDay_add. dlia.
    + split; [apply TimeWithinDay_add|]. split; [lia | exact Hi].
Qed.

Lemma weekly_days_in_any_order_witness :
  exists k,
    1 <= k <= 7
    /\ next_due weekly_world unsorted_root = Some (utc 2024 1 1 + k * msPerDay)
    /\ In (getDay (utc 2024 1 1 + k * msPerDay)) [5; 3; 1]
    /\ TimeWithinDay (utc 2024 1 1 + k * msPerDay) = TimeWithinDay (utc 2024 1 1)
    /\ (k = 7 -> forall d, In d [5; 3; 1] -> d <= getDay (utc 2024 1 1))
    /\ forall i, next_due weekly_world (with_interval i unsorted_root)
                 = next_due weekly_world unsorted_root.
Proof.
  apply (weekly_days_in_any_order weekly_world unsorted_root (utc 2024 1 1) 5 [3; 1]);
    try reflexivity.
  intros d Hd. cbn in Hd. lia.
Defined.

Lemma nextDueTime_monthly_interval (task : ITask) (t : Z) :
  recurringType task = Some "monthly"%string ->
  recurringDate task = None \/ recurringDate task = Some 0 ->
  nextDueTime task t = setMonth t (getMonth t + or_1 (recurringInterval task)).
Proof.
  intros Hty Hrd. unfold nextDueTime. rewrite Hty.
  destruct Hrd as [-> | ->]; reflexivity.
Qed.

(** [d.setMonth(d.getMonth() + i)]: the month moves by [i], the year rolls
    over, and a day the target month does not have carries over into the
    month after. *)
Lemma setMonth_carries (t i : Z) :
  let d := DateFromTime t in
  let y := YearFromTime t + (MonthFromTime t + i) / 12 in
  let m := (MonthFromTime t + i) mod 12 + 1 in
  TimeWithinDay (setMonth t (getMonth t + i)) = TimeWithinDay t
  /\ civil_from_days (Day (setMonth t (getMonth t + i)))
     = if d <=? days_in_month y m then (y, m, d)
       else (if m =? 12 then y + 1 else y, if m =? 12 then 1 else m + 1,
             d - days_in_month y m).
Proof.
  intros d y m. unfold setMonth, getMonth.
  pose proof (TimeWithinDay_range t) as Htod.
  split; [now apply TimeWithinDay_MakeDate|].
  rewrite Day_MakeDate by exact Htod.
  assert (E : MakeDay (YearFromTime t) (MonthFromTime t + i) (DateFromTime t)
              = days_from_civil y m 1 + d - 1) by reflexivity.
  rewrite E. clear E.
  destruct (date_of_time t) as (_ & _ & Hd). fold d in Hd.
  assert (Hm : 1 <= m <= 12) by (unfold m; dlia).
  pose proof (days_in_month_bounds y m) as Hdim.
  pose proof (days_in_month_bounds (YearFromTime t) (MonthFromTime t + 1)) as Hdim0.
  clearbody d y m.
  destruct (Z.leb_spec d (days_in_month y m)) as [Hle | Hgt].
  - replace (days_from_civil y m 1 + d - 1) with (days_from_civil y m d)
      by (rewrite (days_from_civil_linear y m d); lia).
    apply days_from_civil_inv; lia.
  - pose proof (days_from_civil_next_month y m Hm) as Hn.
    pose proof (days_in_month_bounds (if m =? 12 then y + 1 else y)
                  (if m =? 12 then 1 else m + 1)) as Hdim2.
    replace (days_from_civil y m 1 + d - 1)
      with (days_from_civil (if m =? 12 then y + 1 else y) (if m =? 12 then 1 else m + 1)
              (d - days_in_month y m))
      by (rewrite (days_from_civil_linear (if m =? 12 then y + 1 else y)); lia).
    apply days_from_civil_inv; [|lia].
    destruct (Z.eqb_spec m 12); lia.
Qed.

(** X9 (recurringTaskService.ts, calculateNextDueDate, case 'monthly'
    without recurringDate): where the time value computed stays in the
    range of the time values of a Date, the due date moves by the interval
    in months (absent or 0 counts as 1), the year rolling over, at the
    same time of day.  The day of the month is kept when the target month
    has it; otherwise the date is not clamped but carries over into the
    month after, by the number of days the target month lacks. *)
Theorem monthly_interval_carries_over (w : World) (task : ITask) (t : Z) :
  due_time w task = Some t ->
  recurringType task = Some "monthly"%string ->
  recurringDate task = None \/ recurringDate task = Some 0 ->
  in_range task t = true ->
  let i := or_1 (recurringInterval task) in
  let d := DateFromTime t in
  let y := YearFromTime t + (MonthFromTime t + i) / 12 in
  let m := (MonthFromTime t + i) mod 12 + 1 in
  exists n,
    next_due w task = Some n
    /\ TimeClip n = Some n
    /\ TimeWithinDay n = TimeWithinDay t
    /\ civil_from_days (Day n)
       = if d <=? days_in_month y m then (y, m, d)
         else (if m =? 12 then y + 1 else y, if m =? 12 then 1 else m + 1,
               d - days_in_month y m).
Proof.
  intros Ht Hty Hrd Hrange i d y m.
  pose proof (in_range_next task t Hrange) as Hclip.
  rewrite (nextDueTime_monthly_interval task t Hty Hrd) in Hclip.
  exists (setMonth t (getMonth t + i)). split.
  - rewrite (next_due_time w task t Ht). f_equal.
    exact (nextDueTime_monthly_interval task t Hty Hrd).
  - split; [exact Hclip|]. exact (setMonth_carries t i).
Qed.

Lemma monthly_interval_carries_over_witness :
  exists n,
    next_due january_31_world monthly_interval_root = Some n
    /\ TimeClip n = Some n
    /\ TimeWithinDay n = TimeWithinDay (utc 2024 1 31)
    /\ civil_from_days (Day n) = (2024, 3, 2).
Proof.
  assert (Hrange : in_range monthly_interval_root (utc 2024 1 31) = true)
    by (vm_compute; reflexivity).
  exact (monthly_interval_carries_over january_31_world monthly_interval_root (utc 2024 1 31)
           eq_refl eq_refl (or_introl eq_refl) Hrange).
Defined.

(** ** Repeated sweeps *)

(** A sweep over a store without completed recurring tasks, with a storage
    that does not fail, leaves a store of the same kind. *)
Lemma cron_job_quiet (w : World) :
  wf_world w -> faults w = [] ->
  (forall task, In task (tasks w) -> isRecurring task = true -> status task <> completed) ->
  let w1 := exec cron_job w in
  wf_world w1 /\ faults w1 = []
  /\ (forall task, In task (tasks w1) -> isRecurring task = true -> status task <> completed).
Proof.
  intros Hwf Hf Hnone. cbv zeta.
  pose proof (cron_job_grows w Hwf) as Hg.
  split; [exact (grows_wf _ _ Hwf Hg)|]. split.
  - unfold exec at 1. rewrite cron_job_run. cbn [snd].
    set (wa := set_console (console w ++ [Log_running]) w).
    assert (Hga : grows w wa)
      by (apply (grows_same w w); [apply grows_refl | reflexivity | reflexivity]).
    destruct (processCompletedRecurringTasks_nothing w wa Hga Hf Hnone) as (Hd1 & Ht1 & Hf1).
    set (wb := exec processCompletedRecurringTasks wa) in *.
    assert (Hgb : grows w wb) by (apply (grows_same w wa); assumption).
    now destruct (generateUpcomingRecurringTasks_covers w wb Hwf Hgb Hf1) as (_ & Hf1' & _).
  - intros task Hin Hrec. apply Hnone; [|exact Hrec].
    exact (grows_recurring _ _ _ Hg Hin Hrec).
Qed.

(** X10 (index.ts, the cron job; recurringTaskService.ts,
    generateUpcomingRecurringTasks, processCompletedRecurringTasks): when
    no recurring task is completed and the storage does not fail, running
    the sweep any number of times in a row creates what the first run
    creates and nothing more; the tasks of the store stay as they are, in
    front of the instances created. *)
Theorem repeated_sweeps_create_nothing (n : nat) (w : World) :
  wf_world w -> faults w = [] ->
  (forall task, In task (tasks w) -> isRecurring task = true -> status task <> completed) ->
  tasks (sweeps (S n) w) = tasks (exec cron_job w)
  /\ exists insts,
       tasks (sweeps (S n) w) = tasks w ++ insts
       /\ Forall (fun inst => isRecurring inst = false /\ status inst = todo
                    /\ exists parent, In parent (tasks w)
                                      /\ parentTaskId inst = Some (_id parent)) insts.
Proof.
  intros Hwf Hf Hnone.
  assert (Hsame : tasks (sweeps (S n) w) = tasks (exec cron_job w)).
  { revert w Hwf Hf Hnone. induction n as [|n IH]; intros w Hwf Hf Hnone; [reflexivity|].
    change (sweeps (S (S n)) w) with (sweeps (S n) (exec cron_job w)).
    destruct (cron_job_quiet w Hwf Hf Hnone) as (Hwf1 & Hf1 & Hnone1).
    rewrite (IH _ Hwf1 Hf1 Hnone1).
    exact (proj2 (second_sweep_creates_nothing w Hwf Hf Hnone)). }
  split; [exact Hsame|]. rewrite Hsame.
  destruct (cron_job_grows w Hwf) as (_ & insts & Hts & Hgen).
  exists insts. split; [exact Hts|].
  eapply Forall_impl; [exact Hgen|]. cbv beta.
  intros inst (parent & Hin & (oid & Hinst) & _).
  rewrite Hinst. cbn [isRecurring status parentTaskId new_instance].
  split; [reflexivity|]. split; [reflexivity|]. now exists parent.
Qed.

Lemma repeated_sweeps_create_nothing_witness :
  tasks (sweeps 3 weekly_world) = tasks (exec cron_job weekly_world).
Proof.
  refine (proj1 (repeated_sweeps_create_nothing 2 weekly_world _ eq_refl _)).
  - wf_by_evaluation.
  - intros task [<- | []] _. discriminate.
Defined.

(** ** The completed-parent pass *)

Lemma createNotification_quiet (userId : ObjectId) (message type : string)
    (entityId : option ObjectId) (w : World) :
  faults w = [] ->
  console (exec (createNotification userId message type entityId) w) = console w.
Proof.
  intros Hf. unfold exec, createNotification, Notification_save, io_emit, console_error,
    console_log, fault_point, fresh_oid, try_catch, bind, ret.
  cbn. rewrite Hf. reflexivity.
Qed.

(** With a storage that does not fail [createRecurringTaskInstance] logs
    nothing. *)
Lemma createRecurringTaskInstance_quiet (parent : ITask) (w : World) (t : Z) :
  due_time w parent = Some t -> wf_task (dates w) parent -> faults w = [] ->
  console (exec (createRecurringTaskInstance parent) w) = console w.
Proof.
  intros Ht [_ Hend] Hf.
  destruct (createRecurringTaskInstance_run parent w t Ht Hend) as [extra Hrun].
  cbv zeta in Hrun. unfold exec. rewrite Hrun. clear Hrun.
  rewrite Hf. cbn [head tail].
  destruct (match end_time (dates w) parent with
            | Some ev => ev <? nextDueTime parent t
            | None => false
            end); cbn [snd]; [reflexivity|].
  destruct (assignedTo parent =? createdBy parent)%nat; [reflexivity|].
  fold (exec (createNotification (assignedTo parent)
                ("New recurring task: " ++ title parent)%string "task_assigned"
                (Some (next_oid w)))
          (set_tasks (tasks w ++ [new_instance parent (next_oid w) (S (length (dates w)))])
             (set_faults []
                (set_next_oid (S (next_oid w))
                   (set_dates (dates w ++ [t; nextDueTime parent t] ++ extra) w))))).
  now rewrite createNotification_quiet.
Qed.

Lemma completed_loop_creates (w0 : World) (l : list ITask) :
  (forall task, In task l -> wf_task (dates w0) task) ->
  forall w, dates w0 `prefix_of` dates w -> faults w = [] ->
  let w' := fold_left (fun w task => exec (createRecurringTaskInstance task) w) l w in
  faults w' = [] /\ dates w `prefix_of` dates w' /\ console w' = console w
  /\ exists insts,
       tasks w' = tasks w ++ insts
       /\ Forall2 (fun parent inst =>
                     parentTaskId inst = Some (_id parent)
                     /\ exists t, due_time w0 parent = Some t
                                  /\ due_time w' inst = Some (nextDueTime parent t))
            (List.filter (has_next w0) l) insts.
Proof.
  induction l as [|task l IH]; intros Hl w Hp Hf; cbv zeta.
  - cbn [fold_left List.filter]. split; [exact Hf|]. split; [reflexivity|].
    split; [reflexivity|].
    exists []. split; [now rewrite app_nil_r | constructor].
  - cbn [fold_left].
    pose proof (Hl task (or_introl eq_refl)) as Hwf0.
    pose proof (wf_task_prefix _ _ _ Hwf0 Hp) as Hwf.
    destruct Hwf0 as [[t Ht0] Hend0].
    assert (Ht : due_time w task = Some t) by exact (prefix_lookup_Some _ _ _ _ Ht0 Hp).
    destruct (createRecurringTaskInstance_no_fault task w t Ht Hwf Hf) as (Hf1 & Hp1 & Hcase).
    set (w1 := exec (createRecurringTaskInstance task) w) in *.
    assert (Hp01 : dates w0 `prefix_of` dates w1) by (etransitivity; eassumption).
    pose proof (createRecurringTaskInstance_quiet task w t Ht Hwf Hf) as Hc1. fold w1 in Hc1.
    destruct (IH (fun x Hx => Hl x (or_intror Hx)) w1 Hp01 Hf1)
      as (Hf' & Hp' & Hc' & insts & Hts & Hall).
    set (w' := fold_left (fun w task => exec (createRecurringTaskInstance task) w) l w1) in *.
    split; [exact Hf'|]. split; [etransitivity; eassumption|].
    split; [now rewrite Hc', Hc1|].
    assert (Hhn : has_next w0 task = negb (past_end (dates w0) task t))
      by (unfold has_next, due_time; now rewrite Ht0).
    rewrite (past_end_prefix (dates w0) (dates w) task t (conj (ex_intro _ t Ht0) Hend0) Hp)
      in Hcase.
    cbn [List.filter]. rewrite Hhn.
    destruct (past_end (dates w0) task t); cbn [negb].
    + exists insts. split; [now rewrite Hts, Hcase | exact Hall].
    + destruct Hcase as (inst & Hts1 & Hinst & Hdue).
      exists (inst :: insts). split; [now rewrite Hts, Hts1, <- app_assoc|].
      constructor; [|exact Hall]. split; [now rewrite Hinst|].
      exists t. split; [exact Ht0|]. exact (prefix_lookup_Some _ _ _ _ Hdue Hp').
Qed.

Lemma Forall2_impl_In {A B} (P Q : A -> B -> Prop) (l : list A) (k : list B) :
  Forall2 P l k -> (forall x y, In x l -> P x y -> Q x y) -> Forall2 Q l k.
Proof.
  induction 1 as [|x y l k HP _ IH]; intros H; constructor.
  - apply H; [now left | exact HP].
  - apply IH. intros x' y' Hin. apply H. now right.
Qed.

(** X11 (recurringTaskService.ts, processCompletedRecurringTasks): with a
    storage that does not fail, and completed recurring tasks that have a
    title and a description that pass the validation of the schema and a
    next due date in the range of the time values of a Date, a run of the
    completed-parent pass adds one new instance for each completed
    recurring task whose next due date is not after its end date, in the
    order of the store, due at the next due date of its parent, whether
    or not the parent has an instance on that day already; it logs the
    number of completed recurring tasks it found. *)
Theorem completed_pass_creates_without_check (trim : string -> string) (w : World) :
  wf_world w -> faults w = [] ->
  Forall (fun parent =>
            instance_valid trim parent = true
            /\ forall t, due_time w parent = Some t -> in_range parent t = true)
    (List.filter (fun t => isRecurring t && Status_eqb (status t) completed) (tasks w)) ->
  let done := List.filter (fun t => isRecurring t && Status_eqb (status t) completed) (tasks w) in
  let w' := exec processCompletedRecurringTasks w in
  console w' = console w ++ [Log_processed (length done)]
  /\ exists insts,
       tasks w' = tasks w ++ insts
       /\ Forall2 (fun parent inst =>
                     parentTaskId inst = Some (_id parent)
                     /\ exists t, due_time w parent = Some t
                                  /\ due_time w' inst = Some (nextDueTime parent t)
                                  /\ TimeClip (nextDueTime parent t)
                                     = Some (nextDueTime parent t))
            (List.filter (has_next w) done) insts.
Proof.
  intros Hwf Hf Hvalid. cbv zeta.
  unfold exec at 1 2 3. rewrite processCompletedRecurringTasks_run. cbv zeta.
  rewrite Hf. cbn [head tail snd].
  set (done := List.filter (fun t => isRecurring t && Status_eqb (status t) completed) (tasks w))
    in *.
  assert (Hdone : forall task, In task done -> wf_task (dates w) task).
  { intros task Hin. apply List.filter_In in Hin as [Hin _].
    exact (wf_world_In _ _ Hwf Hin). }
  destruct (completed_loop_creates w done Hdone (set_faults [] w) (reflexivity _) eq_refl)
    as (_ & _ & Hc & insts & Hts & Hall).
  set (w2 := fold_left (fun w task => exec (createRecurringTaskInstance task) w) done
               (set_faults [] w)) in *.
  split.
  - cbn [console set_console]. now rewrite Hc.
  - exists insts. split; [exact Hts|].
    apply (Forall2_impl_In _ _ _ _ Hall).
    intros parent inst Hp (Hpar & t & Ht & Hdue).
    apply List.filter_In in Hp as [Hp _].
    split; [exact Hpar|]. exists t.
    split; [exact Ht|]. split; [exact Hdue|].
    apply in_range_next. exact (proj2 (proj1 (List.Forall_forall _ _) Hvalid parent Hp) t Ht).
Qed.

Lemma completed_pass_creates_without_check_witness :
  exists insts,
    tasks (exec processCompletedRecurringTasks completed_world)
    = tasks completed_world ++ insts
    /\ length insts = 1%nat.
Proof.
  destruct (completed_pass_creates_without_check (fun title => title) completed_world)
    as (_ & insts & Hts & Hall).
  - wf_by_evaluation.
  - reflexivity.
  - apply List.Forall_forall. intros parent Hp.
    apply List.filter_In in Hp as [[<- | []] _].
    split; [reflexivity|]. intros t Ht. vm_compute in Ht. injection Ht as <-.
    vm_compute. reflexivity.
  - exists insts. split; [exact Hts|].
    apply Forall2_length in Hall. rewrite <- Hall. reflexivity.
Defined.

(** ** Notifications *)

(** X12 (index.ts, createNotification): createNotification never throws,
    whatever the storage and the transport do.  For the string of an
    ObjectId as the user, a message that is not empty and a type of the
    schema: when neither the save nor the emit fails it returns the
    notification, which was stored and emitted to the room of its user,
    once each, and nothing was logged; when the save fails it returns
    null, an error was logged and nothing was stored or emitted; when
    only the emit fails it returns null and an error was logged, and the
    notification is in the store all the same.  For a string that is no
    ObjectId it returns null and logs an error, with nothing stored or
    emitted and no call of the storage.  Tasks and dates are never
    touched. *)
Theorem createNotification_never_throws (userId : ObjectId) (message type : string)
    (entityId : option ObjectId) (w : World) :
  message <> ""%string -> In type notification_types ->
  let n := mkNotification (next_oid w) userId message type entityId in
  let failure := Log_error "Error creating notification:" StorageError in
  let save_fails := if head (faults w) is Some true then true else false in
  let emit_fails := if head (tail (faults w)) is Some true then true else false in
  let w' := exec (createNotification_for (id_string userId) message type entityId) w in
  let w0 := exec (createNotification_for no_id_string message type entityId) w in
  (tasks w' = tasks w /\ dates w' = dates w
   /\ if save_fails
      then result (createNotification userId message type entityId) w = Ok None
           /\ notifications w' = notifications w
           /\ emitted w' = emitted w
           /\ console w' = console w ++ [failure]
      else if emit_fails
      then result (createNotification userId message type entityId) w = Ok None
           /\ notifications w' = notifications w ++ [n]
           /\ emitted w' = emitted w
           /\ console w' = console w ++ [failure]
      else result (createNotification userId message type entityId) w = Ok (Some n)
           /\ notifications w' = notifications w ++ [n]
           /\ emitted w' = emitted w ++ [(userId, n)]
           /\ console w' = console w)
  /\ (result (createNotification_for no_id_string message type entityId) w = Ok None
      /\ tasks w0 = tasks w /\ dates w0 = dates w
      /\ notifications w0 = notifications w
      /\ emitted w0 = emitted w
      /\ console w0 = console w ++ [failure]
      /\ faults w0 = faults w).
Proof.
  intros _ _. cbv zeta. split.
  - cbn [createNotification_for].
    destruct (createNotification_exec userId message type entityId w) as (Hd & Ht & _).
    destruct (createNotification_cases userId message type entityId w) as (Hr & Hn & He & Hc).
    cbv zeta in Hr, Hn, He, Hc.
    split; [exact Ht|]. split; [exact Hd|].
    destruct (head (faults w)) as [[|]|]; cbn [orb] in *.
    + auto.
    + destruct (head (tail (faults w))) as [[|]|]; cbn [orb] in *; auto.
    + destruct (head (tail (faults w))) as [[|]|]; cbn [orb] in *; auto.
  - unfold result, exec. cbn. repeat split.
Qed.

Lemma createNotification_never_throws_witness :
  let w := set_faults [false; true] weekly_world in
  let n := mkNotification 1%nat 7%nat "Task updated: Review the backlog"%string
             "task_updated"%string (Some 0%nat) in
  let w' := exec (createNotification 7%nat "Task updated: Review the backlog"
                    "task_updated" (Some 0%nat)) w in
  result (createNotification 7%nat "Task updated: Review the backlog" "task_updated"
            (Some 0%nat)) w = Ok None
  /\ notifications w' = [n]
  /\ emitted w' = []
  /\ console w' = [Log_error "Error creating notification:" StorageError].
Proof.
  assert (Hm : "Task updated: Review the backlog"%string <> ""%string) by discriminate.
  assert (Ht : In "task_updated"%string notification_types) by (right; left; reflexivity).
  destruct (createNotification_never_throws 7%nat "Task updated: Review the backlog"
              "task_updated" (Some 0%nat) (set_faults [false; true] weekly_world) Hm Ht)
    as ((_ & _ & H) & _).
  exact H.
Defined.

(** X24 (recurringTaskService.ts, createRecurringTaskInstance; index.ts,
    createNotification): for a parent as the sweep and the create route
    pass it, with the ObjectIds of its users, that has a title and a
    description that pass the validation of the schema, a next due date in
    the range of the time values of a Date and not after the end date:
    once the new instance is saved, createRecurringTaskInstance returns
    it, due at the next due date, whatever happens to the notification.
    When the assignee is the creator, no notification is made (nothing is
    stored, emitted or logged, no further storage call is made); when
    they differ, createNotification is called for the assignee: the
    notification is stored and emitted, or the failure of the save or of
    the emit is logged by createNotification and goes no further. *)
Theorem notification_follows_assignment (trim : string -> string) (parent : ITask)
    (w : World) (t : Z)
    (Ht : due_time w parent = Some t)
    (Hend : forall e, recurringEndDate parent = Some e -> is_Some (dates w !! e))
    (Hvalid : instance_valid trim parent = true)
    (Hrange : in_range parent t = true)
    (Hnot_past : past_end (dates w) parent t = false)
    (Hsaved : head (faults w) <> Some true) :
  let inst := new_instance parent (next_oid w) (S (length (dates w))) in
  let w' := exec (createRecurringTaskInstance parent) w in
  let n := mkNotification (S (next_oid w)) (assignedTo parent)
             ("New recurring task: " ++ title parent)%string "task_assigned"%string
             (Some (next_oid w)) in
  let f1 := if head (tail (faults w)) is Some true then true else false in
  let f2 := if head (tail (tail (faults w))) is Some true then true else false in
  result (createRecurringTaskInstance parent) w = Ok (Some inst)
  /\ tasks w' = tasks w ++ [inst]
  /\ due_time w' inst = Some (nextDueTime parent t)
  /\ TimeClip (nextDueTime parent t) = Some (nextDueTime parent t)
  /\ (assignedTo parent = createdBy parent ->
      notifications w' = notifications w /\ emitted w' = emitted w
      /\ console w' = console w /\ faults w' = tail (faults w))
  /\ (assignedTo parent <> createdBy parent ->
      notifications w' = (if f1 then notifications w else notifications w ++ [n])
      /\ emitted w' = (if f1 || f2 then emitted w else emitted w ++ [(assignedTo parent, n)])
      /\ console w'
         = (if f1 || f2
            then console w ++ [Log_error "Error creating notification:" StorageError]
            else console w)).
Proof.
  cbv zeta.
  assert (Hnp : forall ev, end_time (dates w) parent = Some ev -> nextDueTime parent t <= ev).
  { intros ev Hev. unfold past_end in Hnot_past. rewrite Hev in Hnot_past. lia. }
  destruct (createRecurringTaskInstance_saved parent w t Ht Hend Hnp Hsaved)
    as (Hres & Htasks & Hsame & Hdiff).
  split; [exact Hres|]. split; [exact Htasks|]. split.
  { destruct (createRecurringTaskInstance_grows_1 parent w t Ht Hend) as (r & w1 & E & Hcases).
    unfold result, exec in Hres |- *. rewrite E in Hres |- *. cbn [fst snd] in Hres |- *.
    injection Hres as ->. exact (proj2 Hcases). }
  split; [exact (in_range_next parent t Hrange)|].
  split; [exact Hsame | exact Hdiff].
Qed.

Lemma notification_follows_assignment_witness :
  let w' := exec (createRecurringTaskInstance weekly_root) weekly_world in
  let n := mkNotification 2%nat 7%nat "New recurring task: Review the backlog"%string
             "task_assigned"%string (Some 1%nat) in
  result (createRecurringTaskInstance weekly_root) weekly_world
  = Ok (Some (new_instance weekly_root 1%nat 2%nat))
  /\ notifications w' = [n] /\ emitted w' = [(7%nat, n)] /\ console w' = [].
Proof.
  assert (Hend : forall e, recurringEndDate weekly_root = Some e ->
                           is_Some (dates weekly_world !! e))
    by (intros e He; discriminate He).
  assert (Hv : instance_valid (fun title => title) weekly_root = true) by reflexivity.
  assert (Hr : in_range weekly_root (utc 2024 1 1) = true) by (vm_compute; reflexivity).
  assert (Hs : head (faults weekly_world) <> Some true) by discriminate.
  destruct (notification_follows_assignment (fun title => title) weekly_root weekly_world
              (utc 2024 1 1) eq_refl Hend Hv Hr eq_refl Hs) as (H1 & _ & _ & _ & _ & H4).
  assert (Hne : assignedTo weekly_root <> createdBy weekly_root) by discriminate.
  destruct (H4 Hne) as (Hn & He & Hc).
  exact (conj H1 (conj Hn (conj He Hc))).
Defined.

(** ** The notification store of the frontend *)

Lemma store_ids_with_read (f : NotificationStore.Notification -> bool)
    (l : list NotificationStore.Notification) :
  map NotificationStore._id
    (map (fun n => if f n then NotificationStore.with_read n else n) l)
  = map NotificationStore._id l.
Proof.
  induction l as [|n l IH]; [reflexivity|]. cbn [map]. rewrite IH.
  now destruct (f n).
Qed.

Lemma store_existsb_In (n : NotificationStore.Notification)
    (l : list NotificationStore.Notification) :
  existsb (fun x => (NotificationStore._id x =? NotificationStore._id n)%string) l = true
  <-> In (NotificationStore._id n) (map NotificationStore._id l).
Proof.
  rewrite existsb_exists, in_map_iff. split.
  - intros (x & Hin & Heq). apply String.eqb_eq in Heq. now exists x.
  - intros (x & Heq & Hin). exists x. split; [exact Hin|]. now apply String.eqb_eq.
Qed.

Lemma store_unread_all_read (l : list NotificationStore.Notification) :
  NotificationStore.unread (map NotificationStore.with_read l) = 0%nat.
Proof. induction l as [|n l IH]; [reflexivity | exact IH]. Qed.

Lemma store_dispatch_consistent (s : NotificationStore.NotificationState)
    (a : NotificationStore.Action) :
  NotificationStore.unreadCount s = NotificationStore.unread (NotificationStore.notifications s)
  /\ NoDup (map NotificationStore._id (NotificationStore.notifications s)) ->
  let s' := NotificationStore.dispatch s a in
  NotificationStore.unreadCount s' = NotificationStore.unread (NotificationStore.notifications s')
  /\ NoDup (map NotificationStore._id (NotificationStore.notifications s')).
Proof.
  intros [Hc Hn]. destruct a as [n | id | |]; cbn [NotificationStore.dispatch].
  - unfold NotificationStore.addNotification. cbv zeta.
    destruct (existsb _ _) eqn:Hex; [now split|].
    cbn [NotificationStore.notifications NotificationStore.unreadCount]. split; [reflexivity|].
    cbn [map]. constructor; [|exact Hn]. rewrite list_elem_of_In.
    intros Hin. apply store_existsb_In in Hin. congruence.
  - unfold NotificationStore.markAsRead. cbv zeta.
    cbn [NotificationStore.notifications NotificationStore.unreadCount]. split; [reflexivity|].
    now rewrite (store_ids_with_read (fun n => (NotificationStore._id n =? id)%string)).
  - unfold NotificationStore.markAllAsRead.
    cbn [NotificationStore.notifications NotificationStore.unreadCount].
    split; [now rewrite store_unread_all_read|].
    rewrite map_map. exact Hn.
  - cbn. split; [reflexivity | constructor].
Qed.

(** X13 (notification store of the frontend: addNotification, markAsRead,
    markAllAsRead, clearNotifications): after any sequence of calls on the
    empty store the counter unreadCount is the number of notifications of
    the list that are not read, and no two notifications of the list have
    the same id. *)
Theorem store_counter_is_consistent (actions : list NotificationStore.Action) :
  let s := NotificationStore.run actions NotificationStore.initial in
  NotificationStore.unreadCount s
  = length (List.filter (fun n => negb (NotificationStore.read n))
              (NotificationStore.notifications s))
  /\ NoDup (map NotificationStore._id (NotificationStore.notifications s)).
Proof.
  cbv zeta. unfold NotificationStore.run.
  assert (H0 : NotificationStore.unreadCount NotificationStore.initial
               = NotificationStore.unread
                   (NotificationStore.notifications NotificationStore.initial)
               /\ NoDup (map NotificationStore._id
                           (NotificationStore.notifications NotificationStore.initial)))
    by (split; [reflexivity | constructor]).
  revert H0. generalize NotificationStore.initial.
  induction actions as [|a actions IH]; intros s Hs; [exact Hs|].
  cbn [fold_left]. apply IH. now apply store_dispatch_consistent.
Qed.

Lemma store_mark_twice (id : string) (l : list NotificationStore.Notification) :
  let mark := fun n : NotificationStore.Notification =>
                if (NotificationStore._id n =? id)%string
                then NotificationStore.with_read n else n in
  map mark (map mark l) = map mark l.
Proof.
  cbv zeta. rewrite map_map. apply map_ext. intros n.
  destruct (NotificationStore._id n =? id)%string eqn:E; [|now rewrite E].
  cbn [NotificationStore.with_read NotificationStore._id]. now rewrite E.
Qed.

Lemma store_mark_all (id : string) (l : list NotificationStore.Notification) :
  let mark := fun n : NotificationStore.Notification =>
                if (NotificationStore._id n =? id)%string
                then NotificationStore.with_read n else n in
  map NotificationStore.with_read (map mark l) = map NotificationStore.with_read l
  /\ map mark (map NotificationStore.with_read l) = map NotificationStore.with_read l.
Proof.
  cbv zeta. rewrite !map_map. split; apply map_ext; intros n.
  - now destruct (NotificationStore._id n =? id)%string.
  - now destruct (NotificationStore._id (NotificationStore.with_read n) =? id)%string.
Qed.

Lemma store_unread_mark (f : NotificationStore.Notification -> bool)
    (l : list NotificationStore.Notification) :
  (NotificationStore.unread
     (map (fun n => if f n then NotificationStore.with_read n else n) l)
   <= NotificationStore.unread l)%nat.
Proof.
  unfold NotificationStore.unread.
  induction l as [|n l IH]; [reflexivity|]. cbn [map List.filter].
  destruct (f n); cbn [NotificationStore.with_read NotificationStore.read negb];
    destruct (NotificationStore.read n); cbn [negb length]; lia.
Qed.

(** X14 (notification store of the frontend: markAsRead, markAllAsRead,
    addNotification): marking a notification read twice is marking it
    once; marking all read absorbs marking one read, before or after;
    marking one read never raises the number of unread notifications of
    the list; and a notification whose id the store holds already is
    ignored, so the copy that came first stays as it is. *)
Theorem store_reading_laws (s : NotificationStore.NotificationState) (id : string)
    (n n' : NotificationStore.Notification) :
  NotificationStore.markAsRead id (NotificationStore.markAsRead id s)
  = NotificationStore.markAsRead id s
  /\ NotificationStore.markAllAsRead (NotificationStore.markAsRead id s)
     = NotificationStore.markAllAsRead s
  /\ NotificationStore.markAsRead id (NotificationStore.markAllAsRead s)
     = NotificationStore.markAllAsRead s
  /\ (NotificationStore.unreadCount (NotificationStore.markAsRead id s)
      <= NotificationStore.unread (NotificationStore.notifications s))%nat
  /\ (NotificationStore._id n' = NotificationStore._id n ->
      NotificationStore.addNotification n' (NotificationStore.addNotification n s)
      = NotificationStore.addNotification n s).
Proof.
  destruct (store_mark_all id (NotificationStore.notifications s)) as [Ha Hb].
  cbv zeta in Ha, Hb.
  unfold NotificationStore.markAsRead, NotificationStore.markAllAsRead. cbv zeta.
  cbn [NotificationStore.notifications NotificationStore.unreadCount].
  split; [now rewrite (store_mark_twice id)|].
  split; [now rewrite Ha|].
  split.
  { rewrite Hb. f_equal. apply store_unread_all_read. }
  split.
  { apply (store_unread_mark (fun n => (NotificationStore._id n =? id)%string)). }
  intros Hid. unfold NotificationStore.addNotification at 2 3. cbv zeta.
  destruct (existsb _ (NotificationStore.notifications s)) eqn:Hex.
  - unfold NotificationStore.addNotification. cbv zeta. rewrite Hid, Hex. reflexivity.
  - unfold NotificationStore.addNotification. cbv zeta.
    cbn [NotificationStore.notifications existsb]. rewrite Hid, String.eqb_refl. reflexivity.
Qed.

(** ** The route guard of the frontend *)

(** X15 (route guard of the frontend, middleware): the guard never sends a
    request to a page from which it would redirect again with the same
    cookies; the pages /auth/login and /auth/register are always let
    through; and a path that starts with /dashboard is let through only
    when the request carries a cookie with a non-empty value whose name is
    token or starts with token_session_. *)
Theorem guard_redirects_at_most_once (path : string) (cookies : NextMiddleware.Cookies) :
  (forall target,
     NextMiddleware.middleware path cookies = NextMiddleware.redirect target ->
     NextMiddleware.middleware target cookies = NextMiddleware.next)
  /\ NextMiddleware.middleware "/auth/login" cookies = NextMiddleware.next
  /\ NextMiddleware.middleware "/auth/register" cookies = NextMiddleware.next
  /\ (String.prefix "/dashboard" path = true ->
      NextMiddleware.middleware path cookies = NextMiddleware.next ->
      exists name value,
        In (name, value) cookies /\ value <> ""%string
        /\ (name = "token"%string \/ String.prefix "token_session_" name = true)).
Proof.
  split; [|split; [reflexivity | split; [reflexivity|]]].
  - intros target. unfold NextMiddleware.middleware at 1. cbv zeta.
    set (auth := (existsb _ cookies || _)%bool).
    destruct (String.prefix "/dashboard" path && negb auth)%bool eqn:E1.
    + intros [= <-]. reflexivity.
    + destruct (String.prefix "/auth" path && negb (path =? "/auth/login")%string
                && negb (path =? "/auth/register")%string && auth)%bool eqn:E2;
        [|discriminate].
      intros [= <-].
      apply andb_prop in E2 as [_ Hauth].
      unfold NextMiddleware.middleware. cbv zeta. fold auth. rewrite Hauth. reflexivity.
  - intros Hp. unfold NextMiddleware.middleware. cbv zeta. rewrite Hp.
    set (auth := (existsb _ cookies || _)%bool).
    destruct auth eqn:Hauth; [|discriminate]. intros _.
    unfold auth in Hauth. apply orb_prop in Hauth as [H | H].
    + apply existsb_exists in H as ([name value] & Hin & Hc). cbn [fst snd] in Hc.
      apply andb_prop in Hc as [Hname Hval].
      exists name, value. split; [exact Hin|]. split; [|now right].
      intros ->. discriminate Hval.
    + unfold NextMiddleware.cookies_get in H.
      destruct (List.find _ cookies) as [[name value]|] eqn:Hfind; [|discriminate].
      apply find_some in Hfind as [Hin Hname]. cbn [fst snd] in *.
      apply String.eqb_eq in Hname. subst name.
      exists "token"%string, value. split; [exact Hin|]. split; [|now left].
      intros ->. discriminate H.
Qed.

(** ** The notification routes *)

Ltac inbox_unfold :=
  unfold NotificationRoutes.mark_read, NotificationRoutes.mark_all_read,
    NotificationRoutes.unread_count, NotificationRoutes.delete,
    NotificationRoutes.Notification_findById, NotificationRoutes.Notification_save,
    NotificationRoutes.Notification_deleteOne, NotificationRoutes.Notification_markAll,
    NotificationRoutes.Notification_countUnread, NotificationRoutes.console_error,
    NotificationRoutes.fault_point, Http.try_catch, Http.bind, Http.ret, Http.error.

Lemma mark_read_cases (id : option ObjectId) (u : option User.IUser)
    (s : NotificationRoutes.Inbox) :
  exists resp s',
    NotificationRoutes.mark_read id u s = (Ok resp, s')
    /\ ((Http.code resp = 200%nat
         /\ exists i d usr,
              id = Some i /\ u = Some usr
              /\ List.find (fun d => (n_id (NotificationRoutes.notification d) =? i)%nat)
                   (NotificationRoutes.docs s) = Some d
              /\ n_user (NotificationRoutes.notification d) = User._id usr
              /\ Http.data resp
                 = Some (NotificationRoutes.mkDoc (NotificationRoutes.notification d) true)
              /\ NotificationRoutes.docs s'
                 = NotificationRoutes.replace_first
                     (NotificationRoutes.mkDoc (NotificationRoutes.notification d) true)
                     (NotificationRoutes.docs s))
        \/ (Http.code resp <> 200%nat
            /\ NotificationRoutes.docs s' = NotificationRoutes.docs s)).
Proof.
  inbox_unfold. destruct id as [i|]; [|eexists _, _; split; [reflexivity|]; right; now split].
  cbn [NotificationRoutes.docs NotificationRoutes.faults NotificationRoutes.console].
  destruct (head (NotificationRoutes.faults s)) as [[|]|] eqn:H1.
  1: { eexists _, _. split; [reflexivity|]. right. now split. }
  all: cbn [NotificationRoutes.docs NotificationRoutes.faults NotificationRoutes.console].
  all: destruct (List.find _ (NotificationRoutes.docs s)) as [d|] eqn:Hfind;
    [|eexists _, _; split; [reflexivity|]; right; now split].
  all: destruct (NotificationRoutes.not_owner d u) eqn:Hown;
    [eexists _, _; split; [reflexivity|]; right; now split|].
  all: destruct u as [usr|]; [|discriminate Hown].
  all: cbn [NotificationRoutes.not_owner] in Hown;
    apply negb_false_iff, Nat.eqb_eq in Hown.
  all: cbn [NotificationRoutes.docs NotificationRoutes.faults NotificationRoutes.console].
  all: destruct (head (tail (NotificationRoutes.faults s))) as [[|]|] eqn:H2.
  all: eexists _, _; (split; [reflexivity|]).
  all: cbn [Http.code Http.data NotificationRoutes.docs].
  all: try (right; now split).
  all: left; split; [reflexivity|]; exists i, d, usr; now repeat split.
Qed.

Lemma delete_cases (id : option ObjectId) (u : option User.IUser)
    (s : NotificationRoutes.Inbox) :
  exists resp s',
    NotificationRoutes.delete id u s = (Ok resp, s')
    /\ ((Http.code resp = 200%nat
         /\ exists i d usr,
              id = Some i /\ u = Some usr
              /\ List.find (fun d => (n_id (NotificationRoutes.notification d) =? i)%nat)
                   (NotificationRoutes.docs s) = Some d
              /\ n_user (NotificationRoutes.notification d) = User._id usr
              /\ NotificationRoutes.docs s'
                 = NotificationRoutes.remove_first
                     (n_id (NotificationRoutes.notification d)) (NotificationRoutes.docs s))
        \/ (Http.code resp <> 200%nat
            /\ NotificationRoutes.docs s' = NotificationRoutes.docs s)).
Proof.
  inbox_unfold. destruct id as [i|]; [|eexists _, _; split; [reflexivity|]; right; now split].
  cbn [NotificationRoutes.docs NotificationRoutes.faults NotificationRoutes.console].
  destruct (head (NotificationRoutes.faults s)) as [[|]|] eqn:H1.
  1: { eexists _, _. split; [reflexivity|]. right. now split. }
  all: cbn [NotificationRoutes.docs NotificationRoutes.faults NotificationRoutes.console].
  all: destruct (List.find _ (NotificationRoutes.docs s)) as [d|] eqn:Hfind;
    [|eexists _, _; split; [reflexivity|]; right; now split].
  all: destruct (NotificationRoutes.not_owner d u) eqn:Hown;
    [eexists _, _; split; [reflexivity|]; right; now split|].
  all: destruct u as [usr|]; [|discriminate Hown].
  all: cbn [NotificationRoutes.not_owner] in Hown;
    apply negb_false_iff, Nat.eqb_eq in Hown.
  all: cbn [NotificationRoutes.docs NotificationRoutes.faults NotificationRoutes.console].
  all: destruct (head (tail (NotificationRoutes.faults s))) as [[|]|] eqn:H2.
  all: eexists _, _; (split; [reflexivity|]).
  all: cbn [Http.code Http.data NotificationRoutes.docs].
  all: try (right; now split).
  all: left; split; [reflexivity|]; exists i, d, usr; now repeat split.
Qed.

Lemma mark_all_read_cases (u : option User.IUser) (s : NotificationRoutes.Inbox) :
  exists resp s',
    NotificationRoutes.mark_all_read u s = (Ok resp, s')
    /\ ((Http.code resp = 200%nat
         /\ exists usr,
              u = Some usr
              /\ NotificationRoutes.docs s'
                 = map (fun d => if NotificationRoutes.unread_of (User._id usr) d
                                 then NotificationRoutes.mkDoc
                                        (NotificationRoutes.notification d) true
                                 else d)
                     (NotificationRoutes.docs s))
        \/ (Http.code resp <> 200%nat
            /\ NotificationRoutes.docs s' = NotificationRoutes.docs s)).
Proof.
  inbox_unfold. destruct u as [usr|]; [|eexists _, _; split; [reflexivity|]; right; now split].
  destruct (head (NotificationRoutes.faults s)) as [[|]|] eqn:H1.
  all: eexists _, _; (split; [reflexivity|]).
  all: cbn [Http.code Http.data NotificationRoutes.docs].
  all: try (right; now split).
  all: left; split; [reflexivity|]; now exists usr.
Qed.

Lemma unread_count_cases (u : option User.IUser) (s : NotificationRoutes.Inbox) :
  exists resp s',
    NotificationRoutes.unread_count u s = (Ok resp, s')
    /\ NotificationRoutes.docs s' = NotificationRoutes.docs s
    /\ (Http.code resp = 200%nat ->
        exists usr,
          u = Some usr
          /\ Http.data resp
             = Some (length (List.filter (NotificationRoutes.unread_of (User._id usr))
                               (NotificationRoutes.docs s)))).
Proof.
  inbox_unfold. destruct u as [usr|];
    [|eexists _, _; split; [reflexivity|]; split; [reflexivity | discriminate]].
  destruct (head (NotificationRoutes.faults s)) as [[|]|] eqn:H1.
  all: eexists _, _; (split; [reflexivity|]).
  all: cbn [Http.code Http.data NotificationRoutes.docs].
  all: split; [reflexivity|]; try discriminate.
  all: intros _; now exists usr.
Qed.

Lemma of_others_replace_first (user : ObjectId) (i : ObjectId)
    (d : NotificationRoutes.INotification) (b : bool)
    (l : list NotificationRoutes.INotification) :
  List.find (fun d => (n_id (NotificationRoutes.notification d) =? i)%nat) l = Some d ->
  n_user (NotificationRoutes.notification d) = user ->
  NotificationRoutes.of_others user
    (NotificationRoutes.replace_first
       (NotificationRoutes.mkDoc (NotificationRoutes.notification d) b) l)
  = NotificationRoutes.of_others user l.
Proof.
  intros Hfind Hu. induction l as [|x l IH]; [reflexivity|].
  cbn [List.find] in Hfind.
  cbn [NotificationRoutes.replace_first NotificationRoutes.notification].
  destruct (n_id (NotificationRoutes.notification x) =? i)%nat eqn:Hx.
  - injection Hfind as ->. apply Nat.eqb_eq in Hx. rewrite Hx, Nat.eqb_refl.
    unfold NotificationRoutes.of_others. cbn [List.filter NotificationRoutes.notification].
    now rewrite Hu, Nat.eqb_refl.
  - assert (Hd : n_id (NotificationRoutes.notification d) = i).
    { apply find_some in Hfind as [_ H]. now apply Nat.eqb_eq in H. }
    rewrite Hd, Hx. unfold NotificationRoutes.of_others in *. cbn [List.filter].
    now rewrite (IH Hfind).
Qed.

Lemma of_others_remove_first (user : ObjectId) (i : ObjectId)
    (d : NotificationRoutes.INotification) (l : list NotificationRoutes.INotification) :
  List.find (fun d => (n_id (NotificationRoutes.notification d) =? i)%nat) l = Some d ->
  n_user (NotificationRoutes.notification d) = user ->
  NotificationRoutes.of_others user
    (NotificationRoutes.remove_first (n_id (NotificationRoutes.notification d)) l)
  = NotificationRoutes.of_others user l.
Proof.
  intros Hfind Hu.
  assert (Hd : n_id (NotificationRoutes.notification d) = i).
  { apply find_some in Hfind as [_ H]. now apply Nat.eqb_eq in H. }
  induction l as [|x l IH]; [reflexivity|].
  cbn [List.find] in Hfind. cbn [NotificationRoutes.remove_first].
  rewrite Hd.
  destruct (n_id (NotificationRoutes.notification x) =? i)%nat eqn:Hx.
  - injection Hfind as ->.
    unfold NotificationRoutes.of_others. cbn [List.filter].
    now rewrite Hu, Nat.eqb_refl.
  - unfold NotificationRoutes.of_others in *. cbn [List.filter].
    rewrite <- Hd. now rewrite (IH Hfind).
Qed.

Lemma of_others_mark_all (user : ObjectId) (l : list NotificationRoutes.INotification) :
  NotificationRoutes.of_others user
    (map (fun d => if NotificationRoutes.unread_of user d
                   then NotificationRoutes.mkDoc (NotificationRoutes.notification d) true
                   else d) l)
  = NotificationRoutes.of_others user l.
Proof.
  unfold NotificationRoutes.of_others, NotificationRoutes.unread_of.
  induction l as [|x l IH]; [reflexivity|]. cbn [map List.filter].
  destruct (n_user (NotificationRoutes.notification x) =? user)%nat eqn:Hx; cbn [andb].
  - destruct (negb (NotificationRoutes.read x)); cbn [NotificationRoutes.notification];
      now rewrite Hx.
  - now rewrite Hx, IH.
Qed.

(** X16 (routes/notifications.ts: PUT /:id/read, PUT /read-all,
    GET /unread-count, DELETE /:id): whatever a user requests and whatever
    the database does, the notifications of the other users stay as they
    are, in their order; a request without a user changes nothing. *)
Theorem notification_routes_touch_own_only (u : User.IUser)
    (r : NotificationRoutes.Request) (s : NotificationRoutes.Inbox) :
  NotificationRoutes.of_others (User._id u)
    (NotificationRoutes.docs (NotificationRoutes.handle (Some u) r s))
  = NotificationRoutes.of_others (User._id u) (NotificationRoutes.docs s)
  /\ NotificationRoutes.docs (NotificationRoutes.handle None r s) = NotificationRoutes.docs s.
Proof.
  destruct r as [id | | | id]; cbn [NotificationRoutes.handle].
  - split.
    + destruct (mark_read_cases id (Some u) s) as (resp & s' & E & Hc). rewrite E. cbn [snd].
      destruct Hc as [(_ & i & d & usr & _ & [= <-] & Hfind & Hu & _ & ->) | (_ & ->)];
        [|reflexivity].
      exact (of_others_replace_first _ _ _ _ _ Hfind Hu).
    + destruct (mark_read_cases id None s) as (resp & s' & E & Hc). rewrite E. cbn [snd].
      destruct Hc as [(_ & i & d & usr & _ & [=] & _) | (_ & ->)]. reflexivity.
  - split.
    + destruct (mark_all_read_cases (Some u) s) as (resp & s' & E & Hc). rewrite E. cbn [snd].
      destruct Hc as [(_ & usr & [= <-] & ->) | (_ & ->)]; [|reflexivity].
      apply of_others_mark_all.
    + destruct (mark_all_read_cases None s) as (resp & s' & E & Hc). rewrite E. cbn [snd].
      destruct Hc as [(_ & usr & [=] & _) | (_ & ->)]. reflexivity.
  - split.
    + destruct (unread_count_cases (Some u) s) as (resp & s' & E & Hd & _).
      rewrite E. cbn [snd]. now rewrite Hd.
    + destruct (unread_count_cases None s) as (resp & s' & E & Hd & _).
      rewrite E. exact Hd.
  - split.
    + destruct (delete_cases id (Some u) s) as (resp & s' & E & Hc). rewrite E. cbn [snd].
      destruct Hc as [(_ & i & d & usr & _ & [= <-] & Hfind & Hu & ->) | (_ & ->)];
        [|reflexivity].
      exact (of_others_remove_first _ _ _ _ Hfind Hu).
    + destruct (delete_cases id None s) as (resp & s' & E & Hc). rewrite E. cbn [snd].
      destruct Hc as [(_ & i & d & usr & _ & [=] & _) | (_ & ->)]. reflexivity.
Qed.

Lemma unread_after_mark_all (user : ObjectId) (l : list NotificationRoutes.INotification) :
  List.filter (NotificationRoutes.unread_of user)
    (map (fun d => if NotificationRoutes.unread_of user d
                   then NotificationRoutes.mkDoc (NotificationRoutes.notification d) true
                   else d) l)
  = [].
Proof.
  induction l as [|x l IH]; [reflexivity|]. cbn [map List.filter].
  destruct (NotificationRoutes.unread_of user x) eqn:Hx.
  - unfold NotificationRoutes.unread_of at 1.
    cbn [NotificationRoutes.read negb]. rewrite andb_false_r. exact IH.
  - rewrite Hx. exact IH.
Qed.

Lemma unread_after_replace_first (user i : ObjectId) (d : NotificationRoutes.INotification)
    (l : list NotificationRoutes.INotification) :
  List.find (fun d => (n_id (NotificationRoutes.notification d) =? i)%nat) l = Some d ->
  n_user (NotificationRoutes.notification d) = user ->
  (length (List.filter (NotificationRoutes.unread_of user)
             (NotificationRoutes.replace_first
                (NotificationRoutes.mkDoc (NotificationRoutes.notification d) true) l))
   + (if NotificationRoutes.read d then 0 else 1)
   = length (List.filter (NotificationRoutes.unread_of user) l))%nat.
Proof.
  intros Hfind Hu.
  assert (Hd : n_id (NotificationRoutes.notification d) = i).
  { apply find_some in Hfind as [_ H]. now apply Nat.eqb_eq in H. }
  induction l as [|x l IH]; [discriminate Hfind|].
  cbn [List.find] in Hfind.
  cbn [NotificationRoutes.replace_first NotificationRoutes.notification]. rewrite Hd.
  destruct (n_id (NotificationRoutes.notification x) =? i)%nat eqn:Hx.
  - injection Hfind as ->. cbn [List.filter].
    assert (H1 : NotificationRoutes.unread_of user
                   (NotificationRoutes.mkDoc (NotificationRoutes.notification d) true) = false)
      by (unfold NotificationRoutes.unread_of; cbn; apply andb_false_r).
    assert (H2 : NotificationRoutes.unread_of user d = negb (NotificationRoutes.read d))
      by (unfold NotificationRoutes.unread_of; now rewrite Hu, Nat.eqb_refl).
    rewrite H1, H2.
    destruct (NotificationRoutes.read d); cbn [negb length]; lia.
  - cbn [List.filter]. specialize (IH Hfind).
    destruct (NotificationRoutes.unread_of user x); cbn [length]; lia.
Qed.

(** X17 (routes/notifications.ts: PUT /read-all, PUT /:id/read,
    GET /unread-count): the unread count a user is given is the number of
    the user's notifications that are not read.  After a read-all request
    that was answered with 200 no notification of the user is unread, none
    was added or removed, and the count is 0.  A request to mark one
    notification read that was answered with 200 has found a notification
    of the user with the id of the request and has stored it as read; the
    count is one less than before if that notification was unread and the
    same if it was read. *)
Theorem unread_count_follows_reading (u : User.IUser) (s s1 : NotificationRoutes.Inbox) :
  let count := fun s => length (List.filter (NotificationRoutes.unread_of (User._id u))
                                  (NotificationRoutes.docs s)) in
  (forall r s', NotificationRoutes.unread_count (Some u) s = (Ok r, s') ->
                Http.code r = 200%nat -> Http.data r = Some (count s))
  /\ (forall r, NotificationRoutes.mark_all_read (Some u) s = (Ok r, s1) ->
                Http.code r = 200%nat ->
                count s1 = 0%nat
                /\ map NotificationRoutes.notification (NotificationRoutes.docs s1)
                   = map NotificationRoutes.notification (NotificationRoutes.docs s))
  /\ (forall id r, NotificationRoutes.mark_read id (Some u) s = (Ok r, s1) ->
                   Http.code r = 200%nat ->
                   exists i d,
                     id = Some i
                     /\ List.find (fun d => (n_id (NotificationRoutes.notification d) =? i)%nat)
                          (NotificationRoutes.docs s) = Some d
                     /\ n_user (NotificationRoutes.notification d) = User._id u
                     /\ Http.data r
                        = Some (NotificationRoutes.mkDoc (NotificationRoutes.notification d)
                                  true)
                     /\ NotificationRoutes.docs s1
                        = NotificationRoutes.replace_first
                            (NotificationRoutes.mkDoc (NotificationRoutes.notification d) true)
                            (NotificationRoutes.docs s)
                     /\ count s = (if NotificationRoutes.read d then count s1
                                   else S (count s1))).
Proof.
  cbv zeta. split; [|split].
  - intros r s' E Hc.
    destruct (unread_count_cases (Some u) s) as (resp & s2 & E' & _ & H).
    rewrite E in E'. injection E' as <- <-.
    destruct (H Hc) as (usr & [= <-] & Hdata). exact Hdata.
  - intros r E Hc.
    destruct (mark_all_read_cases (Some u) s) as (resp & s2 & E' & Hcases).
    rewrite E in E'. injection E' as <- <-.
    destruct Hcases as [(_ & usr & [= <-] & ->) | (Hne & _)]; [|contradiction].
    rewrite unread_after_mark_all. split; [reflexivity|].
    rewrite map_map. apply map_ext. intros x.
    now destruct (NotificationRoutes.unread_of (User._id u) x).
  - intros id r E Hc.
    destruct (mark_read_cases id (Some u) s) as (resp & s2 & E' & Hcases).
    rewrite E in E'. injection E' as <- <-.
    destruct Hcases as [(_ & i & d0 & usr & -> & [= <-] & Hfind & Hu & Hd & Hdocs) | (Hne & _)];
      [|contradiction].
    exists i, d0. do 4 (split; [first [reflexivity | assumption]|]).
    split; [exact Hdocs|]. rewrite Hdocs.
    pose proof (unread_after_replace_first _ _ _ _ Hfind Hu) as Hcount.
    destruct (NotificationRoutes.read d0); lia.
Qed.

(** ** The task routes *)

Lemma st_bind_run {S A B} (m : Http.St S A) (k : A -> Http.St S B) (s s' : S) (a : A) :
  m s = (Ok a, s') -> Http.bind m k s = k a s'.
Proof. intros E. unfold Http.bind. now rewrite E. Qed.

Lemma st_bind_throw {S A B} (m : Http.St S A) (k : A -> Http.St S B) (s s' : S) (e : Exn) :
  m s = (Thrown e, s') -> Http.bind m k s = (Thrown e, s').
Proof. intros E. unfold Http.bind. now rewrite E. Qed.

Lemma lift_run {A} (m : M A) (s : Server.Server) :
  Server.lift m s
  = (fst (m (Server.world s)),
     Server.mkServer (snd (m (Server.world s))) (Server.users s) (Server.debug s)).
Proof. unfold Server.lift. now destruct (m (Server.world s)). Qed.

Lemma Task_findById_run (id : ObjectId) (w : World) :
  Task_findById id w
  = if head (faults w) is Some true
    then (Thrown StorageError, set_faults (tail (faults w)) w)
    else (Ok (List.find (fun t => (_id t =? id)%nat) (tasks w)),
          set_faults (tail (faults w)) w).
Proof.
  unfold Task_findById, bind, fault_point.
  destruct (head (faults w)) as [[|]|]; reflexivity.
Qed.

Lemma User_findById_run (id : ObjectId) (s : Server.Server) :
  Server.User_findById id s
  = let s' := Server.mkServer (set_faults (tail (faults (Server.world s))) (Server.world s))
                (Server.users s) (Server.debug s) in
    if head (faults (Server.world s)) is Some true
    then (Thrown StorageError, s')
    else (Ok (List.find (fun u => (User._id u =? id)%nat) (Server.users s)), s').
Proof.
  unfold Server.User_findById, Http.bind, Server.lift, fault_point.
  destruct (head (faults (Server.world s))) as [[|]|]; reflexivity.
Qed.

Lemma is_user_find (l : list User.IUser) (id : ObjectId) (u : User.IUser) :
  Server.is_user (List.find (fun x => (User._id x =? id)%nat) l) u = true -> id = User._id u.
Proof.
  unfold Server.is_user. destruct (List.find _ l) as [x|] eqn:Hx; [|discriminate].
  apply find_some in Hx as [_ Hx]. apply Nat.eqb_eq in Hx. intros H.
  apply Nat.eqb_eq in H. congruence.
Qed.

(** A request that is answered without data and has changed nothing. *)
Ltac answered_without_data :=
  eexists _, _; split; [reflexivity|];
  cbn [Http.ret Http.error Http.data Http.code fst snd Server.world Server.users
       tasks dates set_faults set_console];
  do 3 (split; [reflexivity|]); intros ? Hdata; discriminate Hdata.

(** X18 (routes/tasks.ts, GET /:id): reading a task changes no task, no
    date and no user, whatever the database does; and the task a request
    is answered with is the stored task with the id of the request, which
    the user created or is assigned to unless the user is an admin or a
    manager. *)
Theorem get_task_shows_own_tasks (req_user : User.IUser) (taskId : option ObjectId)
    (s : Server.Server) :
  exists resp s',
    Server.get_task req_user taskId s = (Ok resp, s')
    /\ tasks (Server.world s') = tasks (Server.world s)
    /\ dates (Server.world s') = dates (Server.world s)
    /\ Server.users s' = Server.users s
    /\ forall task,
         Http.data resp = Some task ->
         Http.code resp = 200%nat
         /\ In task (tasks (Server.world s)) /\ taskId = Some (_id task)
         /\ (createdBy task = User._id req_user \/ assignedTo task = User._id req_user
             \/ User.role req_user = "admin"%string
             \/ User.role req_user = "manager"%string).
Proof.
  unfold Server.get_task, Http.try_catch.
  destruct taskId as [id|]; [|answered_without_data].
  unfold Http.bind at 1. unfold Server.Task_findById_populated.
  unfold Http.bind at 1. rewrite lift_run, Task_findById_run.
  destruct (head (faults (Server.world s))) as [[|]|] eqn:H1; cbn [fst snd].
  1: { unfold Http.bind, Server.lift, console_error, console_log. answered_without_data. }
  all: destruct (List.find _ (tasks (Server.world s))) as [task|] eqn:Hfind;
    [|answered_without_data].
  all: apply find_some in Hfind as [Hin Hid]; apply Nat.eqb_eq in Hid.
  all: unfold Http.bind at 1; rewrite User_findById_run; cbv zeta;
    cbn [Server.world Server.users Server.debug faults set_faults].
  all: destruct (head (tail (faults (Server.world s)))) as [[|]|] eqn:H2.
  all: try (unfold Http.bind, Server.lift, console_error, console_log; answered_without_data).
  all: unfold Http.bind at 1; rewrite User_findById_run; cbv zeta;
    cbn [Server.world Server.users Server.debug faults set_faults tail].
  all: destruct (head (tail (tail (faults (Server.world s))))) as [[|]|] eqn:H3.
  all: try (unfold Http.bind, Server.lift, console_error, console_log; answered_without_data).
  all: unfold Http.ret at 1.
  all: set (assignee := List.find (fun u => (User._id u =? assignedTo task)%nat) _).
  all: set (creator := List.find (fun u => (User._id u =? createdBy task)%nat) _).
  all: destruct (negb (Server.is_user creator req_user) && negb (Server.is_user assignee req_user)
                 && negb ((User.role req_user =? "admin")%string
                          || (User.role req_user =? "manager")%string)) eqn:Hvis.
  all: try answered_without_data.
  all: eexists _, _; (split; [reflexivity|]).
  all: cbn [Http.ret Http.error Http.data Http.code fst snd Server.world Server.users
            tasks dates set_faults set_console].
  all: do 3 (split; [reflexivity|]).
  all: intros task' [= <-].
  all: split; [reflexivity|]; split; [exact Hin|]; split; [now rewrite Hid|].
  all: apply andb_false_iff in Hvis as [Hvis | Hvis];
    [apply andb_false_iff in Hvis as [Hvis | Hvis]|].
  all: apply negb_false_iff in Hvis.
  all: try (apply is_user_find in Hvis; tauto).
  all: apply orb_true_iff in Hvis as [Hvis | Hvis]; apply String.eqb_eq in Hvis; tauto.
Qed.

Lemma lift_bind {A B} (m : M A) (k : A -> Http.St Server.Server B) (s : Server.Server) :
  Http.bind (Server.lift m) k s
  = match m (Server.world s) with
    | (Ok a, w') => k a (Server.mkServer w' (Server.users s) (Server.debug s))
    | (Thrown e, w') => (Thrown e, Server.mkServer w' (Server.users s) (Server.debug s))
    end.
Proof.
  unfold Http.bind, Server.lift. now destruct (m (Server.world s)) as [[a|e] w'].
Qed.

Lemma Task_deleteOne_run (task : ITask) (w : World) :
  Task_deleteOne task w
  = if head (faults w) is Some true
    then (Thrown StorageError, set_faults (tail (faults w)) w)
    else (Ok tt, set_tasks (delete_first (_id task) (tasks w)) (set_faults (tail (faults w)) w)).
Proof.
  unfold Task_deleteOne, bind, fault_point.
  destruct (head (faults w)) as [[|]|]; reflexivity.
Qed.

Lemma delete_first_other (id : ObjectId) (l : list ITask) (t : ITask) :
  In t l -> _id t <> id -> In t (delete_first id l).
Proof.
  intros Hin Hne. induction l as [|x l IH]; [destruct Hin|].
  cbn [delete_first]. destruct (Nat.eqb_spec (_id x) id) as [E|E].
  - destruct Hin as [-> | Hin]; [contradiction | exact Hin].
  - destruct Hin as [-> | Hin]; [now left | right; auto].
Qed.

Lemma delete_first_subset (id : ObjectId) (l : list ITask) (t : ITask) :
  In t (delete_first id l) -> In t l.
Proof.
  induction l as [|x l IH]; [intros []|]. cbn [delete_first].
  destruct (_id x =? id)%nat; [now right|]. intros [-> | Hin]; [now left | right; auto].
Qed.

(** The end of [delete_task], once the task was found and the request is
    allowed. *)
Lemma delete_task_end (task : ITask) (s : Server.Server) (notify : bool) :
  exists resp s',
    Http.try_catch
      (Http.bind
         (if notify
          then Http.bind
                 (Server.lift (createNotification (assignedTo task)
                                 ("Task deleted: " ++ title task)%string "system" None))
                 (fun _ => Http.ret tt)
          else Http.ret tt)
         (fun _ =>
            Http.bind (Server.lift (Task_deleteOne task))
              (fun _ => Http.ret (Http.mkResponse 200 (Some "Task deleted successfully"%string)
                                    (@None ITask)))))
      (fun e => Http.bind (Server.lift (console_error "Delete task error:" e))
                  (fun _ => Http.ret (Http.error 500 "Server error"))) s
    = (Ok resp, s')
    /\ dates (Server.world s') = dates (Server.world s)
    /\ Server.users s' = Server.users s
    /\ ((Http.code resp = 200%nat
         /\ tasks (Server.world s') = delete_first (_id task) (tasks (Server.world s)))
        \/ (Http.code resp = 500%nat
            /\ tasks (Server.world s') = tasks (Server.world s))).
Proof.
  unfold Http.try_catch. destruct notify.
  - rewrite (st_bind_run _ _ s
               (Server.mkServer
                  (exec (createNotification (assignedTo task)
                           ("Task deleted: " ++ title task)%string "system" None)
                     (Server.world s))
                  (Server.users s) (Server.debug s)) tt).
    2: { rewrite lift_bind.
         destruct (createNotification_run (assignedTo task)
                     ("Task deleted: " ++ title task)%string "system" None (Server.world s))
           as (r & w' & E & _).
         unfold exec. now rewrite E. }
    destruct (createNotification_exec (assignedTo task)
                ("Task deleted: " ++ title task)%string "system" None (Server.world s))
      as (Hd & Ht & _). cbv zeta in Hd, Ht.
    set (w1 := exec _ (Server.world s)) in *.
    cbv beta. rewrite lift_bind, Task_deleteOne_run. cbn [Server.world Server.users Server.debug].
    destruct (head (faults w1)) as [[|]|].
    all: unfold Http.bind, Server.lift, console_error, console_log, Http.ret.
    all: eexists _, _; (split; [reflexivity|]).
    all: cbn [Server.world Server.users tasks dates set_faults set_console set_tasks Http.code
              Http.error].
    all: rewrite ?Hd, ?Ht; split; [reflexivity|]; split; [reflexivity|]; auto.
  - unfold Http.ret at 1. unfold Http.bind at 1.
    rewrite lift_bind, Task_deleteOne_run.
    destruct (head (faults (Server.world s))) as [[|]|].
    all: unfold Http.bind, Server.lift, console_error, console_log, Http.ret.
    all: eexists _, _; (split; [reflexivity|]).
    all: cbn [Server.world Server.users tasks dates set_faults set_console set_tasks Http.code
              Http.error].
    all: split; [reflexivity|]; split; [reflexivity|]; auto.
Qed.

(** X19 (routes/tasks.ts, DELETE /:id; rbac.ts): the delete route always
    answers and never touches a date or a user.  It removes at most the
    stored task with the id of the request, and only for the creator of
    that task or an admin: a manager is refused for a task of somebody
    else, although the manager role holds the permission tasks:delete-all.
    Every other task stays, so the instances of a deleted recurring task
    stay in the store. *)
Theorem delete_task_needs_creator_or_admin (req_user : User.IUser) (id : option ObjectId)
    (s : Server.Server) :
  exists resp s',
    Server.delete_task req_user id s = (Ok resp, s')
    /\ dates (Server.world s') = dates (Server.world s)
    /\ Server.users s' = Server.users s
    /\ (tasks (Server.world s') = tasks (Server.world s)
        \/ exists task,
             List.find (fun t => (_id t =? _id task)%nat) (tasks (Server.world s)) = Some task
             /\ id = Some (_id task)
             /\ (createdBy task = User._id req_user \/ User.role req_user = "admin"%string)
             /\ Http.code resp = 200%nat
             /\ tasks (Server.world s') = delete_first (_id task) (tasks (Server.world s)))
    /\ (forall t, In t (tasks (Server.world s)) -> Some (_id t) <> id ->
                  In t (tasks (Server.world s')))
    /\ (User.role req_user = "manager"%string ->
        Rbac.hasPermission (Some req_user) "tasks:delete-all"%string = Some true).
Proof.
  assert (Hperm : User.role req_user = "manager"%string ->
                  Rbac.hasPermission (Some req_user) "tasks:delete-all"%string = Some true).
  { intros Hrole. unfold Rbac.hasPermission. rewrite Hrole. reflexivity. }
  unfold Server.delete_task.
  destruct id as [id|];
    [|eexists _, _; split; [reflexivity|]; cbn; repeat split; auto].
  unfold Http.try_catch at 1. unfold Http.bind at 1. rewrite lift_run, Task_findById_run.
  destruct (head (faults (Server.world s))) as [[|]|] eqn:H1; cbn [fst snd].
  1: { eexists _, _. split; [reflexivity|]. cbn. repeat split; auto. }
  all: destruct (List.find _ (tasks (Server.world s))) as [task|] eqn:Hfind;
    [|eexists _, _; split; [reflexivity|]; cbn; repeat split; auto].
  all: pose proof Hfind as Hfind'; apply find_some in Hfind' as [Hin Hid];
    apply Nat.eqb_eq in Hid.
  all: destruct (negb (createdBy task =? User._id req_user)%nat
                 && negb (User.role req_user =? "admin")%string) eqn:Hauth;
    [eexists _, _; split; [reflexivity|]; cbn; repeat split; auto|].
  all: set (s1 := Server.mkServer _ (Server.users s) (Server.debug s)).
  all: destruct (delete_task_end task s1
                   (negb (assignedTo task =? User._id req_user)%nat))
         as (resp & s' & E & Hd & Hu & Hcases).
  all: unfold Http.try_catch in E.
  all: exists resp, s'; split;
    [destruct (negb (assignedTo task =? User._id req_user)%nat); exact E|].
  all: subst s1; cbn [Server.world Server.users dates tasks set_faults] in Hd, Hu, Hcases.
  all: split; [exact Hd|]; split; [exact Hu|].
  all: assert (Hwho : createdBy task = User._id req_user
                      \/ User.role req_user = "admin"%string)
    by (apply andb_false_iff in Hauth as [Hauth | Hauth]; apply negb_false_iff in Hauth;
        [left; now apply Nat.eqb_eq | right; now apply String.eqb_eq]).
  all: destruct Hcases as [[Hcode Htasks] | [Hcode Htasks]]; rewrite Htasks.
  all: split; [|split; [|exact Hperm]].
  all: try (left; reflexivity).
  all: try (intros t Ht _; exact Ht).
  all: try (right; exists task; rewrite Hid; now repeat split).
  all: intros t Ht Hne; apply delete_first_other; [exact Ht|]; congruence.
Qed.

(** ** What a computation keeps, whether it returns or throws *)

Section Keeps.

Variable R : World -> World -> Prop.
Hypothesis R_refl : forall w, R w w.
Hypothesis R_trans : forall w1 w2 w3, R w1 w2 -> R w2 w3 -> R w1 w3.

Lemma keeps_ret {A} (a : A) : keeps R (ret a).
Proof. intros w. apply R_refl. Qed.

Lemma keeps_throw {A} (e : Exn) : keeps R (@throw A e).
Proof. intros w. apply R_refl. Qed.

Lemma keeps_bind {A B} (m : M A) (k : A -> M B) :
  keeps R m -> (forall a, keeps R (k a)) -> keeps R (bind m k).
Proof.
  intros Hm Hk w. unfold bind. specialize (Hm w).
  destruct (m w) as [[a|e] w']; cbn [snd] in *; [|exact Hm].
  exact (R_trans _ _ _ Hm (Hk a w')).
Qed.

Lemma keeps_try_catch {A} (m : M A) (h : Exn -> M A) :
  keeps R m -> (forall e, keeps R (h e)) -> keeps R (try_catch m h).
Proof.
  intros Hm Hh w. unfold try_catch. specialize (Hm w).
  destruct (m w) as [[a|e] w']; cbn [snd] in *; [exact Hm|].
  exact (R_trans _ _ _ Hm (Hh e w')).
Qed.

Lemma keeps_for_of {A S} (l : list A) (body : A -> S -> M S) :
  (forall x s, keeps R (body x s)) -> forall s, keeps R (for_of l body s).
Proof.
  intros Hb. induction l as [|x l IH]; intros s; cbn [for_of].
  - apply keeps_ret.
  - apply keeps_bind; [apply Hb | intros s'; apply IH].
Qed.

End Keeps.

Section KeepsSt.

Context {S : Type}.
Variable R : S -> S -> Prop.
Hypothesis R_refl : forall s, R s s.
Hypothesis R_trans : forall s1 s2 s3, R s1 s2 -> R s2 s3 -> R s1 s3.

Lemma keeps_st_ret {A} (a : A) : keeps_st R (Http.ret a).
Proof. intros s. apply R_refl. Qed.

Lemma keeps_st_bind {A B} (m : Http.St S A) (k : A -> Http.St S B) :
  keeps_st R m -> (forall a, keeps_st R (k a)) -> keeps_st R (Http.bind m k).
Proof.
  intros Hm Hk s. unfold Http.bind. specialize (Hm s).
  destruct (m s) as [[a|e] s']; cbn [snd] in *; [|exact Hm].
  exact (R_trans _ _ _ Hm (Hk a s')).
Qed.

Lemma keeps_st_try_catch {A} (m : Http.St S A) (h : Exn -> Http.St S A) :
  keeps_st R m -> (forall e, keeps_st R (h e)) -> keeps_st R (Http.try_catch m h).
Proof.
  intros Hm Hh s. unfold Http.try_catch. specialize (Hm s).
  destruct (m s) as [[a|e] s']; cbn [snd] in *; [exact Hm|].
  exact (R_trans _ _ _ Hm (Hh e s')).
Qed.

End KeepsSt.

(** *** Computations that leave the tasks alone *)

Lemma same_tasks_refl (w : World) : same_tasks w w.
Proof. reflexivity. Qed.

Lemma same_tasks_trans (w1 w2 w3 : World) :
  same_tasks w1 w2 -> same_tasks w2 w3 -> same_tasks w1 w3.
Proof. unfold same_tasks. congruence. Qed.

Lemma same_tasks_readDate (r : loc) : keeps same_tasks (readDate r).
Proof. intros w. unfold readDate, same_tasks. now destruct (dates w !! r). Qed.

Lemma same_tasks_writeDate (r : loc) (v : Z) : keeps same_tasks (writeDate r v).
Proof. intros w. unfold writeDate, same_tasks. now destruct (r <? length (dates w))%nat. Qed.

Lemma same_tasks_Date_new (v : Z) : keeps same_tasks (Date_new v).
Proof. intros w. reflexivity. Qed.

Lemma same_tasks_fresh_oid : keeps same_tasks fresh_oid.
Proof. intros w. reflexivity. Qed.

Lemma same_tasks_fault_point : keeps same_tasks fault_point.
Proof. intros w. unfold fault_point, same_tasks. now destruct (head (faults w)) as [[|]|]. Qed.

Lemma same_tasks_console_log (l : LogLine) : keeps same_tasks (console_log l).
Proof. intros w. reflexivity. Qed.

Lemma same_tasks_pure {A} (f : World -> A) : keeps same_tasks (fun w => (Ok (f w), w)).
Proof. intros w. reflexivity. Qed.

Create HintDb same_tasks.

#[local] Hint Resolve same_tasks_readDate same_tasks_writeDate same_tasks_Date_new
  same_tasks_fresh_oid same_tasks_fault_point same_tasks_console_log same_tasks_pure
  : same_tasks.

(** One step through the structure of a computation. *)
Ltac keeps_same_tasks :=
  repeat first
    [ apply (keeps_ret same_tasks same_tasks_refl)
    | apply (keeps_throw same_tasks same_tasks_refl)
    | solve [auto with same_tasks]
    | solve [intros ?; reflexivity]
    | apply (keeps_bind same_tasks same_tasks_trans); [|intros ?]
    | apply (keeps_try_catch same_tasks same_tasks_trans); [|intros ?]
    | match goal with
      | |- keeps _ (match ?x with _ => _ end) => destruct x
      | |- keeps _ (let _ := _ in _) => cbv zeta
      end ].

Lemma same_tasks_calculateNextDueDate (task : ITask) :
  keeps same_tasks (calculateNextDueDate task).
Proof.
  unfold calculateNextDueDate, Date_copy, Date_getDate, Date_getDay, Date_getMonth,
    Date_getFullYear, Date_setDate, Date_setMonth, Date_setFullYear, Date_ymd.
  keeps_same_tasks.
Qed.

Lemma same_tasks_createNotification (userId : ObjectId) (message type : string)
    (entityId : option ObjectId) :
  keeps same_tasks (createNotification userId message type entityId).
Proof.
  unfold createNotification, Notification_save, io_emit, console_error.
  keeps_same_tasks.
Qed.

Lemma same_tasks_createNotification_for (userId : UserIdString) (message type : string)
    (entityId : option ObjectId) :
  keeps same_tasks (createNotification_for userId message type entityId).
Proof.
  destruct userId; [apply same_tasks_createNotification|].
  unfold createNotification_for, console_error. keeps_same_tasks.
Qed.

(** *** Computations that touch one task and its instances *)

Lemma touches_only_refl (id : ObjectId) (w : World) : touches_only id w w.
Proof. split; intros t Ht; auto. Qed.

Lemma touches_only_trans (id : ObjectId) (w1 w2 w3 : World) :
  touches_only id w1 w2 -> touches_only id w2 w3 -> touches_only id w1 w3.
Proof.
  intros [H1 H1'] [H2 H2']. split.
  - intros t Ht Hne Hc. auto.
  - intros t Ht. destruct (H2' t Ht) as [Hin | H]; [auto | now right].
Qed.

Lemma same_tasks_touches_only (id : ObjectId) (w w' : World) :
  same_tasks w w' -> touches_only id w w'.
Proof. unfold same_tasks. intros E. split; intros t Ht; rewrite E in *; auto. Qed.

Lemma keeps_same_tasks_touches_only {A} (id : ObjectId) (m : M A) :
  keeps same_tasks m -> keeps (touches_only id) m.
Proof. intros H w. apply same_tasks_touches_only, H. Qed.

Lemma touches_only_Task_save (id : ObjectId) (t : ITask) :
  is_child id t = true -> keeps (touches_only id) (Task_save t).
Proof.
  intros Hc w. unfold Task_save, bind, fault_point.
  destruct (head (faults w)) as [[|]|]; cbn [snd]; try apply touches_only_refl.
  all: split; cbn [tasks set_tasks set_faults]; intros x Hx; rewrite ?in_app_iff in *;
    cbn [In] in *; intuition (subst; auto).
Qed.

Lemma touches_only_Task_deleteMany (id : ObjectId) :
  keeps (touches_only id) (Task_deleteMany id).
Proof.
  intros w. unfold Task_deleteMany, bind, fault_point.
  destruct (head (faults w)) as [[|]|]; cbn [snd]; try apply touches_only_refl.
  all: split; cbn [tasks set_tasks set_faults]; intros x Hx.
  all: rewrite ?List.filter_In in *; try tauto.
  all: intros _ Hc; split; [exact Hx | now rewrite Hc].
Qed.

Lemma store_first_In (u : ITask) (l : list ITask) (t : ITask) :
  In t (store_first u l) -> In t l \/ t = u.
Proof.
  induction l as [|x l IH]; [intros []|]. cbn [store_first].
  destruct (_id x =? _id u)%nat; cbn [In]; intuition auto.
Qed.

Lemma store_first_other (u : ITask) (l : list ITask) (t : ITask) :
  In t l -> _id t <> _id u -> In t (store_first u l).
Proof.
  intros Hin Hne. induction l as [|x l IH]; [destruct Hin|]. cbn [store_first].
  destruct (Nat.eqb_spec (_id x) (_id u)) as [E|E].
  - destruct Hin as [-> | Hin]; [contradiction | now right].
  - destruct Hin as [-> | Hin]; [now left | right; auto].
Qed.

Lemma Task_set_id (trim : string -> string) (body : TaskBody) (task : ITask) (w : World) :
  keeps same_tasks (Task_set trim body task)
  /\ forall u w', Task_set trim body task w = (Ok u, w') -> _id u = _id task.
Proof.
  split.
  - unfold Task_set. keeps_same_tasks.
  - unfold Task_set, bind, ret, Date_new.
    destruct (b_dueDate body), (b_recurringEndDate body); intros u w' [= <- _]; reflexivity.
Qed.

Lemma touches_only_Task_findByIdAndUpdate (trim : string -> string) (id : ObjectId)
    (body : TaskBody) :
  keeps (touches_only id) (Task_findByIdAndUpdate trim id body).
Proof.
  intros w. unfold Task_findByIdAndUpdate, bind, fault_point.
  destruct (head (faults w)) as [[|]|]; cbv beta iota; cbn [snd].
  1: { now apply same_tasks_touches_only. }
  all: set (w1 := set_faults (tail (faults w)) w).
  all: destruct (List.find _ (tasks w1)) as [task|] eqn:Hfind;
    [|now apply same_tasks_touches_only].
  all: apply find_some in Hfind as [_ Hid]; apply Nat.eqb_eq in Hid.
  all: destruct (Task_set_id trim body task w1) as [Hsame Hset].
  all: specialize (Hsame w1);
    destruct (Task_set trim body task w1) as [[u|e] w2] eqn:E; cbn [snd] in *;
    [|now apply same_tasks_touches_only].
  all: specialize (Hset u w2 eq_refl).
  all: unfold same_tasks in Hsame; cbn [tasks set_faults] in Hsame.
  all: split; cbn [tasks set_tasks]; rewrite Hsame; intros x Hx.
  all: try (intros Hne _; apply store_first_other; [exact Hx | congruence]).
  all: apply store_first_In in Hx as [Hx | ->]; [now left | right; left; congruence].
Qed.

Lemma touches_only_createRecurringTaskInstance (parent : ITask) :
  keeps (touches_only (_id parent)) (createRecurringTaskInstance parent).
Proof.
  unfold createRecurringTaskInstance, Date_gt, console_error.
  repeat first
    [ apply (keeps_ret _ (touches_only_refl (_id parent)))
    | apply keeps_same_tasks_touches_only;
      first [ apply same_tasks_calculateNextDueDate | apply same_tasks_createNotification
            | solve [keeps_same_tasks] ]
    | apply touches_only_Task_save; unfold is_child; cbn; apply Nat.eqb_refl
    | apply (keeps_bind _ (touches_only_trans (_id parent))); [|intros ?]
    | apply (keeps_try_catch _ (touches_only_trans (_id parent))); [|intros ?]
    | match goal with
      | |- keeps _ (match ?x with _ => _ end) => destruct x
      | |- keeps _ (let _ := _ in _) => cbv zeta
      end ].
Qed.

Lemma touches_only_createInstance_of_populated (assignee creator : option User.IUser)
    (task : ITask) :
  keeps (touches_only (_id task)) (Server.createInstance_of_populated assignee creator task).
Proof.
  unfold Server.createInstance_of_populated, Date_gt, console_error.
  repeat first
    [ apply (keeps_ret _ (touches_only_refl (_id task)))
    | apply (keeps_throw _ (touches_only_refl (_id task)))
    | apply keeps_same_tasks_touches_only;
      first [ apply same_tasks_calculateNextDueDate
            | apply same_tasks_createNotification_for
            | solve [keeps_same_tasks] ]
    | apply touches_only_Task_save; unfold is_child; cbn; apply Nat.eqb_refl
    | apply (keeps_bind _ (touches_only_trans (_id task))); [|intros ?]
    | apply (keeps_try_catch _ (touches_only_trans (_id task))); [|intros ?]
    | match goal with
      | |- keeps _ (match ?x with _ => _ end) => destruct x
      | |- keeps _ (let _ := _ in _) => cbv zeta
      end ].
Qed.

(** *** Handlers *)

Lemma same_accounts_refl (us : list User.IUser) : same_accounts us us.
Proof. unfold same_accounts. induction us; constructor; auto. Qed.

Lemma same_accounts_trans (us1 us2 us3 : list User.IUser) :
  same_accounts us1 us2 -> same_accounts us2 us3 -> same_accounts us1 us3.
Proof.
  unfold same_accounts. intros H. revert us3.
  induction H as [|u1 u2 l1 l2 Hu H IH]; intros us3 H'; inversion H'; subst; constructor.
  - intuition congruence.
  - now apply IH.
Qed.

Lemma same_accounts_update_first (id : ObjectId) (f : User.IUser -> User.IUser)
    (us : list User.IUser) :
  (forall u, User._id (f u) = User._id u /\ User.name (f u) = User.name u
             /\ User.email (f u) = User.email u /\ User.role (f u) = User.role u) ->
  same_accounts us (Server.update_first id f us).
Proof.
  intros Hf. unfold same_accounts. induction us as [|u us IH]; [constructor|].
  cbn [Server.update_first]. destruct (User._id u =? id)%nat.
  - constructor; [apply Hf | apply same_accounts_refl].
  - constructor; [auto | exact IH].
Qed.

Lemma server_touches_only_refl (id : ObjectId) (s : Server.Server) :
  server_touches_only id s s.
Proof. split; [apply touches_only_refl | apply same_accounts_refl]. Qed.

Lemma server_touches_only_trans (id : ObjectId) (s1 s2 s3 : Server.Server) :
  server_touches_only id s1 s2 -> server_touches_only id s2 s3 ->
  server_touches_only id s1 s3.
Proof.
  intros [H1 H1'] [H2 H2']. split.
  - exact (touches_only_trans _ _ _ _ H1 H2).
  - exact (same_accounts_trans _ _ _ H1' H2').
Qed.

Lemma keeps_st_lift {A} (id : ObjectId) (m : M A) :
  keeps (touches_only id) m -> keeps_st (server_touches_only id) (Server.lift m).
Proof.
  intros H s. rewrite lift_run. cbn [snd]. split; [apply H | apply same_accounts_refl].
Qed.

Lemma keeps_st_lift_same {A} (id : ObjectId) (m : M A) :
  keeps same_tasks m -> keeps_st (server_touches_only id) (Server.lift m).
Proof. intros H. now apply keeps_st_lift, keeps_same_tasks_touches_only. Qed.

Lemma keeps_st_console_debug (id : ObjectId) (label : string) :
  keeps_st (server_touches_only id) (Server.console_debug label).
Proof. intros s. split; cbn; [apply touches_only_refl | apply same_accounts_refl]. Qed.

Lemma keeps_st_users {A} (id : ObjectId) (f : Server.Server -> A)
    (g : list User.IUser -> list User.IUser) :
  (forall us, same_accounts us (g us)) ->
  keeps_st (server_touches_only id)
    (fun s => (Ok (f s), Server.mkServer (Server.world s) (g (Server.users s)) (Server.debug s))).
Proof. intros Hg s. split; [apply touches_only_refl | apply Hg]. Qed.

Lemma keeps_st_pure {A} (id : ObjectId) (f : Server.Server -> A) :
  keeps_st (server_touches_only id) (fun s => (Ok (f s), s)).
Proof. intros s. apply server_touches_only_refl. Qed.

Ltac keeps_st_step id :=
  first
    [ apply (keeps_st_ret _ (server_touches_only_refl id))
    | apply keeps_st_console_debug
    | apply keeps_st_pure
    | apply (keeps_st_users id);
      intros ?; first [ apply same_accounts_refl
                      | apply same_accounts_update_first; intros ?; now cbn ]
    | apply keeps_st_lift_same;
      first [ apply same_tasks_createNotification | solve [keeps_same_tasks] ]
    | apply (keeps_st_bind _ (server_touches_only_trans id)); [|intros ?]
    | apply (keeps_st_try_catch _ (server_touches_only_trans id)); [|intros ?]
    | match goal with
      | |- keeps_st _ (match ?x with _ => _ end) => destruct x
      | |- keeps_st _ (let _ := _ in _) => cbv zeta
      end ].

Lemma keeps_st_User_findById (id u : ObjectId) :
  keeps_st (server_touches_only id) (Server.User_findById u).
Proof.
  unfold Server.User_findById. repeat keeps_st_step id.
Qed.

Lemma keeps_st_User_incPoints (id u : ObjectId) (points : Z) :
  keeps_st (server_touches_only id) (Server.User_incPoints u points).
Proof.
  unfold Server.User_incPoints. repeat keeps_st_step id.
Qed.

Lemma keeps_st_User_pushAchievement (id u : ObjectId) (a : string) :
  keeps_st (server_touches_only id) (Server.User_pushAchievement u a).
Proof.
  unfold Server.User_pushAchievement. repeat keeps_st_step id.
Qed.

Lemma keeps_st_award_points (id : ObjectId) (now : Z) (task : ITask) :
  keeps_st (server_touches_only id) (Server.award_points now task).
Proof.
  unfold Server.award_points, Date_copy, Date_lt, Task_countCompleted.
  repeat first
    [ apply keeps_st_User_findById | apply keeps_st_User_incPoints
    | apply keeps_st_User_pushAchievement | keeps_st_step id ].
Qed.

Lemma keeps_st_bind_val {S A B} (R : S -> S -> Prop)
    (R_trans : forall s1 s2 s3, R s1 s2 -> R s2 s3 -> R s1 s3)
    (Q : A -> Prop) (m : Http.St S A) (k : A -> Http.St S B) :
  keeps_st R m -> (forall s a s', m s = (Ok a, s') -> Q a) ->
  (forall a, Q a -> keeps_st R (k a)) -> keeps_st R (Http.bind m k).
Proof.
  intros Hm HQ Hk s. unfold Http.bind. specialize (Hm s). specialize (HQ s).
  destruct (m s) as [[a|e] s']; cbn [snd] in *; [|exact Hm].
  exact (R_trans _ _ _ Hm (Hk a (HQ a s' eq_refl) s')).
Qed.

Lemma Task_findByIdAndUpdate_id (trim : string -> string) (id : ObjectId) (body : TaskBody)
    (w w' : World) (u : ITask) :
  Task_findByIdAndUpdate trim id body w = (Ok (Some u), w') -> _id u = id.
Proof.
  unfold Task_findByIdAndUpdate, bind, fault_point.
  destruct (head (faults w)) as [[|]|]; cbv beta iota; try discriminate.
  all: set (w1 := set_faults (tail (faults w)) w).
  all: destruct (List.find _ (tasks w1)) as [task|] eqn:Hfind; [|discriminate].
  all: apply find_some in Hfind as [_ Hid]; apply Nat.eqb_eq in Hid.
  all: destruct (Task_set_id trim body task w1) as [_ Hset].
  all: destruct (Task_set trim body task w1) as [[x|e] w2] eqn:E; [|discriminate].
  all: intros [= <- _]; rewrite (Hset x w2 eq_refl); exact Hid.
Qed.

Lemma same_tasks_Task_findById (id : ObjectId) : keeps same_tasks (Task_findById id).
Proof. unfold Task_findById. keeps_same_tasks. Qed.

Lemma keeps_st_update_task (trim : string -> string) (now : Z) (req_user : User.IUser)
    (id : ObjectId) (body : TaskBody) :
  keeps_st (server_touches_only id) (Server.update_task trim now req_user (Some id) body).
Proof.
  unfold Server.update_task.
  apply (keeps_st_try_catch _ (server_touches_only_trans id));
    [|intros e; repeat keeps_st_step id].
  destruct (negb (Server.valid_update body)); [repeat keeps_st_step id|].
  apply (keeps_st_bind _ (server_touches_only_trans id));
    [apply keeps_st_lift_same, same_tasks_Task_findById|].
  intros [task|]; [|repeat keeps_st_step id].
  destruct (negb (createdBy task =? User._id req_user)%nat
            && negb (User.role req_user =? "admin")%string
            && negb (User.role req_user =? "manager")%string);
    [repeat keeps_st_step id|].
  destruct (bool_decide (is_Some (parentTaskId task)) && Server.is_true (b_isRecurring body));
    [repeat keeps_st_step id|].
  cbv zeta.
  apply (keeps_st_bind_val _ (server_touches_only_trans id)
           (fun updated => forall t, updated = Some t -> _id t = id)).
  - apply keeps_st_lift, touches_only_Task_findByIdAndUpdate.
  - intros s a s' E t ->. rewrite lift_run in E. injection E as E _.
    destruct (Task_findByIdAndUpdate trim id body (Server.world s)) as [r w'] eqn:E'.
    cbn [fst] in E. subst r. exact (Task_findByIdAndUpdate_id _ _ _ _ _ _ E').
  - intros updatedTask Hid.
    repeat first
      [ apply keeps_st_User_findById
      | apply keeps_st_award_points
      | match goal with
        | |- keeps_st _ (Server.lift (Server.createInstance_of_populated _ _ ?t)) =>
          apply keeps_st_lift; rewrite <- (Hid t eq_refl);
          apply touches_only_createInstance_of_populated
        | |- keeps_st _ (Server.lift (Task_deleteMany (_id ?t))) =>
          apply keeps_st_lift; rewrite (Hid t eq_refl); apply touches_only_Task_deleteMany
        end
      | keeps_st_step id ].
Qed.

Lemma st_try_catch_answers {S A} (m : Http.St S A) (h : Exn -> Http.St S A) (s : S) :
  (forall e s1, exists a s2, h e s1 = (Ok a, s2)) ->
  exists a s', Http.try_catch m h s = (Ok a, s').
Proof.
  intros Hh. unfold Http.try_catch. destruct (m s) as [[a|e] s1]; [now exists a, s1|].
  apply Hh.
Qed.

(** X22 (routes/tasks.ts, PUT /:id): the update route always answers.
    Whatever the body and whatever the database does, it touches no task
    but the task of the request and the instances of that task: every
    other task stays in the store, and a task that is new in the store is
    the updated task or one of its instances.  No user is added or
    removed, and no name, email or role changes.  When the user is neither
    the creator of the task nor an admin nor a manager the request is
    refused and no task, user or notification changes. *)
Theorem update_task_touches_its_task_only (trim : string -> string) (now : Z)
    (req_user : User.IUser) (id : option ObjectId) (body : TaskBody) (s : Server.Server) :
  exists resp s',
    Server.update_task trim now req_user id body s = (Ok resp, s')
    /\ match id with
       | Some i => server_touches_only i s s'
       | None => s' = s
       end
    /\ ((forall task, In task (tasks (Server.world s)) -> Some (_id task) = id ->
                      createdBy task <> User._id req_user) ->
        User.role req_user <> "admin"%string -> User.role req_user <> "manager"%string ->
        Http.code resp <> 200%nat
        /\ tasks (Server.world s') = tasks (Server.world s)
        /\ Server.users s' = Server.users s
        /\ notifications (Server.world s') = notifications (Server.world s)).
Proof.
  assert (Hans : exists resp s',
                   Server.update_task trim now req_user id body s = (Ok resp, s')).
  { unfold Server.update_task. apply st_try_catch_answers.
    intros e s1. unfold Http.bind. rewrite lift_run. cbn. eauto. }
  destruct Hans as (resp & s' & E).
  exists resp, s'. split; [exact E|]. split.
  - destruct id as [i|].
    + pose proof (keeps_st_update_task trim now req_user i body s) as H.
      now rewrite E in H.
    + unfold Server.update_task, Http.try_catch in E.
      destruct (negb (Server.valid_update body)); cbn in E; now injection E.
  - intros Hother Hadmin Hmanager. revert E. unfold Server.update_task, Http.try_catch.
    destruct (negb (Server.valid_update body)); [intros [= <- <-]; now cbn|].
    destruct id as [i|]; [|intros [= <- <-]; now cbn].
    unfold Http.bind at 1. rewrite lift_run, Task_findById_run.
    destruct (head (faults (Server.world s))) as [[|]|]; cbn [fst snd].
    1: { unfold Http.bind. rewrite lift_run. cbn. intros [= <- <-]. now cbn. }
    all: destruct (List.find _ (tasks (Server.world s))) as [task|] eqn:Hfind;
      [|intros [= <- <-]; now cbn].
    all: apply find_some in Hfind as [Hin Hid]; apply Nat.eqb_eq in Hid.
    all: assert (Hc : (createdBy task =? User._id req_user)%nat = false)
      by (apply Nat.eqb_neq, Hother; [exact Hin | now rewrite Hid]).
    all: apply String.eqb_neq in Hadmin, Hmanager.
    all: rewrite Hc, Hadmin, Hmanager; cbn [negb andb].
    all: intros [= <- <-]; now cbn.
Qed.

(** *** Answers, read backwards *)

Lemma st_bind_inv {S A B} (m : Http.St S A) (k : A -> Http.St S B) (s s'' : S) (b : B) :
  Http.bind m k s = (Ok b, s'') -> exists a s', m s = (Ok a, s') /\ k a s' = (Ok b, s'').
Proof.
  unfold Http.bind. destruct (m s) as [[a|e] s']; [|discriminate]. intros E. now exists a, s'.
Qed.

Lemma bind_inv {A B} (m : M A) (k : A -> M B) (w w'' : World) (b : B) :
  bind m k w = (Ok b, w'') -> exists a w', m w = (Ok a, w') /\ k a w' = (Ok b, w'').
Proof.
  unfold bind. destruct (m w) as [[a|e] w']; [|discriminate]. intros E. now exists a, w'.
Qed.

Lemma lift_inv {A} (m : M A) (s s' : Server.Server) (a : A) :
  Server.lift m s = (Ok a, s') ->
  exists w', m (Server.world s) = (Ok a, w')
             /\ s' = Server.mkServer w' (Server.users s) (Server.debug s).
Proof.
  rewrite lift_run. destruct (m (Server.world s)) as [r w']. cbn. intros [= -> <-]. eauto.
Qed.

Lemma keeps_inv {A} (R : World -> World -> Prop) (m : M A) (w w' : World) (r : Outcome A) :
  keeps R m -> m w = (r, w') -> R w w'.
Proof. intros H E. specialize (H w). now rewrite E in H. Qed.



Lemma createInstance_of_populated_adds (assignee creator : option User.IUser)
    (task : ITask) (w w' : World) (r : Outcome (option ITask)) :
  Server.createInstance_of_populated assignee creator task w = (r, w') ->
  tasks w' = tasks w
  \/ exists oid d, tasks w' = tasks w ++ [new_instance task oid d].
Proof.
  unfold Server.createInstance_of_populated, try_catch.
  destruct (calculateNextDueDate task w) as [[d|e] w1] eqn:E1;
    pose proof (keeps_inv _ _ _ _ _ (same_tasks_calculateNextDueDate task) E1) as H1;
    unfold same_tasks in H1.
  2: { unfold bind at 1. rewrite E1. cbn. intros [= _ <-]. left. exact H1. }
  unfold bind at 1. rewrite E1.
  set (pe := match recurringEndDate task with
             | Some endDate => Date_gt d endDate
             | None => ret false
             end).
  assert (Hpe : keeps same_tasks pe)
    by (unfold pe, Date_gt; keeps_same_tasks).
  destruct (pe w1) as [[b|e] w2] eqn:E2;
    pose proof (keeps_inv _ _ _ _ _ Hpe E2) as H2; unfold same_tasks in H2.
  2: { unfold bind at 1. rewrite E2. cbn. intros [= _ <-]. left. cbn [tasks set_console].
       congruence. }
  unfold bind at 1. rewrite E2. destruct b.
  { cbn. intros [= _ <-]. left. congruence. }
  unfold bind at 1. unfold fresh_oid at 1.
  set (w3 := set_next_oid (S (next_oid w2)) w2).
  set (inst := new_instance task (next_oid w2) d).
  destruct assignee as [assignedTo_|], creator as [createdBy_|].
  2, 3, 4: cbn; intros [= _ <-]; left; cbn; congruence.
  assert (Hsave : Task_save inst w3 = (Thrown StorageError, set_faults (tail (faults w3)) w3)
                  \/ Task_save inst w3
                     = (Ok tt, set_tasks (tasks w3 ++ [inst]) (set_faults (tail (faults w3)) w3))).
  { unfold Task_save, bind, fault_point. destruct (head (faults w3)) as [[|]|]; auto. }
  unfold bind at 1. destruct Hsave as [Hsave | Hsave]; rewrite Hsave.
  { cbn. intros [= _ <-]. left. cbn. congruence. }
  set (w4 := set_tasks (tasks w3 ++ [inst]) (set_faults (tail (faults w3)) w3)).
  set (notify := if negb (User._id assignedTo_ =? User._id createdBy_)%nat
                 then bind (createNotification_for no_id_string
                              ("New recurring task: " ++ title inst)%string
                              "task_assigned" (Some (_id inst)))
                        (fun _ => ret tt)
                 else ret tt).
  assert (Hkeep : keeps same_tasks notify).
  { unfold notify. destruct (negb _);
      [apply (keeps_bind same_tasks same_tasks_trans);
       [apply same_tasks_createNotification_for | intros ?]|];
      apply (keeps_ret same_tasks same_tasks_refl). }
  destruct (notify w4) as [[u|e] w5] eqn:E5;
    pose proof (keeps_inv _ _ _ _ _ Hkeep E5) as H5; unfold same_tasks in H5;
    unfold bind at 1; rewrite E5.
  all: cbn; intros [= _ <-]; right; exists (next_oid w2), d.
  all: cbn [tasks set_console]; rewrite ?H5; subst w4 w3 inst; cbn; rewrite H2, H1;
    reflexivity.
Qed.

Lemma st_try_catch_inv {S A} (m : Http.St S A) (h : Exn -> Http.St S A) (s s' : S) (a : A) :
  Http.try_catch m h s = (Ok a, s') ->
  m s = (Ok a, s') \/ exists e s1, m s = (Thrown e, s1) /\ h e s1 = (Ok a, s').
Proof.
  unfold Http.try_catch. destruct (m s) as [[x|e] s1]; intros E.
  - left. exact E.
  - right. now exists e, s1.
Qed.

(** A notification of a handler leaves the tasks alone. *)
Lemma notify_same_tasks (c : bool) (userId : ObjectId) (message type : string)
    (entityId : option ObjectId) (s s' : Server.Server) (r : Outcome unit) :
  (if c
   then Http.bind (Server.lift (createNotification userId message type entityId))
          (fun _ => Http.ret tt)
   else Http.ret tt) s = (r, s') ->
  tasks (Server.world s') = tasks (Server.world s).
Proof.
  destruct c; [|now intros [= _ <-]].
  unfold Http.bind. rewrite lift_run.
  destruct (createNotification userId message type entityId (Server.world s)) as [[x|e] w']
    eqn:E; pose proof (keeps_inv _ _ _ _ _ (same_tasks_createNotification _ _ _ _) E) as H;
    cbn; intros [= _ <-]; exact H.
Qed.

Lemma filter_children_removed (id : ObjectId) (l : list ITask) :
  List.filter (is_child id) (List.filter (fun t => negb (is_child id t)) l) = [].
Proof.
  induction l as [|t l IH]; [reflexivity|]. cbn [List.filter].
  destruct (is_child id t) eqn:E; cbn [negb List.filter]; [exact IH|].
  now rewrite E.
Qed.

(** X23 (routes/tasks.ts, PUT /:id; recurringTaskService.ts,
    createRecurringTaskInstance): an update of a recurring task whose body
    does not restate isRecurring counts as a change of the recurring
    settings.  When such a request is answered with 200, every instance
    the task had is deleted, and the store holds at most one instance of
    the task: the one the request created from the updated task. *)
Theorem update_recreates_instances (trim : string -> string) (now : Z)
    (req_user : User.IUser) (id : ObjectId) (body : TaskBody) (s s' : Server.Server)
    (resp : Http.Response ITask) (updated : ITask) :
  Server.update_task trim now req_user (Some id) body s = (Ok resp, s') ->
  Http.code resp = 200%nat -> Http.data resp = Some updated ->
  isRecurring updated = true -> b_isRecurring body = None ->
  _id updated = id
  /\ (List.filter (is_child id) (tasks (Server.world s')) = []
      \/ exists oid d,
           List.filter (is_child id) (tasks (Server.world s')) = [new_instance updated oid d]).
Proof.
  intros E Hcode Hdata Hrec Hbody. unfold Server.update_task in E.
  apply st_try_catch_inv in E as [E | (e & s1 & _ & E)].
  2: { unfold Http.bind in E. rewrite lift_run in E. cbn in E.
       injection E as <- _. discriminate Hcode. }
  destruct (negb (Server.valid_update body)); [injection E as <- _; discriminate Hcode|].
  apply st_bind_inv in E as (found & s1 & _ & E).
  destruct found as [task|]; [|injection E as <- _; discriminate Hcode].
  destruct (negb (createdBy task =? User._id req_user)%nat
            && negb (User.role req_user =? "admin")%string
            && negb (User.role req_user =? "manager")%string);
    [injection E as <- _; discriminate Hcode|].
  destruct (bool_decide (is_Some (parentTaskId task)) && Server.is_true (b_isRecurring body));
    [injection E as <- _; discriminate Hcode|].
  cbv zeta in E.
  apply st_bind_inv in E as (updatedTask & s2 & E2 & E).
  apply st_bind_inv in E as (populated & s3 & _ & E).
  apply st_bind_inv in E as (? & s4 & _ & E).
  apply st_bind_inv in E as (? & s5 & _ & E).
  apply st_bind_inv in E as (? & s6 & E6 & E).
  apply st_bind_inv in E as (? & s7 & E7 & E).
  apply st_bind_inv in E as (? & s8 & E8 & E).
  apply st_bind_inv in E as (? & s9 & E9 & E).
  injection E as <- <-. cbn [Http.data] in Hdata. subst updatedTask.
  assert (Hid : _id updated = id).
  { apply lift_inv in E2 as (w' & E2 & _).
    exact (Task_findByIdAndUpdate_id _ _ _ _ _ _ E2). }
  split; [exact Hid|].
  (* the notifications *)
  apply notify_same_tasks in E9, E8.
  assert (H7 : tasks (Server.world s7) = tasks (Server.world s6)).
  { destruct (b_assignedTo body) as [a|]; [|now injection E7 as _ <-].
    exact (notify_same_tasks _ _ _ _ _ _ _ _ E7). }
  rewrite E9, E8, H7. clear E9 E8 E7 H7.
  (* the instances are deleted and one is created *)
  rewrite Hbody, Hrec in E6. cbn [orb andb] in E6.
  apply st_bind_inv in E6 as (? & s5' & Edel & E6).
  apply st_bind_inv in E6 as (? & s6' & Enew & E6).
  injection E6 as _ Es6. subst s6.
  apply lift_inv in Edel as (w5 & Edel & Es5). subst s5'.
  apply lift_inv in Enew as (w6 & Enew & Es6). subst s6'.
  cbn [Server.world] in *.
  apply createInstance_of_populated_adds in Enew.
  assert (Hdel : tasks w5
                 = List.filter (fun t => negb (is_child id t)) (tasks (Server.world s5))).
  { unfold Task_deleteMany, bind, fault_point in Edel. rewrite Hid in Edel.
    destruct (head (faults (Server.world s5))) as [[|]|]; try discriminate Edel.
    all: now injection Edel as _ <-. }
  rewrite Hdel in Enew.
  destruct Enew as [-> | (oid & d & ->)].
  - left. apply filter_children_removed.
  - right. exists oid, d. rewrite List.filter_app, filter_children_removed.
    cbn [List.filter app]. unfold is_child. cbn [parentTaskId new_instance].
    now rewrite Hid, Nat.eqb_refl.
Qed.

(** *** Create task *)













(** The flag isRecurring as the string "false": the route answers with
    201, the new task is stored as not recurring, and it has an instance. *)
Example string_false_makes_an_instance :
  let answer := Server.create_task no_trim sample_creator string_false_body sample_server in
  let created := skipn 2 (tasks (Server.world (snd answer))) in
  Server.valid_create string_false_body = true
  /\ option_map Http.code (if fst answer is Ok r then Some r else None) = Some 201%nat
  /\ map isRecurring created = [false; false]
  /\ map parentTaskId created = [None; Some 3%nat]
  /\ map _id created = [3%nat; 4%nat].
Proof. vm_compute. repeat split. Qed.

(** *** A storage that does not fail *)









Lemma update_recreates_instances_witness :
  _id sample_updated = 0%nat
  /\ (List.filter (is_child 0%nat) (tasks (Server.world (snd sample_update))) = []
      \/ exists oid d,
           List.filter (is_child 0%nat) (tasks (Server.world (snd sample_update)))
           = [new_instance sample_updated oid d]).
Proof.
  apply (update_recreates_instances no_trim (utc 2024 1 2) sample_creator 0%nat complete_body
           sample_server (snd sample_update) sample_update_response sample_updated).
  - vm_compute. reflexivity.
  - vm_compute. reflexivity.
  - vm_compute. reflexivity.
  - vm_compute. reflexivity.
  - reflexivity.
Defined.

(** *** The instance the update route creates *)

Lemma same_channel_refl (w : World) : same_channel w w.
Proof. now split. Qed.

Lemma same_channel_trans (w1 w2 w3 : World) :
  same_channel w1 w2 -> same_channel w2 w3 -> same_channel w1 w3.
Proof. unfold same_channel. intros [H1 H2] [H3 H4]. split; congruence. Qed.

Lemma same_channel_readDate (r : loc) : keeps same_channel (readDate r).
Proof. intros w. unfold readDate. destruct (dates w !! r); apply same_channel_refl. Qed.

Lemma same_channel_writeDate (r : loc) (v : Z) : keeps same_channel (writeDate r v).
Proof.
  intros w. unfold writeDate. destruct (r <? length (dates w))%nat; now split.
Qed.

Lemma same_channel_fault_point : keeps same_channel fault_point.
Proof. intros w. unfold fault_point. destruct (head (faults w)) as [[|]|]; now split. Qed.

(** One step through the structure of a computation that stores and emits
    no notification. *)
Ltac keeps_same_channel :=
  repeat first
    [ apply (keeps_ret same_channel same_channel_refl)
    | apply (keeps_throw same_channel same_channel_refl)
    | apply same_channel_readDate
    | apply same_channel_writeDate
    | apply same_channel_fault_point
    | solve [intros ?; split; reflexivity]
    | apply (keeps_bind same_channel same_channel_trans); [|intros ?]
    | apply (keeps_try_catch same_channel same_channel_trans); [|intros ?]
    | match goal with
      | |- keeps _ (match ?x with _ => _ end) => destruct x
      | |- keeps _ (let _ := _ in _) => cbv zeta
      end ].

(** Whatever the task, its users and the storage: the instance the update
    route creates comes with no notification, neither stored nor emitted. *)
Lemma createInstance_of_populated_never_notifies (assignee creator : option User.IUser)
    (task : ITask) :
  keeps same_channel (Server.createInstance_of_populated assignee creator task).
Proof.
  unfold Server.createInstance_of_populated, createNotification_for, calculateNextDueDate,
    Task_save, Date_gt, console_error, console_log, fresh_oid, Date_copy, Date_new,
    Date_getDate, Date_getDay, Date_getMonth, Date_getFullYear, Date_setDate, Date_setMonth,
    Date_setFullYear, Date_ymd.
  keeps_same_channel.
Qed.

(** C8: the instance createRecurringTaskInstance makes for the update
    route comes without the notification of its assignee, although the
    assignee is not the creator and neither the storage nor the transport
    fails.  The creator (user 8) completes the weekly root (task 0), which
    is assigned to user 7: the route answers with 200 and the root has a
    new instance (task 7) with the same assignee and creator, but the
    notifications the request adds are those of the route itself, none
    says "New recurring task", and createNotification has logged two
    failures, one for each call of createRecurringTaskInstance.  The
    route passes the populated task: the string of the assignee is that
    of a user document, not of an ObjectId.  The sweep before, on the
    same root, did store the notification. *)
Theorem update_route_instance_is_not_notified :
  let before := Server.world sample_server in
  let after := Server.world (snd sample_update) in
  faults before = []
  /\ map n_message (notifications before) = ["New recurring task: Review the backlog"%string]
  /\ Http.code sample_update_response = 200%nat
  /\ map (fun t => (_id t, parentTaskId t, assignedTo t, createdBy t)) (tasks after)
     = [(0%nat, None, 7%nat, 8%nat); (7%nat, Some 0%nat, 7%nat, 8%nat)]
  /\ map n_message (skipn (length (notifications before)) (notifications after))
     = ["Achievement Unlocked: Completed your first task!";
        "You earned 10 points for completing: Review the backlog";
        "Task updated: Review the backlog"]%string
  /\ map (fun e => n_message (snd e)) (skipn (length (emitted before)) (emitted after))
     = ["Achievement Unlocked: Completed your first task!";
        "You earned 10 points for completing: Review the backlog";
        "Task updated: Review the backlog"]%string
  /\ skipn (length (console before)) (console after)
     = [Log_error "Error creating notification:" StorageError;
        Log_error "Error creating notification:" StorageError].
Proof. vm_compute. repeat split. Qed.
